(** * forgesetup: a declarative, OS-aware step runner

    Shallow embedding of [forgesetup.py] and the properties of its
    specification.

    Python [str] values are modelled by [string]; a character is a code
    point below 256.  Dictionaries that are only looked up are [gmap]s,
    YAML mappings whose order is observable are association lists. *)

From Stdlib Require Import Ascii String NArith ZArith List Lia Bool DecimalString OctalString.
From stdpp Require Import base option gmap strings.

Import ListNotations.
Local Open Scope string_scope.

(* ===================================================================== *)
(** ** Characters and strings *)

Module Str.

Definition code (c : ascii) : N := N_of_ascii c.

Definition in_range (lo hi : N) (c : ascii) : bool :=
  (lo <=? code c)%N && (code c <=? hi)%N.

(** [str.isspace] and the regex class [\s] on code points below 256. *)
Definition is_space (c : ascii) : bool :=
  in_range 9 13 c || in_range 28 32 c || (code c =? 133)%N || (code c =? 160)%N.

(** The white space [int] skips around a number: the C class for code
    points below 127, [str.isspace] from there on. *)
Definition is_int_space (c : ascii) : bool :=
  in_range 9 13 c || (code c =? 32)%N || (code c =? 133)%N || (code c =? 160)%N.

Definition is_upper (c : ascii) : bool := in_range 65 90 c.
Definition is_lower (c : ascii) : bool := in_range 97 122 c.
Definition is_digit (c : ascii) : bool := in_range 48 57 c.

(** [[A-Za-z_]] *)
Definition is_ident_start (c : ascii) : bool :=
  is_upper c || is_lower c || (code c =? 95)%N.

(** [[A-Za-z0-9_]] *)
Definition is_ident_char (c : ascii) : bool :=
  is_ident_start c || is_digit c.

Definition is_char (a : ascii) (c : ascii) : bool := Ascii.eqb a c.

(** [.] without DOTALL: anything but a line feed. *)
Definition is_dot (c : ascii) : bool := negb (code c =? 10)%N.

Fixpoint forallb (p : ascii -> bool) (s : string) : bool :=
  match s with
  | EmptyString => true
  | String c s' => p c && forallb p s'
  end.

Fixpoint count (p : ascii -> bool) (s : string) : nat :=
  match s with
  | EmptyString => 0
  | String c s' => (if p c then 1 else 0) + count p s'
  end.

(** [c.lower()]: the capital letters of ASCII and of Latin-1. *)
Definition lower_char (c : ascii) : ascii :=
  if in_range 65 90 c || in_range 192 214 c || in_range 216 222 c
  then ascii_of_N (code c + 32)
  else c.

(** [s.lower()] *)
Fixpoint lower (s : string) : string :=
  match s with
  | EmptyString => EmptyString
  | String c s' => String (lower_char c) (lower s')
  end.

(** [s[:n]] *)
Fixpoint take (n : nat) (s : string) : string :=
  match n, s with
  | S n', String c s' => String c (take n' s')
  | _, _ => EmptyString
  end.

Fixpoint rev_onto (s acc : string) : string :=
  match s with
  | EmptyString => acc
  | String c s' => rev_onto s' (String c acc)
  end.

Definition rev (s : string) : string := rev_onto s EmptyString.

Fixpoint lstrip (p : ascii -> bool) (s : string) : string :=
  match s with
  | String c s' => if p c then lstrip p s' else s
  | EmptyString => s
  end.

Definition rstrip (p : ascii -> bool) (s : string) : string :=
  rev (lstrip p (rev s)).

(** [s.strip()] with [p := is_space], [s.strip(ch)] with [p := is_char ch]. *)
Definition strip (p : ascii -> bool) (s : string) : string :=
  rstrip p (lstrip p s).

(** [sub in s] *)
Fixpoint contains (sub s : string) : bool :=
  String.prefix sub s ||
  match s with
  | EmptyString => false
  | String _ s' => contains sub s'
  end.

(** [s.split(sep, 1)] for a one-character separator that occurs in [s]:
    the text before and after the first separator. *)
Fixpoint split_first (sep : ascii) (s : string) : option (string * string) :=
  match s with
  | EmptyString => None
  | String c s' =>
      if Ascii.eqb c sep then Some (EmptyString, s')
      else match split_first sep s' with
           | Some (a, b) => Some (String c a, b)
           | None => None
           end
  end.

(** The text before the first [sep] (all of [s] when there is none). *)
Fixpoint until (sep : ascii) (s : string) : string :=
  match s with
  | EmptyString => EmptyString
  | String c s' => if Ascii.eqb c sep then EmptyString else String c (until sep s')
  end.

(** [s.split(sep)[-1]] for a one-character separator. *)
Definition last_segment (sep : ascii) (s : string) : string :=
  rev (until sep (rev s)).

End Str.

(* ===================================================================== *)
(** ** A backtracking matcher for the regular expressions of the runner

    The three patterns of the source only repeat character classes, so the
    syntax has a greedy star and a lazy plus over classes.  The matcher tries
    alternatives in the priority order of Python's [re]: a greedy star takes
    the longest run first and gives characters back, a lazy plus takes one
    character first and extends, the left branch of [|] goes first. *)

Module Re.

Inductive regex : Type :=
| Lit (w : string)
| Chr (p : ascii -> bool)
| Star (p : ascii -> bool)
| PlusLazy (p : ascii -> bool)
| Seq (r1 r2 : regex)
| Alt (r1 r2 : regex)
| Group (r : regex)
| Eol.

(** [s] without its prefix [w], when it has that prefix. *)
Fixpoint skip (w s : string) : option string :=
  match w, s with
  | EmptyString, _ => Some s
  | String a w', String c s' => if Ascii.eqb a c then skip w' s' else None
  | String _ _, EmptyString => None
  end.

Section Matcher.
Context {R : Type}.

Fixpoint star_greedy (p : ascii -> bool) (s : string)
    (k : string -> option R) : option R :=
  match s with
  | String c s' =>
      if p c then
        match star_greedy p s' k with
        | Some r => Some r
        | None => k s
        end
      else k s
  | EmptyString => k s
  end.

Fixpoint plus_lazy (p : ascii -> bool) (s : string)
    (k : string -> option R) : option R :=
  match s with
  | String c s' =>
      if p c then
        match k s' with
        | Some r => Some r
        | None => plus_lazy p s' k
        end
      else None
  | EmptyString => None
  end.

(** [$] without MULTILINE: at the end, or before a final line feed. *)
Definition at_eol (s : string) : bool :=
  match s with
  | EmptyString => true
  | String c EmptyString => (Str.code c =? 10)%N
  | _ => false
  end.

(** [run r s caps k]: match [r] at the head of [s]; [k] receives the
    unread rest and the groups closed so far, in closing order. *)
Fixpoint run (r : regex) (s : string) (caps : list string)
    (k : string -> list string -> option R) : option R :=
  match r with
  | Lit w =>
      match skip w s with
      | Some s' => k s' caps
      | None => None
      end
  | Chr p =>
      match s with
      | String c s' => if p c then k s' caps else None
      | EmptyString => None
      end
  | Star p => star_greedy p s (fun s' => k s' caps)
  | PlusLazy p => plus_lazy p s (fun s' => k s' caps)
  | Seq r1 r2 => run r1 s caps (fun s' caps' => run r2 s' caps' k)
  | Alt r1 r2 =>
      match run r1 s caps k with
      | Some x => Some x
      | None => run r2 s caps k
      end
  | Group r1 =>
      run r1 s caps (fun s' caps' =>
        k s' (caps' ++ [Str.take (String.length s - String.length s') s])%list)
  | Eol => if at_eol s then k s caps else None
  end.
End Matcher.

(** Concatenation of several expressions. *)
Fixpoint cat (l : list regex) : regex :=
  match l with
  | [] => Lit ""
  | [r] => r
  | r :: l' => Seq r (cat l')
  end.

(** [re.match]: the groups and the text after the match. *)
Definition match_here (r : regex) (s : string) : option (list string * string) :=
  run r s [] (fun rest caps => Some (caps, rest)).

(** [re.search]: leftmost match; the text before it ([s[:m.start()]]), the
    groups, and the text after it ([s[m.end():]]). *)
Fixpoint search (r : regex) (s : string) : option (string * list string * string) :=
  match match_here r s with
  | Some (caps, rest) => Some (EmptyString, caps, rest)
  | None =>
      match s with
      | String c s' =>
          match search r s' with
          | Some (pre, caps, rest) => Some (String c pre, caps, rest)
          | None => None
          end
      | EmptyString => None
      end
  end.

End Re.

(* ===================================================================== *)
(** ** Python values

    The values [yaml.safe_load] produces: null, booleans, integers, strings,
    sequences and mappings with string keys (kept as association lists, in
    document order, keys unique).  Floats and timestamps are left out. *)

Module Py.

#[warnings="-register-all"]
Inductive value : Type :=
| VNone
| VBool (b : bool)
| VInt (z : Z)
| VStr (s : string)
| VList (l : list value)
| VDict (d : list (string * value)).

(** Induction that reaches the elements of lists and mappings. *)
Section ValueInd.
Variable P : value -> Prop.
Hypothesis HNone : P VNone.
Hypothesis HBool : forall b, P (VBool b).
Hypothesis HInt : forall z, P (VInt z).
Hypothesis HStr : forall s, P (VStr s).
Hypothesis HList : forall l, Forall P l -> P (VList l).
Hypothesis HDict : forall d, Forall (fun kv => P (snd kv)) d -> P (VDict d).

Fixpoint value_nested_ind (v : value) : P v :=
  match v with
  | VNone => HNone
  | VBool b => HBool b
  | VInt z => HInt z
  | VStr s => HStr s
  | VList l =>
      HList l ((fix go (l : list value) : Forall P l :=
                  match l with
                  | [] => List.Forall_nil P
                  | x :: l' => List.Forall_cons P x l' (value_nested_ind x) (go l')
                  end) l)
  | VDict d =>
      HDict d ((fix go (d : list (string * value)) : Forall (fun kv => P (snd kv)) d :=
                  match d with
                  | [] => List.Forall_nil _
                  | kv :: d' => List.Forall_cons _ kv d' (value_nested_ind (snd kv)) (go d')
                  end) d)
  end.
End ValueInd.

(** Truth value of an object ([if x], [x or y], [bool(x)]). *)
Definition truthy (v : value) : bool :=
  match v with
  | VNone => false
  | VBool b => b
  | VInt z => negb (z =? 0)%Z
  | VStr s => negb (String.eqb s "")
  | VList l => match l with [] => false | _ => true end
  | VDict d => match d with [] => false | _ => true end
  end.

(** [x or y] *)
Definition or_else (x y : value) : value := if truthy x then x else y.

Definition str_of_Z (z : Z) : string := NilZero.string_of_int (Z.to_int z).

Definition hex_digit (n : N) : ascii :=
  if (n <? 10)%N then ascii_of_N (48 + n) else ascii_of_N (87 + n).

(** [repr] of one character inside a string literal quoted with [q]. *)
Definition repr_char (q : ascii) (c : ascii) : string :=
  let n := Str.code c in
  let hex := String "\" (String "x" (String (hex_digit (n / 16)) (String (hex_digit (n mod 16)) ""))) in
  if Ascii.eqb c q || Ascii.eqb c "\" then String "\" (String c "")
  else if (n =? 9)%N then "\t"
  else if (n =? 10)%N then "\n"
  else if (n =? 13)%N then "\r"
  else if (n <? 32)%N || (n =? 127)%N then hex
  else if (n <? 127)%N then String c ""
  else if (n <? 161)%N || (n =? 173)%N then hex
  else String c "".

Fixpoint repr_chars (q : ascii) (s : string) : string :=
  match s with
  | EmptyString => EmptyString
  | String c s' => repr_char q c ++ repr_chars q s'
  end.

Definition dquote : ascii := "034"%char.

(** [repr(s)] for a string: single quotes unless the text has a single
    quote and no double quote. *)
Definition repr_str (s : string) : string :=
  let q := if Str.contains "'" s && negb (Str.contains (String dquote "") s) then dquote else "'"%char in
  String q (repr_chars q s ++ String q "").

Fixpoint join (sep : string) (l : list string) : string :=
  match l with
  | [] => ""
  | [x] => x
  | x :: l' => x ++ sep ++ join sep l'
  end.

(** [repr(v)] *)
Fixpoint repr (v : value) : string :=
  match v with
  | VNone => "None"
  | VBool true => "True"
  | VBool false => "False"
  | VInt z => str_of_Z z
  | VStr s => repr_str s
  | VList l => "[" ++ join ", " (map repr l) ++ "]"
  | VDict d =>
      "{" ++ join ", " (map (fun kv => repr_str (fst kv) ++ ": " ++ repr (snd kv)) d) ++ "}"
  end.

(** [str(v)], also what an f-string field prints. *)
Definition str (v : value) : string :=
  match v with
  | VStr s => s
  | _ => repr v
  end.

(** Lookup in a mapping kept as an association list. *)
Fixpoint assoc (k : string) (d : list (string * value)) : option value :=
  match d with
  | [] => None
  | (k', v) :: d' => if String.eqb k k' then Some v else assoc k d'
  end.

(** The last binding of a key in an association list. *)
Fixpoint assoc_last (k : string) (d : list (string * value)) : option value :=
  match d with
  | [] => None
  | (k', v) :: d' =>
      match assoc_last k d' with
      | Some x => Some x
      | None => if String.eqb k k' then Some v else None
      end
  end.

(** A mapping as a finite map; a later binding of a key wins. *)
Definition of_items {A} (d : list (string * A)) : gmap string A :=
  fold_left (fun m kv => <[fst kv := snd kv]> m) d ∅.

End Py.

(* ===================================================================== *)
(** ** Interpolation ([interpolate_string], [deep_interpolate]) *)

Module Interp.
Import Py.

(** The capturing group: one [[A-Za-z_]], then [[A-Za-z0-9_]] repeated. *)
Definition ident_group : Re.regex :=
  Re.Group (Re.Seq (Re.Chr Str.is_ident_start) (Re.Star Str.is_ident_char)).

(** First entry of [VAR_PATTERNS]: two opening braces, [\s*], the
    identifier group, [\s*], two closing braces. *)
Definition pat_braces : Re.regex :=
  Re.cat [Re.Lit "{{"; Re.Star Str.is_space; ident_group; Re.Star Str.is_space; Re.Lit "}}"].

(** Second entry of [VAR_PATTERNS]: a dollar sign and an opening brace,
    the identifier group, a closing brace. *)
Definition pat_dollar : Re.regex :=
  Re.cat [Re.Lit "${"; ident_group; Re.Lit "}"].

Definition VAR_PATTERNS : list Re.regex := [pat_braces; pat_dollar].

(** [m.group(1)] *)
Definition group1 (caps : list string) : string := nth 0 caps "".

(** [str(ctx.get(key, ""))] *)
Definition ctx_str (ctx : gmap string value) (key : string) : string :=
  str (default (VStr "") (ctx !! key)).

(** The [while True] loop for one pattern.  One unit of [fuel] pays for one
    evaluation of [pat.search(out)]; [None] means the fuel ran out. *)
Fixpoint subst_loop (fuel : nat) (pat : Re.regex) (ctx : gmap string value)
    (out : string) : option string :=
  match fuel with
  | O => None
  | S fuel' =>
      match Re.search pat out with
      | None => Some out
      | Some (pre, caps, rest) =>
          subst_loop fuel' pat ctx (pre ++ ctx_str ctx (group1 caps) ++ rest)
      end
  end.

(** The [for pat, group in VAR_PATTERNS] loop. *)
Fixpoint subst_all (fuel : nat) (pats : list Re.regex) (ctx : gmap string value)
    (out : string) : option string :=
  match pats with
  | [] => Some out
  | pat :: pats' =>
      match subst_loop fuel pat ctx out with
      | Some out' => subst_all fuel pats' ctx out'
      | None => None
      end
  end.

Definition interpolate_string (fuel : nat) (s : string) (ctx : gmap string value)
    : option string :=
  subst_all fuel VAR_PATTERNS ctx s.

Definition is_lbrace (c : ascii) : bool := Ascii.eqb c "{".
Definition is_dollar (c : ascii) : bool := Ascii.eqb c "$".

(** The number of opening braces of a text. *)
Definition braces (s : string) : nat := Str.count is_lbrace s.

(** A pattern whose every match holds an opening brace. *)
Definition takes_brace (pat : Re.regex) : Prop :=
  forall s caps rest, Re.match_here pat s = Some (caps, rest) ->
    exists mid, s = mid ++ rest /\ 0 < braces mid.

(** No value of the context prints with an opening brace. *)
Definition brace_free (ctx : gmap string value) : Prop :=
  map_Forall (fun _ v => braces (str v) = 0) ctx.

Fixpoint deep_interpolate (fuel : nat) (obj : value) (ctx : gmap string value)
    : option value :=
  match obj with
  | VDict d =>
      option_map VDict
        ((fix items (d : list (string * value)) : option (list (string * value)) :=
            match d with
            | [] => Some []
            | (k, v) :: d' =>
                match deep_interpolate fuel v ctx with
                | Some v' =>
                    match items d' with
                    | Some d'' => Some ((k, v') :: d'')
                    | None => None
                    end
                | None => None
                end
            end) d)
  | VList l =>
      option_map VList
        ((fix elems (l : list value) : option (list value) :=
            match l with
            | [] => Some []
            | v :: l' =>
                match deep_interpolate fuel v ctx with
                | Some v' =>
                    match elems l' with
                    | Some l'' => Some (v' :: l'')
                    | None => None
                    end
                | None => None
                end
            end) l)
  | VStr s => option_map VStr (interpolate_string fuel s ctx)
  | _ => Some obj
  end.

(** *** Templates

    A template is a text cut into literal chunks and tokens; it is the
    vocabulary in which the contract of the interpolator is stated. *)

Inductive piece : Type :=
| Lit (text : string)
| Braces (ws1 name ws2 : string)
| Dollar (name : string).

(** The text of a piece as it stands in the template. *)
Definition raw (p : piece) : string :=
  match p with
  | Lit text => text
  | Braces ws1 name ws2 => "{{" ++ ws1 ++ name ++ ws2 ++ "}}"
  | Dollar name => "${" ++ name ++ "}"
  end.

(** The text expected in its place: [context[NAME]], empty when absent. *)
Definition expand (ctx : gmap string value) (p : piece) : string :=
  match p with
  | Lit text => text
  | Braces _ name _ => ctx_str ctx name
  | Dollar name => ctx_str ctx name
  end.

(** The text between the two loops: brace tokens replaced, dollar tokens
    still in place. *)
Definition expand_braces (ctx : gmap string value) (p : piece) : string :=
  match p with
  | Braces _ name _ => ctx_str ctx name
  | _ => raw p
  end.

Fixpoint render (f : piece -> string) (ps : list piece) : string :=
  match ps with
  | [] => ""
  | p :: ps' => f p ++ render f ps'
  end.

Definition is_ident (name : string) : bool :=
  match name with
  | String c name' => Str.is_ident_start c && Str.forallb Str.is_ident_char name'
  | EmptyString => false
  end.

(** A text without opening braces and dollar signs. *)
Definition plain (s : string) : bool :=
  Str.forallb (fun c => negb (is_lbrace c || is_dollar c)) s.

Definition well_formed (p : piece) : bool :=
  match p with
  | Lit text => plain text
  | Braces ws1 name ws2 =>
      Str.forallb Str.is_space ws1 && is_ident name && Str.forallb Str.is_space ws2
  | Dollar name => is_ident name
  end.

(** Every value of the context prints as a plain text. *)
Definition plain_ctx (ctx : gmap string value) : Prop :=
  map_Forall (fun _ v => plain (str v) = true) ctx.

(** Every opening brace of the text is followed by another character
    that is not an opening brace. *)
Fixpoint lone_braces (s : string) : bool :=
  match s with
  | EmptyString => true
  | String c s' =>
      (if is_lbrace c
       then match s' with
            | String d _ => negb (is_lbrace d)
            | EmptyString => false
            end
       else true) && lone_braces s'
  end.

Definition no_dollar (s : string) : bool :=
  Str.forallb (fun c => negb (is_dollar c)) s.

(** The text is empty or starts with a character outside the class. *)
Definition starts_outside (p : ascii -> bool) (s : string) : bool :=
  match s with
  | EmptyString => true
  | String c _ => negb (p c)
  end.

(** No string inside the value has an opening brace. *)
Fixpoint brace_less (v : value) : bool :=
  match v with
  | VStr s => Nat.eqb (braces s) 0
  | VList l => List.forallb brace_less l
  | VDict d => List.forallb (fun kv => brace_less (snd kv)) d
  | _ => true
  end.

(** The length of the longest string inside a value. *)
Fixpoint widest (v : value) : nat :=
  match v with
  | VStr s => String.length s
  | VList l => fold_right (fun x n => Nat.max (widest x) n) 0 l
  | VDict d => fold_right (fun kv n => Nat.max (widest (snd kv)) n) 0 d
  | _ => 0
  end.

(** [v'] is [v] with its strings interpolated: same lists, same keys in
    the same order, other values untouched. *)
#[warnings="-register-all"]
Inductive interpolated (fuel : nat) (ctx : gmap string value) : value -> value -> Prop :=
| interp_none : interpolated fuel ctx VNone VNone
| interp_bool b : interpolated fuel ctx (VBool b) (VBool b)
| interp_int z : interpolated fuel ctx (VInt z) (VInt z)
| interp_str s s' :
    interpolate_string fuel s ctx = Some s' ->
    interpolated fuel ctx (VStr s) (VStr s')
| interp_list l l' :
    Forall2 (interpolated fuel ctx) l l' ->
    interpolated fuel ctx (VList l) (VList l')
| interp_dict d d' :
    Forall2 (fun kv kv' => fst kv = fst kv' /\ interpolated fuel ctx (snd kv) (snd kv')) d d' ->
    interpolated fuel ctx (VDict d) (VDict d').

End Interp.

(* ===================================================================== *)
(** ** The runner's effects

    A run is a state transformer over the file system, the process
    environment and the trace of what was printed and spawned.  It ends with
    a value, with a raised exception (any uncaught exception ends the
    interpreter with a nonzero exit status), or without an answer when an
    interpolation loop does not stop within the fuel. *)

Module Eff.
Import Py.

Inductive exn_class : Type :=
| SystemExit | ValueError | KeyError | TypeError | AttributeError
| CalledProcessError | OSError | PermissionError | ImportError.

(** An exception and its [str(e)].  The texts of the errors the source
    raises are the source's; for errors raised by the interpreter the text
    names the failing operation. *)
Record exn : Type := Exn { cls : exn_class; msg : string }.

Inductive event : Type :=
| Print (text : string)
| Spawn (argv : list string) (cwd : option value) (env : option (gmap string string)).

Record fsys : Type := Fs {
  files : gmap string string;
  dirs : gset string;
  modes : gmap string Z
}.

Record state : Type := St {
  fs : fsys;
  environ : gmap string string;
  trace : list event
}.

Inductive result (A : Type) : Type :=
| Ok (a : A)
| Raise (e : exn)
| Diverge.
Arguments Ok {A} a.
Arguments Raise {A} e.
Arguments Diverge {A}.

Definition M (A : Type) : Type := state -> result A * state.

Definition ret {A} (a : A) : M A := fun st => (Ok a, st).

Definition bind {A B} (m : M A) (f : A -> M B) : M B :=
  fun st =>
    match m st with
    | (Ok a, st') => f a st'
    | (Raise e, st') => (Raise e, st')
    | (Diverge, st') => (Diverge, st')
    end.

Definition raise {A} (c : exn_class) (text : string) : M A :=
  fun st => (Raise (Exn c text), st).

Definition reraise {A} (e : exn) : M A := fun st => (Raise e, st).

(** [try: m  except <handled classes> as e: h e]; [h] answers [None] for
    the classes the [except] clause does not name. *)
Definition try_except {A} (m : M A) (h : exn -> option (M A)) : M A :=
  fun st =>
    match m st with
    | (Raise e, st') =>
        match h e with
        | Some k => k st'
        | None => (Raise e, st')
        end
    | r => r
    end.

(** The answer of a fuelled loop. *)
Definition of_fuel {A} (o : option A) : M A :=
  fun st => match o with Some a => (Ok a, st) | None => (Diverge, st) end.

Definition get_state : M state := fun st => (Ok st, st).

Definition emit (e : event) : M unit :=
  fun st => (Ok tt, St (fs st) (environ st) (trace st ++ [e])).

Definition print (text : string) : M unit := emit (Print text).

(** The state after [print(text)]. *)
Definition printed (st : state) (text : string) : state :=
  St (fs st) (environ st) (trace st ++ [Print text]).

Definition set_fs (f : fsys) : M unit :=
  fun st => (Ok tt, St f (environ st) (trace st)).

Definition set_environ (k v : string) : M unit :=
  fun st => (Ok tt, St (fs st) (<[k := v]> (environ st)) (trace st)).

Definition is_print (e : event) : bool :=
  match e with
  | Print _ => true
  | Spawn _ _ _ => false
  end.

(** A computation that spawns nothing: all it adds to the trace is
    printed text. *)
Definition prints_only {A} (m : M A) : Prop :=
  forall st, exists out,
    trace (snd (m st)) = (trace st ++ out)%list /\ Forall (fun e => is_print e = true) out.

(** A computation that only prints: files, directories, modes and the
    process environment stay as they are and nothing is spawned. *)
Definition inert {A} (m : M A) : Prop :=
  forall st, exists out,
    snd (m st) = St (fs st) (environ st) (trace st ++ out)%list
    /\ Forall (fun e => is_print e = true) out.

(** A computation that only prints and, at most, sets process environment
    variables: the file system stays as it is and nothing is spawned. *)
Definition harmless {A} (m : M A) : Prop :=
  forall st, exists out,
    fs (snd (m st)) = fs st
    /\ trace (snd (m st)) = (trace st ++ out)%list
    /\ Forall (fun e => is_print e = true) out.

(** A computation whose only child process, if it has one, is [argv],
    started without a working directory or an environment of its own. *)
Definition spawns_at_most (argv : list string) {A} (m : M A) : Prop :=
  forall st, exists out,
    trace (snd (m st)) = (trace st ++ out)%list
    /\ Forall (fun e => is_print e = true \/ e = Spawn argv None None) out.

(** A computation that leaves the state as it found it. *)
Definition stateless {A} (m : M A) : Prop :=
  forall st, snd (m st) = st.

(** [for x in l: body x] *)
Fixpoint for_each {A} (l : list A) (body : A -> M unit) : M unit :=
  match l with
  | [] => ret tt
  | x :: l' => bind (body x) (fun _ => for_each l' body)
  end.

(** [for idx, x in enumerate(l, start=idx): body idx x] *)
Fixpoint for_enumerate {A} (idx : nat) (l : list A) (body : nat -> A -> M unit) : M unit :=
  match l with
  | [] => ret tt
  | x :: l' => bind (body idx x) (fun _ => for_enumerate (S idx) l' body)
  end.

End Eff.

#[global] Instance eff_ret : MRet Eff.M := @Eff.ret.
#[global] Instance eff_bind : MBind Eff.M := fun A B f m => Eff.bind m f.

(* ===================================================================== *)
(** ** What the runner asks of its platform

    [platform], [pathlib], [subprocess], [os.chmod], [yaml], the import
    system and the [distro] package are not part of the runner; a [world]
    fixes their answers.  The module [yaml] is taken as loaded. *)

Module Platform.
Import Py Eff.

(** What a file-system call asks the operating system for. *)
Inductive access : Type :=
| ReadFile    (** open a file for reading *)
| WriteFile   (** create a file, or open one for writing *)
| MakeDir.    (** create a directory *)

Record world : Type := World {
  (** [platform.system()] *)
  system : string;
  (** [sys.executable] *)
  executable : string;
  (** [import distro]: the exception it raises, if any, given what is
      installed *)
  import_distro : fsys -> option exn;
  (** [distro.id() or ""] and [distro.like() or ""] *)
  distro_id : fsys -> string;
  distro_like : fsys -> string;
  (** [yaml.safe_load] of the text of a file *)
  yaml_load : string -> result value;
  (** [Path(p).expanduser()] under the given [os.environ] *)
  expanduser : gmap string string -> string -> string;
  (** [Path(p).resolve()] *)
  resolve : fsys -> string -> string;
  (** [p / name] *)
  joinpath : string -> string -> string;
  (** [p.parents], nearest first (empty for a root and for [.]) *)
  parents : string -> list string;
  (** [Path(name).stem] *)
  stem : string -> string;
  (** what a child process does: [None] for exit status 0, the exception
      [subprocess.run(..., check=True)] raises otherwise, and the file
      system it leaves *)
  spawn : list string -> option value -> option (gmap string string) ->
          state -> option exn * fsys;
  (** whether [os.chmod(p, n)] raises *)
  chmod_fails : string -> Z -> bool;
  (** whether the operating system lets the process through, given the
      file system and the mode bits it holds; a refusal is a
      [PermissionError] *)
  permits : fsys -> access -> string -> bool;
  (** [os.linesep]: what a line feed becomes in a file written in text
      mode *)
  linesep : string
}.

End Platform.

(* ===================================================================== *)
(** ** The hooks: processes, clones and file writes *)

Module Hooks.
Import Py Eff Platform.

Definition newline : string := String "010" "".

Definition LF : ascii := "010".
Definition CR : ascii := "013".

(** What text mode makes of a file when reading it: a carriage return,
    with the line feed after it if there is one, becomes a line feed. *)
Fixpoint universal_newlines (s : string) : string :=
  match s with
  | EmptyString => EmptyString
  | String c s' =>
      if Ascii.eqb c CR then
        String LF (match s' with
                   | String c' s'' =>
                       if Ascii.eqb c' LF then universal_newlines s''
                       else universal_newlines s'
                   | EmptyString => EmptyString
                   end)
      else String c (universal_newlines s')
  end.

(** What text mode writes for a text: each line feed becomes [sep]. *)
Fixpoint written_newlines (sep : string) (s : string) : string :=
  match s with
  | EmptyString => EmptyString
  | String c s' =>
      if Ascii.eqb c LF then sep ++ written_newlines sep s'
      else String c (written_newlines sep s')
  end.

Definition is_str (s : string) (v : value) : bool :=
  match v with
  | VStr s' => String.eqb s s'
  | _ => false
  end.

Fixpoint strs (l : list value) : option (list string) :=
  match l with
  | [] => Some []
  | VStr s :: l' => option_map (cons s) (strs l')
  | _ :: _ => None
  end.

Fixpoint chars (s : string) : list value :=
  match s with
  | EmptyString => []
  | String c s' => VStr (String c "") :: chars s'
  end.

(** What [for x in v] and [list(v)] go through. *)
Definition iter (v : value) : M (list value) :=
  match v with
  | VList l => mret l
  | VDict d => mret (map (fun kv => VStr (fst kv)) d)
  | VStr s => mret (chars s)
  | _ => raise TypeError "object is not iterable"
  end.

(** [int(s, 8)]: surrounding white space (as [int] understands it), a
    sign, an [0o] prefix, octal digits, single underscores between
    digits. *)
Fixpoint octal_digits (s : string) (after_digit : bool) (acc : Z) : option Z :=
  match s with
  | EmptyString => if after_digit then Some acc else None
  | String c s' =>
      if Str.in_range 48 55 c then
        octal_digits s' true (8 * acc + Z.of_N (Str.code c - 48))
      else if Ascii.eqb c "_" && after_digit then octal_digits s' false acc
      else None
  end.

Definition parse_octal (s : string) : option Z :=
  let s := Str.strip Str.is_int_space s in
  let '(neg, s) :=
    match s with
    | String "-" s' => (true, s')
    | String "+" s' => (false, s')
    | _ => (false, s)
    end in
  let '(prefixed, s) :=
    match s with
    | String "0" (String "o" s') => (true, s')
    | String "0" (String "O" s') => (true, s')
    | _ => (false, s)
    end in
  let s := match s with
           | String "_" s' => if prefixed then s' else s
           | _ => s
           end in
  option_map (fun n => if neg then (- n)%Z else n) (octal_digits s false 0).

Section WithWorld.
Variable W : world.

(** [subprocess.run(args, cwd=cwd, env=env, check=True)].  A list is the
    argument vector; as on POSIX, a string is a vector of one program
    name and any other iterable is listed first. *)
Definition subprocess_run (args : value) (cwd : option value)
    (env : option (gmap string string)) : M unit :=
  l ← match args with
      | VStr s => mret [VStr s]
      | _ => iter args
      end;
  match strs l with
  | None => raise TypeError "expected str, bytes or os.PathLike object"
  | Some argv =>
      emit (Spawn argv cwd env);;
      st ← get_state;
      let r := spawn W argv cwd env st in
      set_fs (snd r);;
      match fst r with
      | None => mret tt
      | Some e => reraise e
      end
  end.

(** What a call of [subprocess_run] with the argument vector [argv] does:
    the spawn is recorded, the child runs, its exception (if any) is
    raised. *)
Definition spawned (argv : list string) (cwd : option value)
    (env : option (gmap string string)) (st : state) : result unit * state :=
  let st1 := St (fs st) (environ st) (trace st ++ [Spawn argv cwd env]) in
  let r := spawn W argv cwd env st1 in
  (match fst r with None => Ok tt | Some e => Raise e end,
   St (snd r) (environ st) (trace st1)).

Definition run_process_shell (cmd : string) (shell_kind : value)
    (cwd : option value) (env : option (gmap string string)) : M unit :=
  let full :=
    if is_str "powershell" shell_kind
    then ["powershell"; "-NoProfile"; "-ExecutionPolicy"; "Bypass"; "-Command"; cmd]
    else ["/bin/bash"; "-lc"; cmd] in
  subprocess_run (VList (map VStr full)) cwd env.

(** The vector a shell string is expected to run as: PowerShell for the
    [powershell] kind, a login [bash] otherwise. *)
Definition shell_vector (shell_kind : value) (cmd : string) : list string :=
  if is_str "powershell" shell_kind
  then ["powershell"; "-NoProfile"; "-ExecutionPolicy"; "Bypass"; "-Command"; cmd]
  else ["/bin/bash"; "-lc"; cmd].

Definition run_process_argv (argv : value) (cwd : option value)
    (env : option (gmap string string)) : M unit :=
  subprocess_run argv cwd env.

(** [p.exists()] *)
Definition path_exists (f : fsys) (p : string) : bool :=
  bool_decide (is_Some (files f !! p)) || bool_decide (p ∈ dirs f).

(** [p.parent]; a root is its own parent. *)
Definition parent (p : string) : string := hd p (parents W p).

(** The directories [ensure_parent p] makes sure of. *)
Definition parent_chain (p : string) : list string :=
  parent p :: parents W (parent p).

(** [p.mkdir(parents=True, exist_ok=True)] along the chain of [p] and
    its parents, nearest first: a directory that is there is left alone, a
    regular file in the way is an error, a missing parent is made first,
    and the top of a chain (a root, or [.]) is always there. *)
Fixpoint mkdir_chain (chain : list string) : M unit :=
  match chain with
  | [] => mret tt
  | q :: up =>
      st ← get_state;
      if bool_decide (q ∈ dirs (fs st)) then mret tt
      else if bool_decide (is_Some (files (fs st) !! q))
      then raise OSError "File exists"
      else
        match up with
        | [] => set_fs (Fs (files (fs st)) (dirs (fs st) ∪ {[q]}) (modes (fs st)))
        | _ :: _ =>
            mkdir_chain up;;
            st ← get_state;
            if permits W (fs st) MakeDir q
            then set_fs (Fs (files (fs st)) (dirs (fs st) ∪ {[q]}) (modes (fs st)))
            else raise PermissionError "Permission denied"
        end
  end.

Definition mkdir_parents (p : string) : M unit := mkdir_chain (p :: parents W p).

(** [p.read_text(encoding="utf-8")] *)
Definition read_text (p : string) : M string :=
  st ← get_state;
  match files (fs st) !! p with
  | Some data =>
      if permits W (fs st) ReadFile p then mret (universal_newlines data)
      else raise PermissionError "Permission denied"
  | None => raise OSError "no such file, or a directory"
  end.

(** [p.write_text(data, encoding="utf-8")] *)
Definition write_text (p : string) (data : value) : M unit :=
  match data with
  | VStr text =>
      st ← get_state;
      if bool_decide (p ∈ dirs (fs st)) then raise OSError "is a directory"
      else if negb (bool_decide (parent p ∈ dirs (fs st)))
      then raise OSError "no such directory"
      else if negb (permits W (fs st) WriteFile p)
      then raise PermissionError "Permission denied"
      else set_fs (Fs (<[p := written_newlines (linesep W) text]> (files (fs st)))
                      (dirs (fs st)) (modes (fs st)))
  | _ => raise TypeError "data must be str"
  end.

(** [os.chmod(p, n)] *)
Definition os_chmod (p : string) (n : Z) : M unit :=
  if chmod_fails W p n then raise OSError "chmod failed"
  else
    st ← get_state;
    set_fs (Fs (files (fs st)) (dirs (fs st)) (<[p := n]> (modes (fs st)))).

(** [except Exception]: every class but [SystemExit]. *)
Definition is_Exception (e : exn) : bool :=
  match cls e with
  | SystemExit => false
  | _ => true
  end.

(** [import distro] *)
Definition import_module : M unit :=
  st ← get_state;
  match import_distro W (fs st) with
  | None => mret tt
  | Some e => reraise e
  end.

(** The command [detect_os] installs [distro] with. *)
Definition pip_install_distro : list string :=
  [executable W; "-m"; "pip"; "install"; "distro"].

(** [detect_os] *)
Definition detect_os : M string :=
  let sysname := Str.lower (system W) in
  if String.eqb sysname "windows" then mret "windows"
  else if String.eqb sysname "linux" then
    try_except import_module
      (fun e =>
         if is_Exception e
         then Some (subprocess_run (VList (map VStr pip_install_distro)) None None;;
                    import_module)
         else None);;
    st ← get_state;
    let did := Str.lower (distro_id W (fs st)) in
    let like := Str.lower (distro_like W (fs st)) in
    if existsb (String.eqb did) ["ubuntu"; "debian"; "linuxmint"; "pop"]
       || Str.contains "debian" like
    then mret "ubuntu"
    else if existsb (String.eqb did) ["fedora"; "rhel"; "centos"; "rocky"; "almalinux"]
            || Str.contains "rhel" like || Str.contains "fedora" like
    then mret "fedora"
    else if existsb (String.eqb did) ["arch"; "manjaro"; "endeavouros"; "arcolinux"]
    then mret "arch"
    else mret "ubuntu"
  else raise SystemExit "Unsupported OS".

Definition clone_repo_to (url : value) (dest : string) : M unit :=
  st ← get_state;
  if path_exists (fs st) dest then
    print ("skip clone: " ++ dest ++ " exists")
  else
    mkdir_parents (parent dest);;
    print ("cloning " ++ str url ++ " -> " ++ dest);;
    subprocess_run (VList [VStr "git"; VStr "clone"; url; VStr dest]) None None.

Definition ensure_parent (p : string) : M unit := mkdir_parents (parent p).

Definition write_file (path content mode : value) (append : bool) : M unit :=
  match path with
  | VStr path =>
      st ← get_state;
      let p := expanduser W (environ st) path in
      ensure_parent p;;
      st ← get_state;
      (if append && path_exists (fs st) p then
         old ← read_text p;
         match content with
         | VStr text => write_text p (VStr (old ++ text))
         | _ => raise TypeError "can only concatenate str to str"
         end
       else write_text p content);;
      if truthy mode then
        try_except
          (match parse_octal (str mode) with
           | Some n => os_chmod p n
           | None => raise ValueError "invalid literal for int() with base 8"
           end)
          (fun e => if is_Exception e then Some (mret tt) else None)
      else mret tt
  | _ => raise TypeError "expected str, bytes or os.PathLike object"
  end.

(** The text [write_file] leaves in its target: what text mode writes
    for the new content, put after what text mode reads of the old
    content when appending. *)
Definition written (append : bool) (old : option string) (text : string) : string :=
  written_newlines (linesep W)
    ((if append then universal_newlines (default "" old) else "") ++ text).

(** The operating system refuses nothing of what [write_file] asks for
    at [p]: making the directories above it, writing it and reading it,
    on every file system with the files and the mode bits of [f0]. *)
Definition unhindered (f0 : fsys) (p : string) : Prop :=
  forall f, files f = files f0 -> modes f = modes f0 ->
    (forall q, q ∈ parent_chain p -> permits W f MakeDir q = true)
    /\ permits W f WriteFile p = true
    /\ permits W f ReadFile p = true.

(** The modes [write_file] leaves, given those it found. *)
Definition mode_set (p : string) (mode : value) (m : gmap string Z) : gmap string Z :=
  if truthy mode
  then match parse_octal (str mode) with
       | Some n => if chmod_fails W p n then m else <[p := n]> m
       | None => m
       end
  else m.

(** [safe_run_command] *)
Definition safe_run_command (item shell_kind : value) (cwd : option value)
    (env : option (gmap string string)) : M unit :=
  match item with
  | VDict d =>
      match assoc "argv" d with
      | Some argv =>
          match argv with
          | VList _ => run_process_argv argv cwd env
          | _ => raise ValueError "argv must be a list"
          end
      | None => raise ValueError "Unsupported run item type; use string or {'argv': [...]}."
      end
  | VStr cmd => run_process_shell cmd shell_kind cwd env
  | _ => raise ValueError "Unsupported run item type; use string or {'argv': [...]}."
  end.

End WithWorld.

(** [sub in v] *)
Definition contains (sub : string) (v : value) : result bool :=
  match v with
  | VStr s => Ok (Str.contains sub s)
  | VList l => Ok (existsb (is_str sub) l)
  | VDict d => Ok (bool_decide (is_Some (assoc sub d)))
  | _ => Raise (Exn TypeError "argument is not iterable")
  end.

(** [resolve_repo_url] *)
Definition resolve_repo_url (entry default_org : value) : result value :=
  match entry with
  | VDict d =>
      let url := default VNone (assoc "url" d) in
      if truthy url then Ok url
      else
        let name := default VNone (assoc "name" d) in
        if negb (truthy name) then
          Raise (Exn ValueError "repo entry must contain 'url' or 'name'")
        else
          let org := or_else (default VNone (assoc "org" d)) default_org in
          if negb (truthy org) then
            match contains "/" name with
            | Ok true => Ok (VStr ("https://github.com/" ++ str name ++ ".git"))
            | Ok false =>
                Raise (Exn ValueError
                  "No org provided and default_org not set; cannot resolve repo URL")
            | Raise e => Raise e
            | Diverge => Diverge
            end
          else Ok (VStr ("https://github.com/" ++ str org ++ "/" ++ str name ++ ".git"))
  | _ =>
      match contains "url" entry with
      | Ok true => Raise (Exn TypeError "indices must be integers")
      | Ok false => Raise (Exn AttributeError "object has no attribute 'get'")
      | Raise e => Raise e
      | Diverge => Diverge
      end
  end.

End Hooks.

(* ===================================================================== *)
(** ** The runner ([parse_overrides], [merge_envs], [run_spec]) *)

Module Runner.
Import Py Eff Platform Hooks.

(** [parse_overrides] *)
Definition parse_overrides (kv_list : list string) : gmap string string :=
  fold_left
    (fun out kv =>
       match Str.split_first "=" kv with
       | Some (k, v) => <[Str.strip Str.is_space k := Str.strip Str.is_space v]> out
       | None => out
       end)
    kv_list ∅.

(** One round of the outer loop of [merge_envs]. *)
Definition merge_layer (out : gmap string string) (m : value) : M (gmap string string) :=
  if negb (truthy m) then mret out
  else
    match m with
    | VDict d => mret (fold_left (fun o kv => <[fst kv := str (snd kv)]> o) d out)
    | _ => raise AttributeError "object has no attribute 'items'"
    end.

(** [merge_envs(first, *layers)], where [first] maps strings to strings
    (it is [os.environ] or an earlier result at both call sites). *)
Fixpoint merge_envs (first : gmap string string) (layers : list value)
    : M (gmap string string) :=
  match layers with
  | [] => mret first
  | m :: layers' => out ← merge_layer first m; merge_envs out layers'
  end.

(** [d.get(k)] and [d.get(k, dflt)] on a mapping. *)
Definition get (d : list (string * value)) (k : string) : value :=
  default VNone (assoc k d).

Definition get_or (d : list (string * value)) (k : string) (dflt : value) : value :=
  default dflt (assoc k d).

(** [v.get(k, dflt)] on any object. *)
Definition dyn_get (v : value) (k : string) (dflt : value) : M value :=
  match v with
  | VDict d => mret (get_or d k dflt)
  | _ => raise AttributeError "object has no attribute 'get'"
  end.

(** [v[k]] on any object. *)
Definition subscript (v : value) (k : string) : M value :=
  match v with
  | VDict d =>
      match assoc k d with
      | Some x => mret x
      | None => raise KeyError (repr_str k)
      end
  | _ => raise TypeError "object is not subscriptable by a string"
  end.

Definition empty_dict : value := VDict [].
Definition empty_list : value := VList [].

(** [a + b] on the two step lists. *)
Definition concat_steps (a b : value) : M (list value) :=
  match a, b with
  | VList x, VList y => mret (x ++ y)%list
  | VStr x, VStr y => mret (chars (x ++ y))
  | _, _ => raise TypeError "unsupported operand type(s) for +"
  end.

(** [{**ctx, **merged_env}] *)
Definition step_context (ctx : gmap string value) (merged_env : gmap string string)
    : gmap string value :=
  (VStr <$> merged_env) ∪ ctx.

(** The guard pattern: [\s*], the identifier group, [\s*], the group
    of [==] or [!=], [\s*], the lazy group of one or more characters
    other than a line feed, [\s*], end of text. *)
Definition pat_when : Re.regex :=
  Re.cat [Re.Star Str.is_space; Interp.ident_group; Re.Star Str.is_space;
          Re.Group (Re.Alt (Re.Lit "==") (Re.Lit "!="));
          Re.Star Str.is_space; Re.Group (Re.PlusLazy Str.is_dot);
          Re.Star Str.is_space; Re.Eol].

(** The body of [if when:] for a string guard: the value of [cond_ok]. *)
Definition cond_ok (when : string) (step_ctx : gmap string value) : bool :=
  match Re.match_here pat_when when with
  | Some (caps, _) =>
      let k := nth 0 caps "" in
      let op := nth 1 caps "" in
      let val := Str.strip (Str.is_char "'")
                   (Str.strip (Str.is_char dquote)
                      (Str.strip Str.is_space (nth 2 caps ""))) in
      let actual := Interp.ctx_str step_ctx k in
      if String.eqb op "==" then String.eqb actual val
      else negb (String.eqb actual val)
  | None => false
  end.

(** A character of a guard value that is neither white space nor a line
    feed, and one that is no quote either. *)
Definition solid (c : ascii) : bool := negb (Str.is_space c) && Str.is_dot c.

Definition bare (c : ascii) : bool :=
  solid c && negb (Str.is_char "'" c) && negb (Str.is_char dquote c).

(** What a guard makes of the text [v] it finds between two quotes [q]:
    quotes at the two ends of [v] go as well, those of both kinds inside
    double quotes, single ones inside single quotes. *)
Definition unquoted (q : ascii) (v : string) : string :=
  Str.strip (Str.is_char "'")
    (if Ascii.eqb q dquote then Str.strip (Str.is_char dquote) v else v).

(** The comparison a guard stands for. *)
Definition compare (negated : bool) (actual val : string) : bool :=
  if negated then negb (String.eqb actual val) else String.eqb actual val.

Definition operator (negated : bool) : string := if negated then "!=" else "==".

Section WithWorld.
Variable W : world.
Variable fuel : nat.

(** What [run_spec] computes before its loop and the loop body reads. *)
Record config : Type := Config {
  dry_run : bool;
  os_key : string;
  inputs : list (string * value);
  ctx : gmap string value;
  merged_env : gmap string string
}.

Definition default_shell (c : config) : value :=
  if String.eqb (os_key c) "windows" then VStr "powershell" else VStr "bash".

(** Whether the step goes on after the [when] block. *)
Definition guard_passes (when : value) (step_ctx : gmap string value) : M bool :=
  if truthy when then
    match when with
    | VStr w => mret (cond_ok w step_ctx)
    | _ => raise TypeError "expected string or bytes-like object"
    end
  else mret true.

(** The [write_file] action. *)
Definition act_write_file (c : config) (wf : value) : M unit :=
  path ← subscript wf "path";
  match wf with
  | VDict d =>
      let content := get_or d "content" (VStr "") in
      let mode := get d "mode" in
      let append := truthy (get_or d "append" (VBool false)) in
      if dry_run c then print ("DRY-RUN write_file -> " ++ str path)
      else write_file W path content mode append
  | _ => raise AttributeError "object has no attribute 'get'"
  end.

(** The handler of [except subprocess.CalledProcessError as e]. *)
Definition on_process_error {A} (h : exn -> M A) (e : exn) : option (M A) :=
  match cls e with
  | CalledProcessError => Some (h e)
  | _ => None
  end.

(** The [try] block of the [post_install] loop. *)
Definition post_command (shell_kind : value) (target : string)
    (step_env : gmap string string) (pitem : value) : M unit :=
  match pitem with
  | VDict d =>
      match assoc "argv" d with
      | Some argv => run_process_argv W argv (Some (VStr target)) (Some step_env)
      | None => run_process_shell W (str pitem) shell_kind (Some (VStr target)) (Some step_env)
      end
  | _ => run_process_shell W (str pitem) shell_kind (Some (VStr target)) (Some step_env)
  end.

(** One round of [for pitem in post]. *)
Definition post_item (coe : bool) (shell_kind : value) (name : value)
    (target : string) (step_env : gmap string string) (pitem : value) : M unit :=
  try_except
    (post_command shell_kind target step_env pitem)
    (on_process_error (fun e =>
       print ("[ERROR] post_install failed for " ++ str name ++ ": " ++ msg e);;
       if coe then mret tt else reraise e)).

(** The head of [for entry in repos]: the URL, the directory name and the
    clone target of an entry. *)
Definition locate_entry (dest_path : string) (default_org : value) (entry : value)
    : M (value * value * string) :=
  url ← match resolve_repo_url entry default_org with
        | Ok u => mret u
        | Raise e =>
            if is_Exception e
            then raise SystemExit ("repo resolution error: " ++ msg e)
            else reraise e
        | Diverge => of_fuel None
        end;
  entry_name ← dyn_get entry "name" VNone;
  name ← (if truthy entry_name then mret entry_name
          else match url with
               | VStr u =>
                   mret (VStr (stem W (Str.last_segment "/" (Str.rstrip (Str.is_char "/") u))))
               | _ => raise AttributeError "object has no attribute 'rstrip'"
               end);
  match name with
  | VStr n => mret (url, name, joinpath W dest_path n)
  | _ => raise TypeError "unsupported operand type(s) for /"
  end.

(** One round of [for entry in repos]. *)
Definition clone_entry (coe : bool) (shell_kind : value)
    (step_env : gmap string string) (dest_path : string) (default_org : value)
    (entry : value) : M unit :=
  '(url, name, target) ← locate_entry dest_path default_org entry;
  cloned ← try_except
             (clone_repo_to W url target;; mret true)
             (on_process_error (fun e =>
                print ("[ERROR] git clone failed: " ++ msg e);;
                if coe then mret false else reraise e));
  if (cloned : bool) then
    post_v ← dyn_get entry "post_install" VNone;
    post ← iter (or_else post_v empty_list);
    for_each post (post_item coe shell_kind name target step_env)
  else mret tt.

(** [len(v)] *)
Definition len (v : value) : M nat :=
  match v with
  | VList l => mret (length l)
  | VDict d => mret (length d)
  | VStr s => mret (String.length s)
  | _ => raise TypeError "object has no len()"
  end.

(** The [clone_repos] action. *)
Definition act_clone_repos (c : config) (coe : bool) (shell_kind : value)
    (step_env : gmap string string) (step_ctx : gmap string value) (cr : value) : M unit :=
  dest_unix ← dyn_get cr "dest_unix" VNone;
  dest_windows ← dyn_get cr "dest_windows" VNone;
  cr_org ← dyn_get cr "default_org" VNone;
  let default_org := or_else cr_org (get (inputs c) "DEFAULT_ORG") in
  repos ← dyn_get cr "repos" empty_list;
  let dest := if String.eqb (os_key c) "windows" then dest_windows else dest_unix in
  if negb (truthy dest) then
    raise SystemExit "clone_repos must specify dest_unix or dest_windows"
  else
    dest_s ← match dest with
             | VStr s => of_fuel (Interp.interpolate_string fuel s step_ctx)
             | _ => raise TypeError "expected string or bytes-like object"
             end;
    st ← get_state;
    let dest_path := resolve W (fs st) (expanduser W (environ st) dest_s) in
    if dry_run c then
      n ← len repos;
      print ("DRY-RUN clone_repos -> " ++ dest_path ++ " (" ++ str_of_Z (Z.of_nat n) ++ " repos)")
    else
      entries ← iter repos;
      for_each entries (clone_entry coe shell_kind step_env dest_path default_org).

(** One round of the last loop, over the run-items. *)
Definition run_item (coe : bool) (shell_kind : value) (cwd : option value)
    (step_env : gmap string string) (itm : value) : M unit :=
  try_except
    (safe_run_command W itm shell_kind cwd (Some step_env))
    (on_process_error (fun e =>
       print ("[ERROR] run item failed: " ++ msg e);;
       if coe then print "continue_on_error=true -> continuing"
       else reraise e)).

(** The [run] action. *)
Definition act_run (c : config) (coe : bool) (shell_kind : value) (cwd : option value)
    (step_env : gmap string string) (run_items : option value) : M unit :=
  match run_items with
  | None | Some VNone => print "No-op step"
  | Some (VList items) =>
      if dry_run c then for_each items (fun itm => print ("DRY-RUN run -> " ++ str itm))
      else for_each items (run_item coe shell_kind cwd step_env)
  | Some _ => raise SystemExit "run must be a list"
  end.

(** The loop body after [deep_interpolate], from [name = ...] on. *)
Definition exec_step (c : config) (idx : nat) (step_ctx : gmap string value)
    (step : value) : M unit :=
  match step with
  | VDict d =>
      let name := or_else (get d "name") (VStr ("step-" ++ str_of_Z (Z.of_nat idx))) in
      let when := get d "when" in
      go ← guard_passes when step_ctx;
      if (go : bool) then
        print (newline ++ "--- [" ++ str name ++ "] ---");;
        let shell_kind := or_else (get d "shell") (default_shell c) in
        let workdir := get d "workdir" in
        let cwd := if truthy workdir then Some workdir else None in
        let continue_on_error := truthy (get_or d "continue_on_error" (VBool false)) in
        step_env ← merge_envs (merged_env c) [or_else (get_or d "env" empty_dict) empty_dict];
        match assoc "write_file" d with
        | Some wf => act_write_file c wf
        | None =>
            match assoc "clone_repos" d with
            | Some cr => act_clone_repos c continue_on_error shell_kind step_env step_ctx cr
            | None => act_run c continue_on_error shell_kind cwd step_env (assoc "run" d)
            end
        end
      else mret tt
  | _ => raise AttributeError "object has no attribute 'get'"
  end.

(** The loop body. *)
Definition run_step (c : config) (idx : nat) (raw_step : value) : M unit :=
  let step_ctx := step_context (ctx c) (merged_env c) in
  step ← of_fuel (Interp.deep_interpolate fuel raw_step step_ctx);
  exec_step c idx step_ctx step.

(** [for idx, raw_step in enumerate(steps, start=idx)] *)
Definition run_steps (c : config) (idx : nat) (steps : list value) : M unit :=
  for_enumerate idx steps (run_step c).

(** [{**inputs, **overrides}] *)
Definition build_ctx (inputs_v : value) (overrides : gmap string string)
    : M (list (string * value) * gmap string value) :=
  match inputs_v with
  | VDict d => mret (d, (VStr <$> overrides) ∪ of_items d)
  | _ => raise TypeError "object is not a mapping"
  end.

(** The dict comprehension that interpolates the merged environment. *)
Definition interpolate_env (ctx : gmap string value) (merged_env : gmap string string)
    : M (gmap string string) :=
  let c := step_context ctx merged_env in
  of_fuel
    (list_to_map <$>
       mapM (fun kv => pair (fst kv) <$> Interp.interpolate_string fuel (snd kv) c)
            (map_to_list merged_env)).

(** [run_spec] from the parsed document up to its loop: the
    configuration the loop reads and the list of steps. *)
Definition prepare (spec : value) (dry : bool) (overrides_list : list string)
    : M (config * list value) :=
  st ← get_state;
  (let home_override := default "" (environ st !! "FORGE_HOME") in
   if negb (String.eqb home_override "") then
     set_environ "HOME" home_override;; set_environ "USERPROFILE" home_override
   else mret tt);;
  st ← get_state;
  let os_override := default "" (environ st !! "FORGE_OS") in
  key ← (if negb (String.eqb os_override "") then mret os_override
         else detect_os W);
  inputs_v ← dyn_get spec "inputs" empty_dict;
  let overrides := parse_overrides overrides_list in
  '(inputs_d, ctx0) ← build_ctx (or_else inputs_v empty_dict) overrides;
  let ctx1 := <["OS" := VStr key]> ctx0 in
  st ← get_state;
  let proc_env := environ st in
  env_global ← dyn_get spec "env" empty_dict;
  os_v ← dyn_get spec "os" empty_dict;
  os_entry ← dyn_get (or_else os_v empty_dict) key empty_dict;
  env_os ← dyn_get os_entry "env" empty_dict;
  merged ← merge_envs proc_env [or_else env_global empty_dict; or_else env_os empty_dict];
  merged' ← interpolate_env ctx1 merged;
  common_v ← dyn_get spec "common" empty_dict;
  common_steps ← dyn_get (or_else common_v empty_dict) "steps" empty_list;
  os_steps ← dyn_get (or_else os_entry empty_dict) "steps" empty_list;
  steps ← concat_steps (or_else common_steps empty_list) (or_else os_steps empty_list);
  mret (Config dry key inputs_d ctx1 merged', steps).

(** [run_spec] from the parsed document on. *)
Definition run_loaded (spec : value) (dry : bool) (overrides_list : list string) : M unit :=
  '(c, steps) ← prepare spec dry overrides_list;
  run_steps c 1 steps;;
  print (newline ++ "All steps complete.").

(** [run_spec] *)
Definition run_spec (spec_path : string) (dry : bool) (overrides_list : list string)
    : M unit :=
  st ← get_state;
  match files (fs st) !! spec_path with
  | None =>
      if bool_decide (spec_path ∈ dirs (fs st))
      then raise OSError "is a directory"
      else raise SystemExit ("spec file not found: " ++ spec_path)
  | Some text =>
      if permits W (fs st) ReadFile spec_path then
        spec ← (fun st => (yaml_load W (universal_newlines text), st));
        run_loaded spec dry overrides_list
      else raise PermissionError "Permission denied"
  end.

End WithWorld.

(** *** What a step says about itself

    The banner, the shell, the working directory and the error policy of
    a step, and the destination and the default organisation of a
    [clone_repos] block. *)

Definition banner (d : list (string * value)) (idx : nat) : string :=
  newline ++ "--- [" ++
  str (or_else (get d "name") (VStr ("step-" ++ str_of_Z (Z.of_nat idx)))) ++ "] ---".

Definition continues (d : list (string * value)) : bool :=
  truthy (get d "continue_on_error").

Definition step_shell (c : config) (d : list (string * value)) : value :=
  or_else (get d "shell") (default_shell c).

Definition step_cwd (d : list (string * value)) : option value :=
  if truthy (get d "workdir") then Some (get d "workdir") else None.

(** The process environment once [FORGE_HOME] is applied. *)
Definition home_applied (env : gmap string string) : gmap string string :=
  let h := default "" (env !! "FORGE_HOME") in
  if negb (String.eqb h "") then <["USERPROFILE" := h]> (<["HOME" := h]> env) else env.

Definition clone_dest (c : config) (crd : list (string * value)) : value :=
  if String.eqb (os_key c) "windows" then get crd "dest_windows" else get crd "dest_unix".

Definition clone_org (c : config) (crd : list (string * value)) : value :=
  or_else (get crd "default_org") (get (inputs c) "DEFAULT_ORG").

(** The exit status of the interpreter. *)
Definition exit_status {A} (r : result A) : option Z :=
  match r with
  | Ok _ => Some 0%Z
  | Raise _ => Some 1%Z
  | Diverge => None
  end.

End Runner.

(* ===================================================================== *)
(** ** A POSIX-like platform for the examples *)

Module Posix.
Import Py Eff Platform Hooks.

(** [~] and [~/rest] become [$HOME] and [$HOME/rest]. *)
Definition expanduser (env : gmap string string) (p : string) : string :=
  match p with
  | String "~" EmptyString => default "/" (env !! "HOME")
  | String "~" (String "/" rest) => default "" (env !! "HOME") ++ "/" ++ rest
  | _ => p
  end.

(** The proper ancestors of an absolute path, farthest first. *)
Fixpoint ancestors (seen rest : string) : list string :=
  match rest with
  | EmptyString => []
  | String c rest' =>
      if Ascii.eqb c "/" then
        (if String.eqb seen "" then "/" else seen) :: ancestors (seen ++ "/") rest'
      else ancestors (seen ++ String c "") rest'
  end.

Definition parents (p : string) : list string :=
  if String.eqb p "/" then [] else rev (ancestors "" p).

Fixpoint last_dot (s : string) (i : nat) (found : option nat) : option nat :=
  match s with
  | EmptyString => found
  | String c s' => last_dot s' (S i) (if Ascii.eqb c "." then Some i else found)
  end.

Definition stem (name : string) : string :=
  match last_dot name 0 None with
  | Some i => if Nat.ltb 0 i && Nat.ltb i (String.length name - 1) then Str.take i name else name
  | None => name
  end.

(** A child process fails exactly when the last word of its argument
    vector is [false]; a successful [git clone] leaves its target
    directory. *)
Definition spawn (argv : list string) (cwd : option value)
    (env : option (gmap string string)) (st : state) : option exn * fsys :=
  if String.eqb (List.last argv "") "false" then
    (Some (Exn CalledProcessError "Command returned non-zero exit status 1."), fs st)
  else
    match argv with
    | ["git"; "clone"; _; dest] =>
        (None, Fs (files (fs st)) (dirs (fs st) ∪ {[dest]}) (modes (fs st)))
    | _ => (None, fs st)
    end.

(** The platform, given what [yaml.safe_load] makes of each text. *)
(** Whether the owner bit [bit] is set in the mode of [p]; a path whose
    mode was never set has the default mode, which lets its owner in. *)
Definition owner_bit (f : fsys) (p : string) (bit : Z) : bool :=
  match modes f !! p with
  | Some m => Z.testbit m bit
  | None => true
  end.

Definition parent (p : string) : string := hd p (parents p).

(** Reading asks for the read bit of the file, writing for the write bit
    of the file when it is there, and creating for the write bit of the
    directory above. *)
Definition permits (f : fsys) (a : access) (p : string) : bool :=
  match a with
  | ReadFile => owner_bit f p 8
  | WriteFile =>
      if bool_decide (is_Some (files f !! p)) then owner_bit f p 7
      else owner_bit f (parent p) 7
  | MakeDir => owner_bit f (parent p) 7
  end.

(** The platform, given what [yaml.safe_load] makes of each text: an
    Ubuntu with [distro] installed. *)
Definition world_of (load : string -> result value) : world := {|
  system := "Linux";
  executable := "/usr/bin/python3";
  import_distro := fun _ => None;
  distro_id := fun _ => "ubuntu";
  distro_like := fun _ => "debian";
  yaml_load := load;
  Platform.expanduser := expanduser;
  resolve := fun _ p => p;
  joinpath := fun a b => a ++ "/" ++ b;
  Platform.parents := parents;
  Platform.stem := stem;
  Platform.spawn := spawn;
  chmod_fails := fun _ _ => false;
  Platform.permits := permits;
  linesep := newline
|}.

Definition W : world := world_of (fun _ => Raise (Exn ValueError "no document")).

Definition home : string := "/home/dev".

Definition start (ds : list string) (os : string) : state :=
  St (Fs ∅ (list_to_set ds) ∅)
     (<["FORGE_OS" := os]> (<["FORGE_HOME" := home]> ∅))
     [].

End Posix.


(* ===================================================================== *)
(** ** Scenarios *)

Module Scenario.
Import Py Eff Platform Hooks Runner.

(** A configuration as [run_spec] builds it on Ubuntu from a document
    without inputs and an empty process environment. *)
Definition cfg : config :=
  Config false "ubuntu" [] (<["OS" := VStr "ubuntu"]> ∅) ∅.

Definition st0 : state := St (Fs ∅ ∅ ∅) ∅ [].

(** A step whose guard is not a comparison. *)
Definition step_bad_guard : value :=
  VDict [("name", VStr "guarded"); ("when", VStr "OS is ubuntu");
         ("run", VList [VStr "echo hi"])].

(** A step whose guard names a variable that is not set. *)
Definition step_empty_guard : value :=
  VDict [("name", VStr "guarded"); ("when", VStr "{{FLAG}}");
         ("run", VList [VStr "echo hi"])].

(** The argument vectors spawned along a trace, in order. *)
Fixpoint spawned_commands (t : list event) : list (list string) :=
  match t with
  | [] => []
  | Spawn argv _ _ :: t' => argv :: spawned_commands t'
  | Print _ :: t' => spawned_commands t'
  end.

(** The lines printed along a trace, in order. *)
Fixpoint printed_lines (t : list event) : list string :=
  match t with
  | [] => []
  | Print text :: t' => text :: printed_lines t'
  | Spawn _ _ _ :: t' => printed_lines t'
  end.

Definition run_step_named (name cmd : string) : value :=
  VDict [("name", VStr name); ("run", VList [VStr cmd])].

(** Two common steps and two Ubuntu steps. *)
Definition spec_order : value :=
  VDict [("common", VDict [("steps", VList [run_step_named "Common step 1" "echo common1";
                                            run_step_named "Common step 2" "echo common2"])]);
         ("os", VDict [("ubuntu",
            VDict [("steps", VList [run_step_named "Ubuntu step 1" "echo ubuntu1";
                                    run_step_named "Ubuntu step 2" "echo ubuntu2"])])])].

(** A document whose workspace root is [~/dev/workspace]. *)
Definition spec_workspace : value :=
  VDict [("inputs", VDict [("WORKSPACE_ROOT", VStr "~/dev/workspace")]);
         ("common", VDict [("steps", VList [run_step_named "Dummy step" "echo should-not-run"])])].

Definition load_workspace (text : string) : result value :=
  if String.eqb text "workspace spec" then Ok spec_workspace
  else Raise (Exn ValueError "no document").

(** The spec file is in place and the workspace directory exists already. *)
Definition st_workspace : state :=
  St (Fs (<["/tmp/spec.yaml" := "workspace spec"]> ∅)
         (list_to_set ["/home/dev/dev/workspace"; "/home/dev/dev"; "/home/dev"; "/home"; "/";
                       "/tmp"])
         ∅)
     (<["FORGE_OS" := "ubuntu"]> (<["FORGE_HOME" := Posix.home]> ∅))
     [].

(** A context whose value for [A] is a token for [A] again. *)
Definition ctx_self : gmap string value := <["A" := VStr "{{A}}"]> ∅.

(** A context with plain values. *)
Definition ctx_plain : gmap string value :=
  <["FOO" := VStr "a"]> (<["K" := VStr "A"]> (<["A" := VStr "x"]> (<["N" := VInt 5]> ∅))).

(** A dollar token between two braces. *)
Definition nested_token : string := "{{${K}}}".

(** A template with a literal, both kinds of token and a missing name. *)
Definition template : list Interp.piece :=
  [Interp.Lit "id="; Interp.Braces " " "FOO" ""; Interp.Lit "/"; Interp.Dollar "K";
   Interp.Lit "/"; Interp.Braces "" "MISSING" " "; Interp.Lit "."].

(** A step as the document gives it. *)
Definition raw_step : value :=
  VDict [("name", VStr "say {{FOO}}"); ("retries", VInt 3);
         ("run", VList [VStr "echo ${K}"; VDict [("argv", VList [VStr "echo"; VStr "{{N}}"])]])].

(** The document of the repository's interpolation test: an input, an
    environment entry built from it, one argv step. *)
Definition spec_env : value :=
  VDict [("inputs", VDict [("FOO", VStr "from-input"); ("BAR", VStr "bar")]);
         ("env", VDict [("COMBINED", VStr "{{FOO}}-{{BAR}}")]);
         ("common", VDict [("steps", VList [
            VDict [("name", VStr "Run argv using env");
                   ("run", VList [VDict [("argv", VList [VStr "printenv"; VStr "COMBINED"])]])]])])].

(** The environment handed to the first spawned process. *)
Definition first_env (t : list event) : option (gmap string string) :=
  match filter (fun e => negb (is_print e)) t with
  | Spawn _ _ env :: _ => env
  | _ => None
  end.

(** The document of the repository's guard tests. *)
Definition spec_when : value :=
  VDict [("inputs", VDict [("SESSION_NAME", VStr "test")]);
         ("common", VDict [("steps", VList [
            VDict [("name", VStr "Linux only"); ("when", VStr "OS!=windows");
                   ("run", VList [VStr "echo linux"])];
            VDict [("name", VStr "Windows only"); ("when", VStr "OS==windows");
                   ("run", VList [VStr "echo windows"])]])])].

(** The document of the repository's write test. *)
Definition spec_write : value :=
  VDict [("inputs", VDict [("FILENAME", VStr "~/.config/test_file.txt")]);
         ("common", VDict [("steps", VList [
            VDict [("name", VStr "Initial write");
                   ("write_file", VDict [("path", VStr "{{FILENAME}}"); ("mode", VStr "0600");
                                         ("content", VStr "line1")])];
            VDict [("name", VStr "Append write");
                   ("write_file", VDict [("path", VStr "{{FILENAME}}"); ("append", VBool true);
                                         ("content", VStr (newline ++ "line2"))])]])])].

(** The document of the repository's clone test. *)
Definition spec_clone : value :=
  VDict [("inputs", VDict [("WORKSPACE_ROOT", VStr "~/workspace"); ("DEFAULT_ORG", VStr "my-org")]);
         ("common", VDict [("steps", VList [
            VDict [("name", VStr "Clone repos");
                   ("clone_repos", VDict [
                      ("dest_unix", VStr "{{WORKSPACE_ROOT}}");
                      ("dest_windows", VStr "C:\unused");
                      ("default_org", VStr "{{DEFAULT_ORG}}");
                      ("repos", VList [
                         VDict [("name", VStr "service-a")];
                         VDict [("name", VStr "custom-org-repo"); ("org", VStr "custom-org")];
                         VDict [("url", VStr "https://github.com/someone/explicit.git");
                                ("post_install",
                                 VList [VDict [("argv", VList [VStr "echo"; VStr "post-argv"])];
                                        VStr "echo post-shell"])]])])]])])].

(** A step with a failing first item. *)
Definition failing_items : list value := [VStr "false"; VStr "echo x"].

(** A step that writes a file and also lists a command. *)
Definition wf_block : value :=
  VDict [("path", VStr "/srv/notes/log.txt"); ("content", VStr "entry")].

Definition step_write_and_run : list (string * value) :=
  [("write_file", wf_block); ("run", VList [VStr "echo hi"])].

Definition step_write_only : list (string * value) :=
  [("write_file", wf_block)].

(** A step whose first command fails, without and with
    [continue_on_error], and a step to come after it. *)
Definition step_failing : list (string * value) :=
  [("name", VStr "build"); ("run", VList [VStr "false"; VStr "echo x"])].

Definition step_failing_on : list (string * value) :=
  [("name", VStr "build"); ("continue_on_error", VBool true);
   ("run", VList [VStr "false"; VStr "echo x"])].

Definition step_next : value := run_step_named "next" "echo next".

(** A file with a Windows line ending in it. *)
Definition crlf_text : string := "a" ++ String CR (String LF "b").

Definition st_crlf : state :=
  St (Fs (<["/srv/a.txt" := crlf_text]> ∅) (list_to_set ["/srv"; "/"]) ∅) ∅ [].

(** A directory its owner may not write to (mode 0555). *)
Definition st_readonly : state :=
  St (Fs ∅ (list_to_set ["/srv/ro"; "/srv"; "/"]) (<["/srv/ro" := 365%Z]> ∅)) ∅ [].

(** A step that clones a repository and also lists a command. *)
Definition step_clone_and_run : list (string * value) :=
  [("name", VStr "fetch");
   ("clone_repos", VDict [("dest_unix", VStr "/srv/ws");
                          ("repos", VList [VDict [("name", VStr "acme/svc")]])]);
   ("run", VList [VStr "echo hi"])].

(** The configuration [cfg] in dry-run mode. *)
Definition cfg_dry : config :=
  Config true "ubuntu" [] (<["OS" := VStr "ubuntu"]> ∅) ∅.

(** Steps of each kind. *)
Definition mixed_steps : list value :=
  [VDict step_write_and_run;
   VDict [("clone_repos", VDict [("dest_unix", VStr "/srv/ws");
                                 ("repos", VList [VDict [("name", VStr "acme/svc")]])])];
   VDict [("run", VList [VStr "rm -rf /srv/ws"])]].

End Scenario.

(* ===================================================================== *)
(** ** Facts about the effect monad *)

Module EffFacts.
Import Py Eff.

Lemma bind_Ok {A B} (m : M A) (f : A -> M B) st a st' :
  m st = (Ok a, st') -> (m ≫= f) st = f a st'.
Proof. intros H. unfold mbind, eff_bind, bind. now rewrite H. Qed.

Lemma bind_Raise {A B} (m : M A) (f : A -> M B) st e st' :
  m st = (Raise e, st') -> (m ≫= f) st = (Raise e, st').
Proof. intros H. unfold mbind, eff_bind, bind. now rewrite H. Qed.

Lemma bind_Diverge {A B} (m : M A) (f : A -> M B) st st' :
  m st = (Diverge, st') -> (m ≫= f) st = (Diverge, st').
Proof. intros H. unfold mbind, eff_bind, bind. now rewrite H. Qed.

Lemma bind_get_state {B} (f : state -> M B) st : (get_state ≫= f) st = f st st.
Proof. reflexivity. Qed.

Lemma try_except_Raise {A} (m : M A) h st e st1 k :
  m st = (Raise e, st1) -> h e = Some k -> try_except m h st = k st1.
Proof. intros Hm Hh. unfold try_except. now rewrite Hm, Hh. Qed.

Lemma print_printed text st : print text st = (Ok tt, printed st text).
Proof. reflexivity. Qed.

Lemma for_each_cons {A} (x : A) l body st :
  for_each (x :: l) body st = (body x ≫= fun _ => for_each l body) st.
Proof. reflexivity. Qed.

Lemma bind_Ok_inv {A B} (m : M A) (f : A -> M B) st b st' :
  (m ≫= f) st = (Ok b, st') ->
  exists a st1, m st = (Ok a, st1) /\ f a st1 = (Ok b, st').
Proof.
  unfold mbind, eff_bind, bind. destruct (m st) as [[a|e|] st1]; try discriminate.
  intros H. eauto.
Qed.

Lemma bind_assoc {A B C} (m : M A) (f : A -> M B) (g : B -> M C) st :
  ((m ≫= f) ≫= g) st = (m ≫= fun a => f a ≫= g) st.
Proof.
  unfold mbind, eff_bind, bind. destruct (m st) as [[a|e|] st1]; reflexivity.
Qed.

Lemma for_enumerate_app {A} (body : nat -> A -> M unit) l1 l2 idx st :
  for_enumerate idx (l1 ++ l2) body st
    = (for_enumerate idx l1 body ≫= fun _ => for_enumerate (idx + length l1) l2 body) st.
Proof.
  revert idx st. induction l1 as [|x l1 IH]; intros idx st; cbn [for_enumerate app length].
  - now rewrite Nat.add_0_r.
  - unfold mbind, eff_bind, bind in *.
    destruct (body idx x st) as [[[]|e|] st1]; try reflexivity.
    rewrite IH. now rewrite Nat.add_succ_comm.
Qed.

Lemma truthy_str (w : string) : w <> "" -> truthy (VStr w) = true.
Proof. destruct w; [congruence | reflexivity]. Qed.

Lemma prints_only_silent {A} (m : M A) :
  (forall st, trace (snd (m st)) = trace st) -> prints_only m.
Proof. intros H st. exists []. rewrite H, app_nil_r. auto. Qed.

Lemma prints_only_bind {A B} (m : M A) (f : A -> M B) :
  prints_only m -> (forall a, prints_only (f a)) -> prints_only (m ≫= f).
Proof.
  intros Hm Hf st. unfold mbind, eff_bind, bind.
  destruct (Hm st) as (o1 & E1 & F1).
  destruct (m st) as [[a|e|] st1]; cbn in *; try (exists o1; now split).
  destruct (Hf a st1) as (o2 & E2 & F2).
  exists (o1 ++ o2)%list. rewrite E2, E1, app_assoc. split; [reflexivity|].
  apply Forall_app; auto.
Qed.

Lemma prints_only_try {A} (m : M A) (h : exn -> option (M A)) :
  prints_only m -> (forall e k, h e = Some k -> prints_only k) ->
  prints_only (try_except m h).
Proof.
  intros Hm Hh st. unfold try_except.
  destruct (Hm st) as (o1 & E1 & F1).
  destruct (m st) as [[a|e|] st1]; cbn in *; try (exists o1; now split).
  destruct (h e) as [k|] eqn:Hk; [|exists o1; now split].
  destruct (Hh e k Hk st1) as (o2 & E2 & F2).
  exists (o1 ++ o2)%list. rewrite E2, E1, app_assoc. split; [reflexivity|].
  apply Forall_app; auto.
Qed.

Lemma prints_only_print (text : string) : prints_only (print text).
Proof. intros st. exists [Print text]. split; [reflexivity | repeat constructor]. Qed.

Lemma prints_only_ret {A} (a : A) : prints_only (mret a).
Proof. now apply prints_only_silent. Qed.

Lemma prints_only_raise {A} c text : prints_only (@raise A c text).
Proof. now apply prints_only_silent. Qed.

Lemma prints_only_reraise {A} e : prints_only (@reraise A e).
Proof. now apply prints_only_silent. Qed.

Lemma prints_only_get_state : prints_only get_state.
Proof. now apply prints_only_silent. Qed.

Lemma prints_only_set_fs f : prints_only (set_fs f).
Proof. now apply prints_only_silent. Qed.

Lemma prints_only_of_fuel {A} (o : option A) : prints_only (of_fuel o).
Proof. apply prints_only_silent. intros st. now destruct o. Qed.

Create HintDb prints.

#[export] Hint Resolve prints_only_print prints_only_ret prints_only_raise
  prints_only_reraise prints_only_get_state prints_only_set_fs prints_only_of_fuel
  : prints.

Ltac prints :=
  repeat lazymatch goal with
    | |- prints_only (mbind _ _) => apply prints_only_bind; [|intros ?]
    | |- prints_only (try_except _ _) => apply prints_only_try; [|intros ? ? ?]
    | |- prints_only (if ?b then _ else _) => destruct b
    | |- prints_only (match ?x with _ => _ end) => destruct x
    | |- prints_only _ => solve [auto with prints]
    end.

End EffFacts.

(* ===================================================================== *)
(** ** Facts about strings and the matcher *)

Module StrFacts.

#[local] Arguments String.append : simpl nomatch.

Lemma app_assoc (a b c : string) : (a ++ b) ++ c = a ++ (b ++ c).
Proof. induction a as [|x a IH]; simpl; [reflexivity | now rewrite IH]. Qed.

Lemma app_nil_r (a : string) : a ++ "" = a.
Proof. induction a as [|x a IH]; simpl; [reflexivity | now rewrite IH]. Qed.

Lemma length_app (a b : string) :
  String.length (a ++ b) = String.length a + String.length b.
Proof. induction a as [|x a IH]; simpl; [reflexivity | now rewrite IH]. Qed.

Lemma count_app p (a b : string) : Str.count p (a ++ b) = Str.count p a + Str.count p b.
Proof. induction a as [|x a IH]; simpl; [reflexivity | rewrite IH; lia]. Qed.

Lemma count_le_length p (a : string) : Str.count p a <= String.length a.
Proof. induction a as [|x a IH]; simpl; [lia | destruct (p x); lia]. Qed.

Lemma take_app_length (a b : string) :
  Str.take (String.length (a ++ b) - String.length b) (a ++ b) = a.
Proof.
  rewrite length_app. replace (_ + _ - _) with (String.length a) by lia.
  induction a as [|x a IH]; simpl; [now destruct b | now rewrite IH].
Qed.

End StrFacts.

Module ReFacts.
Import StrFacts.

#[local] Arguments String.append : simpl nomatch.

Lemma skip_spec (w s s' : string) : Re.skip w s = Some s' -> s = w ++ s'.
Proof.
  revert s. induction w as [|a w IH]; intros s; cbn.
  - now intros [= ->].
  - destruct s as [|c s]; [discriminate|].
    destruct (Ascii.eqb_spec a c) as [->|]; [|discriminate].
    intros H. now rewrite (IH _ H).
Qed.

Lemma skip_app (w s : string) : Re.skip w (w ++ s) = Some s.
Proof. induction w as [|a w IH]; cbn; [reflexivity | now rewrite Ascii.eqb_refl]. Qed.

Section Suffix.
Context {R : Type}.

Lemma star_greedy_suffix p s (k : string -> option R) x :
  Re.star_greedy p s k = Some x -> exists mid s', s = mid ++ s' /\ k s' = Some x.
Proof.
  induction s as [|c s IH]; cbn.
  - intros H. now exists "", "".
  - destruct (p c).
    + destruct (Re.star_greedy p s k) as [r|] eqn:E.
      * intros [= ->]. destruct (IH eq_refl) as (mid & s' & -> & Hk).
        now exists (String c mid), s'.
      * intros H. now exists "", (String c s).
    + intros H. now exists "", (String c s).
Qed.

Lemma plus_lazy_suffix p s (k : string -> option R) x :
  Re.plus_lazy p s k = Some x -> exists mid s', s = mid ++ s' /\ k s' = Some x.
Proof.
  induction s as [|c s IH]; cbn; [discriminate|].
  destruct (p c); [|discriminate].
  destruct (k s) as [r|] eqn:E.
  - intros [= ->]. now exists (String c ""), s.
  - intros H. destruct (IH H) as (mid & s' & -> & Hk). now exists (String c mid), s'.
Qed.

(** Whatever an expression matches, the continuation runs on a suffix. *)
Lemma run_suffix r : forall s caps (k : string -> list string -> option R) x,
  Re.run r s caps k = Some x ->
  exists mid s' caps', s = mid ++ s' /\ k s' caps' = Some x.
Proof.
  induction r as [w | p | p | p | r1 IH1 r2 IH2 | r1 IH1 r2 IH2 | r1 IH1 |];
    intros s caps k x; cbn.
  - destruct (Re.skip w s) as [s'|] eqn:E; [|discriminate].
    intros H. apply skip_spec in E. eauto.
  - destruct s as [|c s]; [discriminate|]. destruct (p c); [|discriminate].
    intros H. exists (String c ""), s, caps. auto.
  - intros H. apply star_greedy_suffix in H as (mid & s' & -> & H). eauto.
  - intros H. apply plus_lazy_suffix in H as (mid & s' & -> & H). eauto.
  - intros H. apply IH1 in H as (m1 & s1 & c1 & -> & H).
    apply IH2 in H as (m2 & s2 & c2 & -> & H).
    exists (m1 ++ m2), s2, c2. now rewrite app_assoc.
  - destruct (Re.run r1 s caps k) as [y|] eqn:E.
    + intros [= ->]. eauto.
    + intros H. eauto.
  - intros H. apply IH1 in H as (m1 & s1 & c1 & -> & H). eauto.
  - destruct (Re.at_eol s); [|discriminate]. intros H. exists "", s, caps. auto.
Qed.
End Suffix.

Lemma match_here_suffix r s caps rest :
  Re.match_here r s = Some (caps, rest) -> exists mid, s = mid ++ rest.
Proof.
  unfold Re.match_here. intros H.
  apply run_suffix in H as (mid & s' & c' & -> & [= _ ->]). eauto.
Qed.

(** A pattern that starts with the literal [w] only matches texts that
    start with [w]. *)
Lemma match_here_lit w r s caps rest :
  Re.match_here (Re.Seq (Re.Lit w) r) s = Some (caps, rest) ->
  exists mid, s = w ++ mid ++ rest.
Proof.
  unfold Re.match_here. cbn. destruct (Re.skip w s) as [s1|] eqn:E; [|discriminate].
  intros H. apply skip_spec in E as ->.
  apply run_suffix in H as (mid & s' & c' & -> & [= _ ->]). eauto.
Qed.

Lemma search_split r s pre caps rest :
  Re.search r s = Some (pre, caps, rest) ->
  exists tail, s = pre ++ tail /\ Re.match_here r tail = Some (caps, rest).
Proof.
  revert pre. induction s as [|c s IH]; intros pre; cbn.
  - destruct (Re.match_here r "") as [[cs rs]|] eqn:E; [|discriminate].
    intros [= <- <- <-]. now exists "".
  - destruct (Re.match_here r (String c s)) as [[cs rs]|] eqn:E.
    + intros [= <- <- <-]. now exists (String c s).
    + destruct (Re.search r s) as [[[p cs] rs]|]; [|discriminate].
      intros [= <- <- <-]. destruct (IH _ eq_refl) as (tail & -> & Hm).
      now exists tail.
Qed.

End ReFacts.

Module InterpFacts.
Import Py Interp StrFacts ReFacts.

#[local] Arguments String.append : simpl nomatch.

Lemma takes_brace_braces : takes_brace pat_braces.
Proof.
  intros s caps rest H. apply match_here_lit in H as (mid & ->).
  exists ("{{" ++ mid). split; [now rewrite app_assoc|]. cbn. lia.
Qed.

Lemma takes_brace_dollar : takes_brace pat_dollar.
Proof.
  intros s caps rest H. apply match_here_lit in H as (mid & ->).
  exists ("${" ++ mid). split; [now rewrite app_assoc|]. cbn. lia.
Qed.

Lemma ctx_str_braces ctx key : brace_free ctx -> braces (ctx_str ctx key) = 0.
Proof.
  intros H. unfold ctx_str. destruct (ctx !! key) as [v|] eqn:E; [|reflexivity].
  exact (H key v E).
Qed.

(** Each round of the loop removes an opening brace, so the loop stops. *)
Lemma subst_loop_stops pat ctx :
  takes_brace pat -> brace_free ctx ->
  forall fuel s, braces s < fuel ->
    exists out, subst_loop fuel pat ctx s = Some out
                /\ braces out <= braces s
                /\ Re.search pat out = None.
Proof.
  intros Hpat Hctx. induction fuel as [|fuel IH]; intros s Hlt; [lia|]. cbn.
  destruct (Re.search pat s) as [[[pre caps] rest]|] eqn:E.
  - apply search_split in E as (tail & -> & Hm).
    apply Hpat in Hm as (mid & -> & Hmid).
    unfold braces in *. rewrite !count_app in Hlt.
    destruct (IH (pre ++ ctx_str ctx (group1 caps) ++ rest)) as (out & Ho & Hb & Hn).
    { rewrite !count_app. fold (braces (ctx_str ctx (group1 caps))).
      rewrite (ctx_str_braces _ _ Hctx). lia. }
    exists out. split; [exact Ho|]. split; [|exact Hn].
    rewrite !count_app in *. fold (braces (ctx_str ctx (group1 caps))) in Hb.
    rewrite (ctx_str_braces _ _ Hctx) in Hb. lia.
  - exists s. auto.
Qed.

Lemma subst_loop_fixed fuel pat ctx : forall s out,
  subst_loop fuel pat ctx s = Some out -> Re.search pat out = None.
Proof.
  induction fuel as [|fuel IH]; intros s out; cbn; [discriminate|].
  destruct (Re.search pat s) as [[[pre caps] rest]|] eqn:E.
  - apply IH.
  - now intros [= <-].
Qed.

Lemma interpolate_string_stops ctx s fuel :
  brace_free ctx ->
  String.length s < fuel ->
  exists out, interpolate_string fuel s ctx = Some out /\ braces out <= braces s.
Proof.
  intros Hctx Hfuel.
  assert (Hb : braces s < fuel)
    by (pose proof (count_le_length is_lbrace s); unfold braces; lia).
  unfold interpolate_string, VAR_PATTERNS. cbn [subst_all].
  destruct (subst_loop_stops _ _ takes_brace_braces Hctx fuel s Hb) as (o1 & -> & H1 & _).
  destruct (subst_loop_stops _ _ takes_brace_dollar Hctx fuel o1 ltac:(lia))
    as (o2 & -> & H2 & _).
  exists o2. split; [reflexivity | lia].
Qed.

Lemma subst_loop_more_fuel pat ctx : forall fuel extra s out,
  subst_loop fuel pat ctx s = Some out ->
  subst_loop (fuel + extra) pat ctx s = Some out.
Proof.
  induction fuel as [|fuel IH]; intros extra s out; cbn; [discriminate|].
  destruct (Re.search pat s) as [[[pre caps] rest]|]; [apply IH | auto].
Qed.

(** C2, amended.  When no value of the context prints with an opening
    brace, interpolation of [s] returns within [length s + 1] rounds of
    each loop: every replacement removes an opening brace and brings none
    back.  More fuel gives the same result. *)
Theorem interpolation_terminates_brace_free ctx s fuel :
  brace_free ctx ->
  String.length s < fuel ->
  exists out,
    interpolate_string fuel s ctx = Some out
    /\ braces out <= braces s
    /\ forall extra, interpolate_string (fuel + extra) s ctx = Some out.
Proof.
  intros Hctx Hfuel.
  destruct (interpolate_string_stops ctx s fuel Hctx Hfuel) as (out & Hout & Hb).
  exists out. split; [exact Hout|]. split; [exact Hb|].
  intros extra. revert Hout. unfold interpolate_string, VAR_PATTERNS. cbn [subst_all].
  destruct (subst_loop fuel pat_braces ctx s) as [o1|] eqn:E1; [|discriminate].
  destruct (subst_loop fuel pat_dollar ctx o1) as [o2|] eqn:E2; [|discriminate].
  intros [= <-].
  rewrite (subst_loop_more_fuel _ _ _ extra _ _ E1).
  now rewrite (subst_loop_more_fuel _ _ _ extra _ _ E2).
Qed.

Lemma brace_free_plain : brace_free Scenario.ctx_plain.
Proof. apply (bool_decide_eq_true_1 _). vm_compute. reflexivity. Defined.

Lemma interpolation_terminates_brace_free_witness :
  exists out, interpolate_string 30 "{{FOO}}-${K}-{{ N }}-{{X}}" Scenario.ctx_plain = Some out.
Proof.
  destruct (interpolation_terminates_brace_free Scenario.ctx_plain
              "{{FOO}}-${K}-{{ N }}-{{X}}" 30 brace_free_plain) as (out & H & _ & _).
  - cbn. lia.
  - exists out. exact H.
Defined.

(** C2 as stated fails: with [A] bound to a token for [A], no amount of
    fuel lets the interpolation of that token return. *)
Lemma self_reference_never_stops :
  ~ exists fuel out, interpolate_string fuel "{{A}}" Scenario.ctx_self = Some out.
Proof.
  intros (fuel & out & H). unfold interpolate_string, VAR_PATTERNS in H. cbn [subst_all] in H.
  assert (L : subst_loop fuel pat_braces Scenario.ctx_self "{{A}}" = None).
  { clear. induction fuel as [|fuel IH]; [reflexivity|].
    cbn [subst_loop].
    change (Re.search pat_braces "{{A}}") with (Some ("", ["A"], "")).
    exact IH. }
  now rewrite L in H.
Qed.

End InterpFacts.

Module TemplateFacts.
Import Py Interp StrFacts ReFacts InterpFacts.

#[local] Arguments String.append : simpl nomatch.

Lemma forallb_app p (a b : string) :
  Str.forallb p (a ++ b) = Str.forallb p a && Str.forallb p b.
Proof. induction a as [|x a IH]; simpl; [reflexivity | now rewrite IH, andb_assoc]. Qed.

Lemma space_not_ident c : Str.is_space c = true -> Str.is_ident_char c = false.
Proof. destruct c as [[] [] [] [] [] [] [] []]; vm_compute; congruence. Qed.

Lemma ident_start_not_space c : Str.is_ident_start c = true -> Str.is_space c = false.
Proof. destruct c as [[] [] [] [] [] [] [] []]; vm_compute; congruence. Qed.

Lemma ident_start_not_lbrace c : Str.is_ident_start c = true -> is_lbrace c = false.
Proof. destruct c as [[] [] [] [] [] [] [] []]; vm_compute; congruence. Qed.

(** A greedy star that can take a whole run of its class, and whose
    continuation accepts what follows, succeeds with that answer. *)
Lemma star_greedy_all {R} p u w (k : string -> option R) r :
  Str.forallb p u = true -> starts_outside p w = true -> k w = Some r ->
  Re.star_greedy p (u ++ w) k = Some r.
Proof.
  intros Hu Hw Hk. induction u as [|c u IH]; simpl in *.
  - destruct w as [|d w]; simpl in *; [exact Hk|].
    apply negb_true_iff in Hw. now rewrite Hw.
  - apply andb_true_iff in Hu as [-> Hu]. now rewrite (IH Hu).
Qed.

Lemma starts_outside_app p a b :
  starts_outside p a = true -> starts_outside p b = true ->
  starts_outside p (a ++ b) = true.
Proof. destruct a; simpl; auto. Qed.

Lemma spaces_start_outside_ident ws :
  Str.forallb Str.is_space ws = true -> starts_outside Str.is_ident_char ws = true.
Proof.
  destruct ws as [|c ws]; simpl; [reflexivity|].
  intros H. apply andb_true_iff in H as [H _]. now rewrite (space_not_ident c H).
Qed.

(** The identifier group reads a whole name when what follows cannot
    continue it. *)
Lemma ident_group_reads {R} name rest caps (k : string -> list string -> option R) r :
  is_ident name = true ->
  starts_outside Str.is_ident_char rest = true ->
  k rest (caps ++ [name])%list = Some r ->
  Re.run ident_group (name ++ rest) caps k = Some r.
Proof.
  intros Hn Hrest Hk. destruct name as [|c name]; [discriminate|].
  simpl in Hn. apply andb_true_iff in Hn as [Hc Hn].
  unfold ident_group.
  change (String c name ++ rest) with (String c (name ++ rest)).
  cbn [Re.run]. rewrite Hc.
  apply star_greedy_all; [exact Hn | exact Hrest |].
  change (String c (name ++ rest)) with (String c name ++ rest).
  now rewrite take_app_length.
Qed.

Lemma match_braces_token ws1 name ws2 t :
  Str.forallb Str.is_space ws1 = true -> is_ident name = true ->
  Str.forallb Str.is_space ws2 = true ->
  Re.match_here pat_braces ("{{" ++ ws1 ++ name ++ ws2 ++ "}}" ++ t) = Some ([name], t).
Proof.
  intros H1 Hn H2. unfold Re.match_here, pat_braces. cbn [Re.cat Re.run].
  rewrite skip_app.
  apply star_greedy_all; [exact H1 | |].
  { destruct name as [|c name]; [discriminate|]. simpl in Hn |- *.
    apply andb_true_iff in Hn as [Hc _]. now rewrite (ident_start_not_space c Hc). }
  apply ident_group_reads; [exact Hn | |].
  { apply starts_outside_app; [now apply spaces_start_outside_ident | reflexivity]. }
  apply star_greedy_all; [exact H2 | reflexivity |].
  now rewrite skip_app.
Qed.

Lemma match_dollar_token name t :
  is_ident name = true ->
  Re.match_here pat_dollar ("${" ++ name ++ "}" ++ t) = Some ([name], t).
Proof.
  intros Hn. unfold Re.match_here, pat_dollar. cbn [Re.cat Re.run].
  rewrite skip_app.
  apply ident_group_reads; [exact Hn | reflexivity |].
  now rewrite skip_app.
Qed.

(** *** Where the patterns cannot match *)

Lemma search_past_lone_braces u t :
  lone_braces u = true ->
  Re.search pat_braces (u ++ t)
    = match Re.search pat_braces t with
      | Some (pre, caps, rest) => Some (u ++ pre, caps, rest)
      | None => None
      end.
Proof.
  induction u as [|c u IH]; intros Hu.
  - simpl. now destruct (Re.search pat_braces t) as [[[? ?] ?]|].
  - simpl in Hu. apply andb_true_iff in Hu as [Hc Hu].
    change (String c u ++ t) with (String c (u ++ t)). cbn [Re.search].
    assert (Hno : Re.match_here pat_braces (String c (u ++ t)) = None).
    { unfold Re.match_here, pat_braces. cbn [Re.cat Re.run Re.skip].
      unfold is_lbrace in Hc. rewrite (Ascii.eqb_sym "{" c).
      destruct (Ascii.eqb c "{"); [|reflexivity].
      destruct u as [|d u]; [discriminate|].
      change (String d u ++ t) with (String d (u ++ t)). cbn [Re.skip].
      rewrite (Ascii.eqb_sym "{" d). apply negb_true_iff in Hc. now rewrite Hc. }
    rewrite Hno, (IH Hu). now destruct (Re.search pat_braces t) as [[[? ?] ?]|].
Qed.

Lemma search_past_no_dollar u t :
  no_dollar u = true ->
  Re.search pat_dollar (u ++ t)
    = match Re.search pat_dollar t with
      | Some (pre, caps, rest) => Some (u ++ pre, caps, rest)
      | None => None
      end.
Proof.
  induction u as [|c u IH]; intros Hu.
  - simpl. now destruct (Re.search pat_dollar t) as [[[? ?] ?]|].
  - simpl in Hu. apply andb_true_iff in Hu as [Hc Hu].
    change (String c u ++ t) with (String c (u ++ t)). cbn [Re.search].
    assert (Hno : Re.match_here pat_dollar (String c (u ++ t)) = None).
    { unfold Re.match_here, pat_dollar. cbn [Re.cat Re.run Re.skip].
      unfold is_dollar in Hc. rewrite (Ascii.eqb_sym "$" c).
      apply negb_true_iff in Hc. now rewrite Hc. }
    rewrite Hno, (IH Hu). now destruct (Re.search pat_dollar t) as [[[? ?] ?]|].
Qed.

Lemma search_braces_none u : lone_braces u = true -> Re.search pat_braces u = None.
Proof.
  intros Hu. rewrite <- (app_nil_r u), (search_past_lone_braces u "" Hu). reflexivity.
Qed.

Lemma search_dollar_none u : no_dollar u = true -> Re.search pat_dollar u = None.
Proof.
  intros Hu. rewrite <- (app_nil_r u), (search_past_no_dollar u "" Hu). reflexivity.
Qed.

Lemma plain_app a b : plain (a ++ b) = plain a && plain b.
Proof. apply forallb_app. Qed.

Lemma plain_no_dollar s : plain s = true -> no_dollar s = true.
Proof.
  unfold plain, no_dollar. induction s as [|c s IH]; simpl; [reflexivity|].
  intros H. apply andb_true_iff in H as [Hc Hs]. rewrite (IH Hs), andb_true_r.
  apply negb_true_iff, orb_false_iff in Hc as [_ ->]. reflexivity.
Qed.

Lemma no_lbrace_lone s :
  Str.forallb (fun c => negb (is_lbrace c)) s = true -> lone_braces s = true.
Proof.
  induction s as [|c s IH]; simpl; [reflexivity|].
  intros H. apply andb_true_iff in H as [Hc Hs]. rewrite (IH Hs), andb_true_r.
  apply negb_true_iff in Hc. now rewrite Hc.
Qed.

Lemma plain_no_lbrace s :
  plain s = true -> Str.forallb (fun c => negb (is_lbrace c)) s = true.
Proof.
  unfold plain. induction s as [|c s IH]; simpl; [reflexivity|].
  intros H. apply andb_true_iff in H as [Hc Hs]. rewrite (IH Hs), andb_true_r.
  apply negb_true_iff, orb_false_iff in Hc as [-> _]. reflexivity.
Qed.

Lemma plain_lone s : plain s = true -> lone_braces s = true.
Proof. intros H. now apply no_lbrace_lone, plain_no_lbrace. Qed.

Lemma lone_braces_app a b :
  lone_braces a = true -> lone_braces b = true -> lone_braces (a ++ b) = true.
Proof.
  induction a as [|c a IH]; simpl; [auto|].
  intros Ha Hb. apply andb_true_iff in Ha as [Hc Ha]. rewrite (IH Ha Hb), andb_true_r.
  destruct (is_lbrace c); [|reflexivity].
  destruct a as [|d a]; [discriminate | exact Hc].
Qed.

Lemma no_dollar_app a b : no_dollar (a ++ b) = no_dollar a && no_dollar b.
Proof. apply forallb_app. Qed.

Lemma ident_no_lbrace name :
  Str.forallb Str.is_ident_char name = true ->
  Str.forallb (fun c => negb (is_lbrace c)) name = true.
Proof.
  induction name as [|c name IH]; simpl; [reflexivity|].
  intros H. apply andb_true_iff in H as [Hc Hn]. rewrite (IH Hn), andb_true_r.
  revert Hc. destruct c as [[] [] [] [] [] [] [] []]; vm_compute; congruence.
Qed.

Lemma lone_braces_dollar_token name :
  is_ident name = true -> lone_braces ("${" ++ name ++ "}") = true.
Proof.
  destruct name as [|c name]; [discriminate|]. simpl.
  intros H. apply andb_true_iff in H as [Hc Hn].
  rewrite (ident_start_not_lbrace c Hc). simpl.
  apply lone_braces_app; [now apply no_lbrace_lone, ident_no_lbrace | reflexivity].
Qed.

Lemma ctx_str_plain ctx key : plain_ctx ctx -> plain (ctx_str ctx key) = true.
Proof.
  intros H. unfold ctx_str. destruct (ctx !! key) as [v|] eqn:E; [|reflexivity].
  exact (H key v E).
Qed.

(** *** The two loops on a template *)

Section Loops.
Variable ctx : gmap string value.
Hypothesis Hctx : plain_ctx ctx.

Lemma braces_loop ps : forall u fuel,
  lone_braces u = true ->
  forallb well_formed ps = true ->
  length ps < fuel ->
  subst_loop fuel pat_braces ctx (u ++ render raw ps)
    = Some (u ++ render (expand_braces ctx) ps).
Proof.
  induction ps as [|p ps IH]; intros u fuel Hu Hwf Hfuel.
  - destruct fuel as [|fuel]; [simpl in Hfuel; lia|].
    simpl. rewrite app_nil_r. now rewrite (search_braces_none u Hu).
  - cbn [forallb] in Hwf. apply andb_true_iff in Hwf as [Hp Hwf].
    cbn [render length] in *.
    destruct p as [text | ws1 name ws2 | name]; cbn [raw expand_braces well_formed] in *.
    + rewrite <- !app_assoc. apply IH; [|exact Hwf | lia].
      apply lone_braces_app; [exact Hu | now apply plain_lone].
    + apply andb_true_iff in Hp as [Hp H2]. apply andb_true_iff in Hp as [H1 Hn].
      destruct fuel as [|fuel]; [lia|]. cbn [subst_loop].
      rewrite (search_past_lone_braces u _ Hu).
      replace (("{{" ++ ws1 ++ name ++ ws2 ++ "}}") ++ render raw ps)
        with ("{{" ++ ws1 ++ name ++ ws2 ++ "}}" ++ render raw ps)
        by (now rewrite !app_assoc).
      assert (Hs : Re.search pat_braces
                     ("{{" ++ ws1 ++ name ++ ws2 ++ "}}" ++ render raw ps)
                   = Some ("", [name], render raw ps)).
      { change ("{{" ++ ws1 ++ name ++ ws2 ++ "}}" ++ render raw ps)
          with (String "{" (String "{" (ws1 ++ name ++ ws2 ++ "}}" ++ render raw ps))).
        cbn [Re.search].
        change (String "{" (String "{" (ws1 ++ name ++ ws2 ++ "}}" ++ render raw ps)))
          with ("{{" ++ ws1 ++ name ++ ws2 ++ "}}" ++ render raw ps).
        now rewrite (match_braces_token ws1 name ws2 _ H1 Hn H2). }
      rewrite Hs. rewrite app_nil_r. cbn [group1 nth].
      rewrite <- (app_assoc u (ctx_str ctx name) (render raw ps)),
        <- (app_assoc u (ctx_str ctx name) (render (expand_braces ctx) ps)).
      apply IH; [|exact Hwf | lia].
      apply lone_braces_app; [exact Hu | apply plain_lone, ctx_str_plain, Hctx].
    + rewrite <- (app_assoc u ("${" ++ name ++ "}") (render raw ps)),
        <- (app_assoc u ("${" ++ name ++ "}") (render (expand_braces ctx) ps)).
      apply IH; [|exact Hwf | lia].
      apply lone_braces_app; [exact Hu | now apply lone_braces_dollar_token].
Qed.

Lemma dollar_loop ps : forall u fuel,
  no_dollar u = true ->
  forallb well_formed ps = true ->
  length ps < fuel ->
  subst_loop fuel pat_dollar ctx (u ++ render (expand_braces ctx) ps)
    = Some (u ++ render (expand ctx) ps).
Proof.
  induction ps as [|p ps IH]; intros u fuel Hu Hwf Hfuel.
  - destruct fuel as [|fuel]; [simpl in Hfuel; lia|].
    simpl. rewrite app_nil_r. now rewrite (search_dollar_none u Hu).
  - cbn [forallb] in Hwf. apply andb_true_iff in Hwf as [Hp Hwf].
    cbn [render length] in *.
    destruct p as [text | ws1 name ws2 | name];
      cbn [raw expand expand_braces well_formed] in *.
    + rewrite <- !app_assoc. apply IH; [|exact Hwf | lia].
      rewrite no_dollar_app, Hu. now apply plain_no_dollar.
    + rewrite <- !app_assoc. apply IH; [|exact Hwf | lia].
      rewrite no_dollar_app, Hu. apply plain_no_dollar, ctx_str_plain, Hctx.
    + destruct fuel as [|fuel]; [lia|]. cbn [subst_loop].
      rewrite (search_past_no_dollar u _ Hu).
      replace (("${" ++ name ++ "}") ++ render (expand_braces ctx) ps)
        with ("${" ++ name ++ "}" ++ render (expand_braces ctx) ps)
        by (now rewrite !app_assoc).
      assert (Hs : Re.search pat_dollar
                     ("${" ++ name ++ "}" ++ render (expand_braces ctx) ps)
                   = Some ("", [name], render (expand_braces ctx) ps)).
      { change ("${" ++ name ++ "}" ++ render (expand_braces ctx) ps)
          with (String "$" (String "{" (name ++ "}" ++ render (expand_braces ctx) ps))).
        cbn [Re.search].
        change (String "$" (String "{" (name ++ "}" ++ render (expand_braces ctx) ps)))
          with ("${" ++ name ++ "}" ++ render (expand_braces ctx) ps).
        now rewrite (match_dollar_token name _ Hp). }
      rewrite Hs. rewrite app_nil_r. cbn [group1 nth].
      rewrite <- (app_assoc u (ctx_str ctx name) (render (expand_braces ctx) ps)),
        <- (app_assoc u (ctx_str ctx name) (render (expand ctx) ps)).
      apply IH; [|exact Hwf | lia].
      rewrite no_dollar_app, Hu. apply plain_no_dollar, ctx_str_plain, Hctx.
Qed.

Lemma expand_plain ps :
  forallb well_formed ps = true -> plain (render (expand ctx) ps) = true.
Proof.
  induction ps as [|p ps IH]; [reflexivity|].
  cbn [forallb render]. intros H. apply andb_true_iff in H as [Hp Hwf].
  rewrite plain_app, (IH Hwf), andb_true_r.
  destruct p; cbn [expand well_formed] in *; auto using ctx_str_plain.
Qed.
End Loops.

(** *** Lists and mappings *)

Lemma deep_interpolate_shape fuel ctx v :
  forall v', deep_interpolate fuel v ctx = Some v' -> interpolated fuel ctx v v'.
Proof.
  induction v as [| b | z | s | l IH | d IH] using value_nested_ind;
    intros v'; cbn [deep_interpolate].
  - intros [= <-]. constructor.
  - intros [= <-]. constructor.
  - intros [= <-]. constructor.
  - destruct (interpolate_string fuel s ctx) as [s'|] eqn:E; [|discriminate].
    intros [= <-]. now constructor.
  - match goal with |- option_map _ (?f l) = _ -> _ => set (elems := f) end.
    destruct (elems l) as [l'|] eqn:E; [|discriminate]. intros [= <-]. constructor.
    revert l' E. induction IH as [|x l Hx _ IHl]; intros l'; cbn.
    + intros [= <-]. constructor.
    + destruct (deep_interpolate fuel x ctx) as [x'|] eqn:Ex; [|discriminate].
      fold elems. destruct (elems l) as [l''|] eqn:El; [|discriminate].
      intros [= <-]. constructor; auto.
  - match goal with |- option_map _ (?f d) = _ -> _ => set (items := f) end.
    destruct (items d) as [d'|] eqn:E; [|discriminate]. intros [= <-]. constructor.
    revert d' E. induction IH as [|[k x] d Hx _ IHd]; intros d'; cbn.
    + intros [= <-]. constructor.
    + destruct (deep_interpolate fuel x ctx) as [x'|] eqn:Ex; [|discriminate].
      fold items. destruct (items d) as [d''|] eqn:Ed; [|discriminate].
      intros [= <-]. constructor; auto.
Qed.

Lemma deep_interpolate_returns fuel ctx v :
  brace_free ctx -> widest v < fuel -> exists v', deep_interpolate fuel v ctx = Some v'.
Proof.
  intros Hctx.
  induction v as [| b | z | s | l IH | d IH] using value_nested_ind;
    cbn [deep_interpolate widest]; intros Hw; eauto.
  - destruct (interpolate_string_stops ctx s fuel Hctx Hw) as (out & -> & _). eauto.
  - match goal with |- exists _, option_map _ (?f l) = _ => set (elems := f) end.
    assert (exists l', elems l = Some l') as [l' ->]; [|eauto].
    induction IH as [|x l Hx _ IHl]; cbn in *; [eauto|].
    destruct Hx as [x' ->]; [lia|]. fold elems.
    destruct IHl as [l' ->]; [lia|]. eauto.
  - match goal with |- exists _, option_map _ (?f d) = _ => set (items := f) end.
    assert (exists d', items d = Some d') as [d' ->]; [|eauto].
    induction IH as [|[k x] d Hx _ IHd]; cbn in *; [eauto|].
    destruct Hx as [x' ->]; [lia|]. fold items.
    destruct IHd as [d' ->]; [lia|]. eauto.
Qed.

(** C3, amended.  For a context whose values print without opening
    braces and dollar signs, and a template of literal chunks (free of
    those two characters) and well-formed tokens, interpolation returns
    the template with every token replaced by [context[NAME]], the empty
    string when the name is absent, and neither pattern matches in the
    result.  Whatever the context and the text, no dollar token is left in
    a result.  [deep_interpolate] returns for every value whose strings
    are shorter than the fuel when the context is free of opening braces,
    and its result has the lists, the keys and their order, and the other
    values of its argument, with the strings interpolated. *)
Theorem interpolation_contract fuel ctx :
  (forall ps, plain_ctx ctx -> forallb well_formed ps = true -> length ps < fuel ->
     interpolate_string fuel (render raw ps) ctx = Some (render (expand ctx) ps)
     /\ Re.search pat_braces (render (expand ctx) ps) = None
     /\ Re.search pat_dollar (render (expand ctx) ps) = None)
  /\ (forall s out, interpolate_string fuel s ctx = Some out ->
        Re.search pat_dollar out = None)
  /\ (forall v, brace_free ctx -> widest v < fuel ->
        exists v', deep_interpolate fuel v ctx = Some v')
  /\ (forall v v', deep_interpolate fuel v ctx = Some v' -> interpolated fuel ctx v v').
Proof.
  repeat apply conj.
  - intros ps Hctx Hwf Hfuel.
    pose proof (expand_plain ctx Hctx ps Hwf) as Hplain. repeat apply conj.
    + unfold interpolate_string, VAR_PATTERNS. cbn [subst_all].
      pose proof (braces_loop ctx Hctx ps "" fuel eq_refl Hwf Hfuel) as H1.
      pose proof (dollar_loop ctx Hctx ps "" fuel eq_refl Hwf Hfuel) as H2.
      cbn [String.append] in H1, H2. now rewrite H1, H2.
    + now apply search_braces_none, plain_lone.
    + now apply search_dollar_none, plain_no_dollar.
  - intros s out. unfold interpolate_string, VAR_PATTERNS. cbn [subst_all].
    destruct (subst_loop fuel pat_braces ctx s) as [o1|]; [|discriminate].
    destruct (subst_loop fuel pat_dollar ctx o1) as [o2|] eqn:E; [|discriminate].
    intros [= <-]. exact (subst_loop_fixed _ _ _ _ _ E).
  - intros v. apply deep_interpolate_returns.
  - intros v. apply deep_interpolate_shape.
Qed.

Lemma plain_ctx_plain : plain_ctx Scenario.ctx_plain.
Proof. apply (bool_decide_eq_true_1 _). vm_compute. reflexivity. Defined.

Lemma interpolation_contract_witness :
  interpolate_string 9 "id={{ FOO}}/${K}/{{MISSING }}." Scenario.ctx_plain = Some "id=a/A/."
  /\ exists step', deep_interpolate 12 Scenario.raw_step Scenario.ctx_plain = Some step'.
Proof.
  split.
  - exact (proj1 (proj1 (interpolation_contract 9 Scenario.ctx_plain)
                    Scenario.template plain_ctx_plain eq_refl ltac:(cbn; lia))).
  - refine (proj1 (proj2 (proj2 (interpolation_contract 12 Scenario.ctx_plain)))
              Scenario.raw_step brace_free_plain _).
    cbn. lia.
Defined.

(** C3 as stated fails: the result of interpolating a dollar token set
    between two pairs of braces is a brace token whose name is in the
    context. *)
Lemma nested_token_leaves_pattern :
  interpolate_string 3 Scenario.nested_token Scenario.ctx_plain = Some "{{A}}"
  /\ Re.search pat_braces "{{A}}" = Some ("", ["A"], "")
  /\ Scenario.ctx_plain !! "A" = Some (VStr "x").
Proof. repeat split; vm_compute; reflexivity. Qed.

End TemplateFacts.

Module HookFacts.
Import Py Eff Platform Hooks.

Lemma strs_map_VStr (a : list string) : strs (map VStr a) = Some a.
Proof. induction a as [|x a IH]; simpl; [reflexivity | now rewrite IH]. Qed.

Lemma subprocess_run_strs W l a cwd env st :
  strs l = Some a ->
  subprocess_run W (VList l) cwd env st = spawned W a cwd env st.
Proof.
  intros Hl. unfold subprocess_run, spawned, mbind, eff_bind, bind, iter, mret, eff_ret, ret.
  cbn. rewrite Hl. cbn.
  destruct (spawn W a cwd env _) as [[e|] f]; reflexivity.
Qed.

Lemma spawned_trace W a cwd env st :
  trace (snd (spawned W a cwd env st)) = (trace st ++ [Spawn a cwd env])%list.
Proof. reflexivity. Qed.

(** C5.  [safe_run_command] dispatches on the shape of the run-item.  A
    mapping with an [argv] list is spawned as exactly that argument vector,
    whatever the shell kind of the step is: no shell stands in front of it.
    A string is spawned under the shell of the given kind, PowerShell for
    [powershell] and a login bash otherwise.  An [argv] that is not a list,
    and every other shape of item, raises [ValueError] and leaves the
    state, hence the trace, untouched: nothing is executed. *)
Theorem safe_run_command_dispatch W item shell_kind cwd env st :
  match item with
  | VDict d =>
      match assoc "argv" d with
      | Some (VList l) =>
          forall a, strs l = Some a ->
            safe_run_command W item shell_kind cwd env st = spawned W a cwd env st
      | Some _ =>
          safe_run_command W item shell_kind cwd env st
            = (Raise (Exn ValueError "argv must be a list"), st)
      | None =>
          exists text, safe_run_command W item shell_kind cwd env st
            = (Raise (Exn ValueError text), st)
      end
  | VStr cmd =>
      safe_run_command W item shell_kind cwd env st
        = spawned W (shell_vector shell_kind cmd) cwd env st
  | _ =>
      exists text, safe_run_command W item shell_kind cwd env st
        = (Raise (Exn ValueError text), st)
  end.
Proof.
  destruct item as [| b | z | cmd | l | d]; simpl; eauto.
  - unfold run_process_shell. apply subprocess_run_strs.
    unfold shell_vector. destruct (is_str "powershell" shell_kind); apply strs_map_VStr.
  - destruct (assoc "argv" d) as [[| b | z | s | l | d']|]; simpl; eauto.
    intros a Ha. unfold run_process_argv. now apply subprocess_run_strs.
Qed.

Lemma safe_run_command_dispatch_witness :
  safe_run_command Posix.W (VDict [("argv", VList [VStr "echo"; VStr "hi"])])
      (VStr "powershell") None None (Posix.start [] "windows")
    = spawned Posix.W ["echo"; "hi"] None None (Posix.start [] "windows").
Proof.
  exact (safe_run_command_dispatch Posix.W
           (VDict [("argv", VList [VStr "echo"; VStr "hi"])])
           (VStr "powershell") None None (Posix.start [] "windows")
           ["echo"; "hi"] eq_refl).
Defined.
End HookFacts.

Module ResolveFacts.
Import Py Eff Platform Hooks Runner.

(** C6.  [resolve_repo_url] is a function of the entry and the default
    organisation alone, with this precedence: a non-empty [url] is
    returned as it is, whatever [org] and [name] say; otherwise a non-empty
    [org] of the entry is combined with [name], whatever the default is;
    otherwise the default organisation is; otherwise, with no organisation
    at all, a name with a slash is taken as [org/name]; otherwise the
    resolution fails, as it does when neither [url] nor [name] is there. *)
Theorem resolve_repo_url_precedence (d : list (string * value)) (default_org : value) :
  let url := get d "url" in
  let name := get d "name" in
  let org := get d "org" in
  (truthy url = true -> resolve_repo_url (VDict d) default_org = Ok url)
  /\ (truthy url = false -> truthy name = true -> truthy org = true ->
      resolve_repo_url (VDict d) default_org
        = Ok (VStr ("https://github.com/" ++ str org ++ "/" ++ str name ++ ".git")))
  /\ (truthy url = false -> truthy name = true -> truthy org = false ->
      truthy default_org = true ->
      resolve_repo_url (VDict d) default_org
        = Ok (VStr ("https://github.com/" ++ str default_org ++ "/" ++ str name ++ ".git")))
  /\ (forall n, truthy url = false -> name = VStr n -> n <> "" -> truthy org = false ->
      truthy default_org = false -> Str.contains "/" n = true ->
      resolve_repo_url (VDict d) default_org
        = Ok (VStr ("https://github.com/" ++ n ++ ".git")))
  /\ (forall n, truthy url = false -> name = VStr n -> n <> "" -> truthy org = false ->
      truthy default_org = false -> Str.contains "/" n = false ->
      exists text, resolve_repo_url (VDict d) default_org = Raise (Exn ValueError text))
  /\ (truthy url = false -> truthy name = false ->
      exists text, resolve_repo_url (VDict d) default_org = Raise (Exn ValueError text)).
Proof.
  intros url name org. subst url name org. unfold resolve_repo_url, get, or_else.
  repeat split.
  - intros ->. reflexivity.
  - intros H1 H2 H3. now rewrite H1, H2, H3; simpl; rewrite H3.
  - intros H1 H2 H3 H4. now rewrite H1, H2, H3; simpl; rewrite H4.
  - intros n H1 Hn Hne Ho Hd Hc. rewrite Hn in *. rewrite H1, Ho, Hd.
    assert (truthy (VStr n) = true) as ->.
    { simpl. destruct n; [congruence | reflexivity]. }
    simpl. now rewrite Hc.
  - intros n H1 Hn Hne Ho Hd Hc. rewrite Hn in *. rewrite H1, Ho, Hd.
    assert (truthy (VStr n) = true) as ->.
    { simpl. destruct n; [congruence | reflexivity]. }
    simpl. rewrite Hc. eauto.
  - intros H1 H2. rewrite H1, H2. simpl. eauto.
Qed.

Lemma resolve_repo_url_precedence_witness :
  resolve_repo_url
      (VDict [("url", VStr "git@host:x.git"); ("org", VStr "o"); ("name", VStr "n")])
      (VStr "acme") = Ok (VStr "git@host:x.git")
  /\ resolve_repo_url (VDict [("name", VStr "svc"); ("org", VStr "custom")]) (VStr "acme")
       = Ok (VStr "https://github.com/custom/svc.git")
  /\ resolve_repo_url (VDict [("name", VStr "svc")]) (VStr "acme")
       = Ok (VStr "https://github.com/acme/svc.git")
  /\ resolve_repo_url (VDict [("name", VStr "acme/svc")]) VNone
       = Ok (VStr "https://github.com/acme/svc.git")
  /\ (exists text, resolve_repo_url (VDict [("name", VStr "svc")]) VNone
       = Raise (Exn ValueError text))
  /\ (exists text, resolve_repo_url (VDict [("org", VStr "acme")]) (VStr "acme")
       = Raise (Exn ValueError text)).
Proof.
  split; [| split; [| split; [| split; [| split]]]].
  - exact (proj1 (resolve_repo_url_precedence
             [("url", VStr "git@host:x.git"); ("org", VStr "o"); ("name", VStr "n")]
             (VStr "acme")) eq_refl).
  - exact (proj1 (proj2 (resolve_repo_url_precedence
             [("name", VStr "svc"); ("org", VStr "custom")] (VStr "acme")))
             eq_refl eq_refl eq_refl).
  - exact (proj1 (proj2 (proj2 (resolve_repo_url_precedence
             [("name", VStr "svc")] (VStr "acme"))))
             eq_refl eq_refl eq_refl eq_refl).
  - refine (proj1 (proj2 (proj2 (proj2 (resolve_repo_url_precedence
             [("name", VStr "acme/svc")] VNone))))
             "acme/svc" eq_refl eq_refl _ eq_refl eq_refl eq_refl).
    discriminate.
  - refine (proj1 (proj2 (proj2 (proj2 (proj2 (resolve_repo_url_precedence
             [("name", VStr "svc")] VNone)))))
             "svc" eq_refl eq_refl _ eq_refl eq_refl eq_refl).
    discriminate.
  - exact (proj2 (proj2 (proj2 (proj2 (proj2 (resolve_repo_url_precedence
             [("org", VStr "acme")] (VStr "acme"))))))
             eq_refl eq_refl).
Defined.
End ResolveFacts.
Module WriteFacts.
Import Py Eff Platform Hooks EffFacts.

#[local] Arguments String.append : simpl nomatch.

(** What [mkdir_chain] can change: it adds directories of the chain and
    nothing else, however it ends. *)
Lemma mkdir_chain_frame W chain : forall st,
  exists d',
    snd (mkdir_chain W chain st)
      = St (Fs (files (fs st)) d' (modes (fs st))) (environ st) (trace st)
    /\ dirs (fs st) ⊆ d'
    /\ d' ⊆ dirs (fs st) ∪ list_to_set chain.
Proof.
  induction chain as [|q up IH]; intros [[f d m] e t].
  - exists d. cbn. split; [reflexivity | set_solver].
  - cbn [mkdir_chain]. rewrite bind_get_state. cbn [fs dirs files modes environ trace].
    destruct (bool_decide (q ∈ d)); [exists d; cbn; split; [reflexivity | set_solver]|].
    destruct (bool_decide (is_Some (f !! q)));
      [exists d; cbn; split; [reflexivity | set_solver]|].
    destruct up as [|q' up'].
    { exists (d ∪ {[q]}). cbn. split; [reflexivity | set_solver]. }
    destruct (IH (St (Fs f d m) e t)) as (d1 & E & H1 & H2).
    cbn [fs dirs files modes environ trace] in E, H1, H2.
    destruct (mkdir_chain W (q' :: up') (St (Fs f d m) e t)) as [[[]|x|] s1] eqn:Hm;
      cbn [snd] in E; subst s1.
    + rewrite (bind_Ok _ _ _ _ _ Hm), bind_get_state. cbn [fs].
      destruct (permits W _ MakeDir q).
      * exists (d1 ∪ {[q]}). cbn. split; [reflexivity | set_solver].
      * exists d1. cbn. split; [reflexivity | set_solver].
    + rewrite (bind_Raise _ _ _ _ _ Hm). exists d1. cbn. split; [reflexivity | set_solver].
    + rewrite (bind_Diverge _ _ _ _ Hm). exists d1. cbn. split; [reflexivity | set_solver].
Qed.

(** A chain that was made has its first directory. *)
Lemma mkdir_chain_ok W q up st st1 :
  mkdir_chain W (q :: up) st = (Ok tt, st1) -> q ∈ dirs (fs st1).
Proof.
  cbn [mkdir_chain]. rewrite bind_get_state.
  destruct (bool_decide_reflect (q ∈ dirs (fs st))) as [Hq|_].
  { now intros [= <-]. }
  destruct (bool_decide (is_Some (files (fs st) !! q))); [discriminate|].
  destruct up as [|q' up'].
  { intros [= <-]. cbn. set_solver. }
  intros H. apply bind_Ok_inv in H as ([] & s1 & _ & H).
  rewrite bind_get_state in H. destruct (permits W (fs s1) MakeDir q); [|discriminate].
  injection H as <-. cbn. set_solver.
Qed.

(** What a successful [ensure_parent] leaves. *)
Lemma ensure_parent_inv W p st st1 :
  ensure_parent W p st = (Ok tt, st1) ->
  exists d',
    st1 = St (Fs (files (fs st)) d' (modes (fs st))) (environ st) (trace st)
    /\ parent W p ∈ d'
    /\ dirs (fs st) ⊆ d'
    /\ d' ⊆ dirs (fs st) ∪ list_to_set (parent_chain W p).
Proof.
  intros H. unfold ensure_parent, mkdir_parents in H.
  pose proof (mkdir_chain_ok _ _ _ _ _ H) as Hin.
  destruct (mkdir_chain_frame W (parent W p :: parents W (parent W p)) st)
    as (d' & E & H1 & H2).
  rewrite H in E. cbn [snd] in E. subst st1. exists d'.
  split; [reflexivity|]. split; [exact Hin|]. split; [exact H1 | exact H2].
Qed.

(** The [try]/[except Exception: pass] around [os.chmod] never raises. *)
Lemma chmod_effect W p mode f d m e t :
  (if truthy mode then
     try_except
       (match parse_octal (str mode) with
        | Some n => os_chmod W p n
        | None => raise ValueError "invalid literal for int() with base 8"
        end)
       (fun e => if is_Exception e then Some (mret tt) else None)
   else mret tt) (St (Fs f d m) e t)
  = (Ok tt, St (Fs f d (mode_set W p mode m)) e t).
Proof.
  unfold mode_set. destruct (truthy mode); [|reflexivity].
  unfold try_except. destruct (parse_octal (str mode)) as [n|]; [|reflexivity].
  unfold os_chmod. destruct (chmod_fails W p n); reflexivity.
Qed.

Lemma universal_newlines_plain s :
  Str.count (Str.is_char CR) s = 0 -> universal_newlines s = s.
Proof.
  induction s as [|c s IH]; [reflexivity|]. cbn [Str.count universal_newlines].
  unfold Str.is_char at 1. rewrite Ascii.eqb_sym.
  destruct (Ascii.eqb c CR); [discriminate|]. cbn. intros H. now rewrite IH.
Qed.

Lemma written_newlines_lf s : written_newlines newline s = s.
Proof.
  induction s as [|c s IH]; [reflexivity|]. cbn [written_newlines]. rewrite IH.
  destruct (Ascii.eqb_spec c LF) as [->|]; reflexivity.
Qed.

(** The whole effect of [write_file] when the directories above the
    target can be made and the operating system lets the process read and
    write the target. *)
Lemma write_file_state W (path text : string) (mode : value) (append : bool) st st1 :
  let p := expanduser W (environ st) path in
  ensure_parent W p st = (Ok tt, st1) ->
  p ∉ dirs (fs st1) ->
  permits W (fs st1) WriteFile p = true ->
  (append = true -> is_Some (files (fs st) !! p) -> permits W (fs st1) ReadFile p = true) ->
  write_file W (VStr path) (VStr text) mode append st
    = (Ok tt,
       St (Fs (<[p := written W append (files (fs st) !! p) text]> (files (fs st)))
              (dirs (fs st1))
              (mode_set W p mode (modes (fs st))))
          (environ st) (trace st)).
Proof.
  intros p Hmk Hnd Hw Hr.
  destruct (ensure_parent_inv W p st st1 Hmk) as (d' & -> & Hpar & _ & _).
  cbn [fs dirs] in Hnd, Hw, Hr.
  unfold write_file. rewrite bind_get_state. fold p.
  rewrite (bind_Ok _ _ _ _ _ Hmk), bind_get_state.
  set (st1 := St _ _ _).
  assert (Hd1 : bool_decide (p ∈ dirs (fs st1)) = false)
    by (now apply bool_decide_eq_false).
  assert (Hp1 : bool_decide (parent W p ∈ dirs (fs st1)) = true)
    by (now apply bool_decide_eq_true).
  assert (Hwt : forall data,
    write_text W p (VStr data) st1
      = (Ok tt, St (Fs (<[p := written_newlines (linesep W) data]> (files (fs st))) d'
                       (modes (fs st)))
                   (environ st) (trace st))).
  { intros data. unfold write_text. rewrite bind_get_state, Hd1, Hp1.
    cbn [negb fs st1]. rewrite Hw. reflexivity. }
  assert (Hbody :
    (if append && path_exists (fs st1) p
     then old ← read_text W p;
          match VStr text with
          | VStr text0 => write_text W p (VStr (old ++ text0))
          | _ => raise TypeError "can only concatenate str to str"
          end
     else write_text W p (VStr text)) st1
    = (Ok tt, St (Fs (<[p := written W append (files (fs st) !! p) text]> (files (fs st))) d'
                     (modes (fs st)))
                 (environ st) (trace st))).
  { unfold written. destruct append; cbn [andb]; [|apply Hwt].
    unfold path_exists. rewrite Hd1, orb_false_r.
    destruct (files (fs st) !! p) as [old|] eqn:Hold.
    - rewrite bool_decide_eq_true_2 by (subst st1; cbn; rewrite Hold; eauto).
      assert (Hrd : read_text W p st1 = (Ok (universal_newlines old), st1)).
      { unfold read_text. rewrite bind_get_state. subst st1. cbn [fs files].
        rewrite Hold, (Hr eq_refl) by eauto. reflexivity. }
      rewrite (bind_Ok _ _ _ _ _ Hrd). apply Hwt.
    - rewrite bool_decide_eq_false_2
        by (subst st1; cbn; rewrite Hold; intros [? ?]; congruence).
      apply Hwt. }
  rewrite (bind_Ok _ _ _ _ _ Hbody). apply chmod_effect.
Qed.

(** The directories above a target can be made when no regular file is
    in the way and the operating system lets the process make them. *)
Lemma mkdir_chain_succeeds W chain : forall st,
  Forall (fun q => files (fs st) !! q = None) chain ->
  (forall f q, q ∈ chain -> files f = files (fs st) -> modes f = modes (fs st) ->
     permits W f MakeDir q = true) ->
  exists d',
    mkdir_chain W chain st
      = (Ok tt, St (Fs (files (fs st)) d' (modes (fs st))) (environ st) (trace st)).
Proof.
  induction chain as [|q up IH]; intros [[f d m] e t] Hfiles Hperm.
  - exists d. reflexivity.
  - cbn [mkdir_chain]. rewrite bind_get_state. cbn [fs files dirs modes environ trace] in *.
    destruct (bool_decide (q ∈ d)); [exists d; reflexivity|].
    inversion Hfiles as [|? ? Hq Hup]; subst.
    rewrite bool_decide_eq_false_2 by (rewrite Hq; intros [? ?]; discriminate).
    destruct up as [|q' up']; [eexists; reflexivity|].
    destruct (IH (St (Fs f d m) e t) Hup) as (d1 & E).
    { intros f' q0 Hin. apply Hperm. set_solver. }
    cbn [fs files dirs modes environ trace] in E.
    rewrite (bind_Ok _ _ _ _ _ E), bind_get_state. cbn [fs].
    rewrite (Hperm (Fs f d1 m) q) by (reflexivity || set_solver).
    eexists. reflexivity.
Qed.

Lemma ensure_parent_succeeds W p st :
  Forall (fun q => files (fs st) !! q = None) (parent_chain W p) ->
  unhindered W (fs st) p ->
  exists st1, ensure_parent W p st = (Ok tt, st1).
Proof.
  intros Hfiles Hun.
  destruct (mkdir_chain_succeeds W (parent_chain W p) st Hfiles) as (d' & E).
  - intros f q Hq Hf Hm. now apply (Hun f Hf Hm).
  - eexists. exact E.
Qed.

(** The effect of [write_file] where nothing is in its way. *)
Lemma write_file_unhindered W (path text : string) (mode : value) (append : bool) st :
  let p := expanduser W (environ st) path in
  Forall (fun q => files (fs st) !! q = None) (parent_chain W p) ->
  p ∉ dirs (fs st) ->
  p ∉ parent_chain W p ->
  unhindered W (fs st) p ->
  exists d',
    write_file W (VStr path) (VStr text) mode append st
      = (Ok tt,
         St (Fs (<[p := written W append (files (fs st) !! p) text]> (files (fs st))) d'
                (mode_set W p mode (modes (fs st))))
            (environ st) (trace st))
    /\ parent W p ∈ d'
    /\ dirs (fs st) ⊆ d'
    /\ d' ⊆ dirs (fs st) ∪ list_to_set (parent_chain W p).
Proof.
  intros p Hfiles Hnd Hnc Hun.
  destruct (ensure_parent_succeeds W p st Hfiles Hun) as (st1 & Hmk).
  destruct (ensure_parent_inv W p st st1 Hmk) as (d' & Hst1 & Hpar & Hsub & Hbound).
  exists d'. split; [|auto].
  destruct (Hun (fs st1)) as (_ & Hw & Hr); [now subst st1 | now subst st1 |].
  rewrite (write_file_state W path text mode append st st1 Hmk); fold p.
  - now subst st1.
  - subst st1. cbn. set_solver.
  - exact Hw.
  - intros _ _. exact Hr.
Qed.


Lemma posix_unhindered f0 p : modes f0 = ∅ -> unhindered Posix.W f0 p.
Proof.
  intros H0 f _ Hm. unfold permits. cbn. unfold Posix.permits, Posix.owner_bit.
  rewrite Hm, H0. rewrite !lookup_empty.
  split; [reflexivity|]. split; [|reflexivity]. now destruct (bool_decide _).
Qed.



End WriteFacts.

Module GuardFacts.
Import Py Eff Platform Hooks Runner EffFacts.

Lemma unmatched_guard_is_false (w : string) (sc : gmap string value) :
  Re.match_here pat_when w = None -> cond_ok w sc = false.
Proof. unfold cond_ok. now intros ->. Qed.

(** C4, amended.  A step whose [when], after interpolation, is a non-empty
    string that does not match the guard grammar, or whose comparison is
    false, is skipped: the loop body returns normally and the state is
    the one it started from, so nothing was printed (no banner, no action
    output) and no action ran. *)
Theorem skipped_step_is_silent W fuel c idx raw d w st :
  let sc := step_context (ctx c) (merged_env c) in
  Interp.deep_interpolate fuel raw sc = Some (VDict d) ->
  get d "when" = VStr w ->
  w <> "" ->
  Re.match_here pat_when w = None \/ cond_ok w sc = false ->
  run_step W fuel c idx raw st = (Ok tt, st).
Proof.
  intros sc Hraw Hw Hne Hskip.
  assert (Hc : cond_ok w sc = false).
  { destruct Hskip as [H|H]; [now apply unmatched_guard_is_false | exact H]. }
  unfold run_step. fold sc. rewrite Hraw.
  rewrite (bind_Ok _ _ st (VDict d) st eq_refl).
  unfold exec_step. rewrite Hw.
  assert (Hg : guard_passes (VStr w) sc st = (Ok false, st)).
  { unfold guard_passes. rewrite (truthy_str w Hne), Hc. reflexivity. }
  now rewrite (bind_Ok _ _ _ _ _ Hg).
Qed.

Lemma skipped_step_is_silent_witness :
  run_step Posix.W 4 Scenario.cfg 1 Scenario.step_bad_guard Scenario.st0
    = (Ok tt, Scenario.st0).
Proof.
  apply (skipped_step_is_silent Posix.W 4 Scenario.cfg 1 Scenario.step_bad_guard
           [("name", VStr "guarded"); ("when", VStr "OS is ubuntu");
            ("run", VList [VStr "echo hi"])]
           "OS is ubuntu" Scenario.st0).
  - reflexivity.
  - reflexivity.
  - discriminate.
  - left. reflexivity.
Defined.

(** C4 as stated fails: the guard of this step matches the grammar neither
    as written nor after interpolation, where it is empty, and the step
    prints its banner and runs its command. *)
Lemma empty_guard_runs :
  Re.match_here pat_when "{{FLAG}}" = None
  /\ Re.match_here pat_when "" = None
  /\ exists st',
       run_step Posix.W 4 Scenario.cfg 1 Scenario.step_empty_guard Scenario.st0
         = (Ok tt, st')
       /\ trace st'
          = [Print (newline ++ "--- [guarded] ---");
             Spawn ["/bin/bash"; "-lc"; "echo hi"] None (Some (merged_env Scenario.cfg))].
Proof.
  split; [reflexivity|]. split; [reflexivity|].
  eexists. split; vm_compute; reflexivity.
Qed.
End GuardFacts.
(* ===================================================================== *)
(** ** From a step to its action *)

Module StepFacts.
Import Py Eff Platform Hooks Runner EffFacts.

Lemma continues_flag d :
  truthy (get_or d "continue_on_error" (VBool false)) = continues d.
Proof. unfold continues, get, get_or. now destruct (assoc "continue_on_error" d). Qed.

Lemma merge_layer_pure out m st st' :
  merge_layer out m st = (fst (merge_layer out m st'), st).
Proof. unfold merge_layer. destruct (negb (truthy m)); [reflexivity|]. now destruct m. Qed.

(** [merge_envs] neither reads nor writes the state. *)
Lemma merge_envs_pure layers : forall first st st',
  merge_envs first layers st = (fst (merge_envs first layers st'), st).
Proof.
  induction layers as [|m l IH]; intros first st st'; [reflexivity|].
  cbn [merge_envs]. unfold mbind, eff_bind, bind.
  rewrite (merge_layer_pure first m st st').
  destruct (merge_layer first m st') as [[out| |] s1]; cbn [fst]; try reflexivity.
  rewrite (IH out st s1). reflexivity.
Qed.

Lemma merge_envs_at first layers st env st' :
  merge_envs first layers st = (Ok env, st) ->
  merge_envs first layers st' = (Ok env, st').
Proof. intros H. rewrite (merge_envs_pure layers first st' st), H. reflexivity. Qed.

Lemma for_each_app {A} (body : A -> M unit) l1 l2 st :
  for_each (l1 ++ l2) body st = (for_each l1 body ≫= fun _ => for_each l2 body) st.
Proof.
  revert st. induction l1 as [|x l1 IH]; intros st; cbn [for_each app]; [reflexivity|].
  unfold mbind, eff_bind, bind in *.
  destruct (body x st) as [[[]|e|] st1]; try reflexivity. apply IH.
Qed.

(** A step whose guard lets it through prints its banner and hands over to
    the first of its action blocks. *)
Lemma exec_step_action W fuel c idx sc d step_env st :
  guard_passes (get d "when") sc st = (Ok true, st) ->
  merge_envs (merged_env c) [or_else (get_or d "env" empty_dict) empty_dict] st
    = (Ok step_env, st) ->
  exec_step W fuel c idx sc (VDict d) st
    = (match assoc "write_file" d with
       | Some wf => act_write_file W c wf
       | None =>
           match assoc "clone_repos" d with
           | Some cr =>
               act_clone_repos W fuel c (continues d) (step_shell c d) step_env sc cr
           | None =>
               act_run W c (continues d) (step_shell c d) (step_cwd d) step_env
                 (assoc "run" d)
           end
       end) (printed st (banner d idx)).
Proof.
  intros Hg He. unfold exec_step. rewrite (bind_Ok _ _ _ _ _ Hg).
  fold (banner d idx). rewrite (bind_Ok _ _ _ _ _ (print_printed _ st)).
  rewrite (bind_Ok _ _ _ _ _ (merge_envs_at _ _ _ _ (printed st (banner d idx)) He)).
  rewrite continues_flag. reflexivity.
Qed.

Lemma act_write_file_runs W c wfd path st :
  dry_run c = false ->
  assoc "path" wfd = Some path ->
  act_write_file W c (VDict wfd) st
    = write_file W path (get_or wfd "content" (VStr "")) (get wfd "mode")
        (truthy (get wfd "append")) st.
Proof.
  intros Hdry Hp. unfold act_write_file.
  assert (Hs : subscript (VDict wfd) "path" st = (Ok path, st))
    by (unfold subscript; now rewrite Hp).
  rewrite (bind_Ok _ _ _ _ _ Hs), Hdry.
  replace (truthy (get_or wfd "append" (VBool false))) with (truthy (get wfd "append"))
    by (unfold get, get_or; now destruct (assoc "append" wfd)).
  reflexivity.
Qed.

Lemma act_run_items W c coe sk cwd env items st :
  dry_run c = false ->
  act_run W c coe sk cwd env (Some (VList items)) st
    = for_each items (run_item W coe sk cwd env) st.
Proof. intros Hdry. unfold act_run. now rewrite Hdry. Qed.

Lemma act_clone_entries W fuel c coe sk env sc crd ds dest_s entries st :
  dry_run c = false ->
  clone_dest c crd = VStr ds ->
  ds <> "" ->
  Interp.interpolate_string fuel ds sc = Some dest_s ->
  get_or crd "repos" empty_list = VList entries ->
  act_clone_repos W fuel c coe sk env sc (VDict crd) st
    = for_each entries
        (clone_entry W coe sk env (resolve W (fs st) (expanduser W (environ st) dest_s))
           (clone_org c crd)) st.
Proof.
  intros Hdry Hdest Hne Hint Hrepos. unfold act_clone_repos. cbn [dyn_get].
  rewrite (bind_Ok _ _ st (get_or crd "dest_unix" VNone) st eq_refl).
  rewrite (bind_Ok _ _ st (get_or crd "dest_windows" VNone) st eq_refl).
  rewrite (bind_Ok _ _ st (get_or crd "default_org" VNone) st eq_refl).
  rewrite (bind_Ok _ _ st (get_or crd "repos" empty_list) st eq_refl).
  unfold clone_dest in Hdest.
  change (get_or crd "dest_windows" VNone) with (get crd "dest_windows").
  change (get_or crd "dest_unix" VNone) with (get crd "dest_unix").
  rewrite Hdest, (truthy_str ds Hne). cbn [negb]. rewrite Hint.
  rewrite (bind_Ok _ _ st dest_s st eq_refl), bind_get_state, Hdry, Hrepos.
  rewrite (bind_Ok _ _ st entries st eq_refl). reflexivity.
Qed.

End StepFacts.

Module DispatchFacts.
Import Py Eff Platform Hooks Runner EffFacts StepFacts.

Lemma prints_only_handler (e : exn) (k : M unit) :
  (if is_Exception e then Some (mret tt) else None) = Some k -> prints_only k.
Proof. destruct (is_Exception e); intros [= <-]. auto with prints. Qed.

Lemma prints_only_mkdir_chain W chain : prints_only (mkdir_chain W chain).
Proof.
  induction chain as [|q up IH]; cbn [mkdir_chain]; [auto with prints|].
  apply prints_only_bind; [auto with prints | intros st].
  destruct (bool_decide _); [auto with prints|].
  destruct (bool_decide _); [auto with prints|].
  destruct up; [auto with prints|]. prints.
Qed.

Lemma prints_only_write_file W path content mode append :
  prints_only (write_file W path content mode append).
Proof.
  pose proof (prints_only_mkdir_chain W) as Hmk.
  unfold write_file, ensure_parent, mkdir_parents, read_text, write_text, os_chmod.
  prints. all: eauto using prints_only_handler.
Qed.

Lemma prints_only_merge_envs first layers : prints_only (merge_envs first layers).
Proof.
  revert first. induction layers as [|m l IH]; intros first; cbn [merge_envs]; prints.
  unfold merge_layer. prints.
Qed.

Lemma prints_only_guard when sc : prints_only (guard_passes when sc).
Proof. unfold guard_passes. prints. Qed.

#[export] Hint Resolve prints_only_write_file prints_only_merge_envs prints_only_guard
  : prints.

Lemma prints_only_act_write_file W c wf : prints_only (act_write_file W c wf).
Proof. unfold act_write_file, subscript. prints. Qed.

(** C10.  Of the action blocks of a step exactly one is carried out, the
    first in the order [write_file], [clone_repos], [run].  A step that
    gets past its guard prints its banner; then, with a [write_file] block
    it does what [write_file] does for that block and nothing else; without
    one and with a [clone_repos] block it goes through the repository
    entries and nothing else; with neither it goes through the run-items.
    The blocks that lose are never read: with a [write_file] block the step
    behaves the same whatever its [clone_repos] and [run] entries are, and
    spawns no process; with a [clone_repos] block and no [write_file] block
    it behaves the same whatever its [run] entry is. *)
Theorem dispatch_precedence W fuel c idx sc (d : list (string * value)) st :
  (forall step_env,
     dry_run c = false ->
     guard_passes (get d "when") sc st = (Ok true, st) ->
     merge_envs (merged_env c) [or_else (get_or d "env" empty_dict) empty_dict] st
       = (Ok step_env, st) ->
     (forall wfd path,
        assoc "write_file" d = Some (VDict wfd) ->
        assoc "path" wfd = Some path ->
        exec_step W fuel c idx sc (VDict d) st
          = write_file W path (get_or wfd "content" (VStr "")) (get wfd "mode")
              (truthy (get wfd "append")) (printed st (banner d idx)))
     /\ (forall crd ds dest_s entries,
        assoc "write_file" d = None ->
        assoc "clone_repos" d = Some (VDict crd) ->
        clone_dest c crd = VStr ds ->
        ds <> "" ->
        Interp.interpolate_string fuel ds sc = Some dest_s ->
        get_or crd "repos" empty_list = VList entries ->
        exec_step W fuel c idx sc (VDict d) st
          = for_each entries
              (clone_entry W (continues d) (step_shell c d) step_env
                 (resolve W (fs st) (expanduser W (environ st) dest_s)) (clone_org c crd))
              (printed st (banner d idx)))
     /\ (forall items,
        assoc "write_file" d = None ->
        assoc "clone_repos" d = None ->
        assoc "run" d = Some (VList items) ->
        exec_step W fuel c idx sc (VDict d) st
          = for_each items
              (run_item W (continues d) (step_shell c d) (step_cwd d) step_env)
              (printed st (banner d idx))))
  /\ (forall wf, assoc "write_file" d = Some wf ->
     (forall d', (forall k, k <> "clone_repos" -> k <> "run" -> assoc k d' = assoc k d) ->
        exec_step W fuel c idx sc (VDict d') st = exec_step W fuel c idx sc (VDict d) st)
     /\ exists out,
          trace (snd (exec_step W fuel c idx sc (VDict d) st)) = (trace st ++ out)%list
          /\ Forall (fun e => is_print e = true) out)
  /\ (forall cr, assoc "write_file" d = None -> assoc "clone_repos" d = Some cr ->
      forall d', (forall k, k <> "run" -> assoc k d' = assoc k d) ->
        exec_step W fuel c idx sc (VDict d') st = exec_step W fuel c idx sc (VDict d) st).
Proof.
  split; [|split].
  - intros step_env Hdry Hg He.
    pose proof (exec_step_action W fuel c idx sc d step_env st Hg He) as Hact.
    split; [|split].
    + intros wfd path Hwf Hp. rewrite Hact, Hwf.
      now apply act_write_file_runs.
    + intros crd ds dest_s entries Hwf Hcr Hdest Hne Hint Hrepos.
      rewrite Hact, Hwf, Hcr.
      exact (act_clone_entries W fuel c _ _ _ sc crd ds dest_s entries _
               Hdry Hdest Hne Hint Hrepos).
    + intros items Hwf Hcr Hrun. rewrite Hact, Hwf, Hcr, Hrun.
      now apply act_run_items.
  - intros wf Hwf. split.
    + intros d' H. unfold exec_step, get, get_or.
      rewrite (H "when"), (H "name"), (H "shell"), (H "workdir"),
        (H "continue_on_error"), (H "env"), (H "write_file") by discriminate.
      rewrite Hwf. reflexivity.
    + assert (P : prints_only (exec_step W fuel c idx sc (VDict d))).
      { unfold exec_step. rewrite Hwf. prints. apply prints_only_act_write_file. }
      apply P.
  - intros cr Hwf Hcr d' H. unfold exec_step, get, get_or.
    rewrite (H "when"), (H "name"), (H "shell"), (H "workdir"),
      (H "continue_on_error"), (H "env"), (H "write_file"), (H "clone_repos")
      by discriminate.
    rewrite Hwf, Hcr. reflexivity.
Qed.

Lemma dispatch_precedence_witness :
  trace (snd (exec_step Posix.W 4 Scenario.cfg 1 ∅
                (VDict Scenario.step_clone_and_run) Scenario.st0))
    = [Print (newline ++ "--- [fetch] ---");
       Print "cloning https://github.com/acme/svc.git -> /srv/ws/acme/svc";
       Spawn ["git"; "clone"; "https://github.com/acme/svc.git"; "/srv/ws/acme/svc"]
         None None]
  /\ exec_step Posix.W 4 Scenario.cfg 1 ∅ (VDict Scenario.step_write_only) Scenario.st0
     = exec_step Posix.W 4 Scenario.cfg 1 ∅ (VDict Scenario.step_write_and_run) Scenario.st0
  /\ Scenario.spawned_commands
       (trace (snd (exec_step Posix.W 4 Scenario.cfg 1 ∅
                      (VDict Scenario.step_write_and_run) Scenario.st0))) = []
  /\ files (fs (snd (exec_step Posix.W 4 Scenario.cfg 1 ∅
                      (VDict Scenario.step_write_and_run) Scenario.st0)))
       !! "/srv/notes/log.txt" = Some "entry".
Proof.
  split; [|split; [|split; vm_compute; reflexivity]].
  - rewrite (proj1 (proj2 (proj1 (dispatch_precedence Posix.W 4 Scenario.cfg 1 ∅
                                    Scenario.step_clone_and_run Scenario.st0)
                             ∅ eq_refl eq_refl eq_refl))
               [("dest_unix", VStr "/srv/ws");
                ("repos", VList [VDict [("name", VStr "acme/svc")]])]
               "/srv/ws" "/srv/ws" [VDict [("name", VStr "acme/svc")]]
               eq_refl eq_refl eq_refl ltac:(discriminate) eq_refl eq_refl).
    vm_compute. reflexivity.
  - apply (proj1 (proj1 (proj2 (dispatch_precedence Posix.W 4 Scenario.cfg 1 ∅
                                  Scenario.step_write_and_run Scenario.st0))
                    Scenario.wf_block eq_refl)).
    intros k H1 H2. cbn.
    destruct (String.eqb_spec k "write_file"); [reflexivity|].
    destruct (String.eqb_spec k "run"); [contradiction | reflexivity].
Defined.
End DispatchFacts.
Module ErrorFacts.
Import Py Eff Platform Hooks Runner EffFacts StepFacts.

Lemma on_process_error_called {A} (h : exn -> M A) e :
  cls e = CalledProcessError -> on_process_error h e = Some (h e).
Proof. unfold on_process_error. now intros ->. Qed.

Lemma run_item_failure W coe sk cwd env itm e st st1 :
  safe_run_command W itm sk cwd (Some env) st = (Raise e, st1) ->
  cls e = CalledProcessError ->
  let st2 := printed st1 ("[ERROR] run item failed: " ++ msg e) in
  run_item W coe sk cwd env itm st
    = if coe then (Ok tt, printed st2 "continue_on_error=true -> continuing")
      else (Raise e, st2).
Proof.
  intros Hrun Hcls st2. unfold run_item.
  rewrite (try_except_Raise _ _ _ _ _ _ Hrun (on_process_error_called _ e Hcls)).
  rewrite (bind_Ok _ _ _ _ _ (print_printed _ st1)). now destruct coe.
Qed.

Lemma post_item_failure W coe sk name target env pitem e st st1 :
  post_command W sk target env pitem st = (Raise e, st1) ->
  cls e = CalledProcessError ->
  let st2 := printed st1 ("[ERROR] post_install failed for " ++ str name ++ ": " ++ msg e) in
  post_item W coe sk name target env pitem st
    = if coe then (Ok tt, st2) else (Raise e, st2).
Proof.
  intros Hrun Hcls st2. unfold post_item.
  rewrite (try_except_Raise _ _ _ _ _ _ Hrun (on_process_error_called _ e Hcls)).
  rewrite (bind_Ok _ _ _ _ _ (print_printed _ st1)). now destruct coe.
Qed.

Lemma clone_entry_failure W coe sk env dest dorg entry url name target e st st0 st1 :
  locate_entry W dest dorg entry st = (Ok (url, name, target), st0) ->
  clone_repo_to W url target st0 = (Raise e, st1) ->
  cls e = CalledProcessError ->
  let st2 := printed st1 ("[ERROR] git clone failed: " ++ msg e) in
  clone_entry W coe sk env dest dorg entry st
    = if coe then (Ok tt, st2) else (Raise e, st2).
Proof.
  intros Hloc Hrun Hcls st2. unfold clone_entry.
  rewrite (bind_Ok _ _ _ _ _ Hloc).
  assert (Hc : (clone_repo_to W url target ≫= fun _ => mret true) st0 = (Raise e, st1))
    by (now apply bind_Raise).
  assert (Ht : try_except (clone_repo_to W url target ≫= fun _ => mret true)
                 (on_process_error (fun e =>
                    print ("[ERROR] git clone failed: " ++ msg e);;
                    if coe then mret false else reraise e)) st0
               = if coe then (Ok false, st2) else (Raise e, st2)).
  { rewrite (try_except_Raise _ _ _ _ _ _ Hc (on_process_error_called _ e Hcls)).
    rewrite (bind_Ok _ _ _ _ _ (print_printed _ st1)). now destruct coe. }
  destruct coe.
  - now rewrite (bind_Ok _ _ _ _ _ Ht).
  - now rewrite (bind_Raise _ _ _ _ _ Ht).
Qed.

Lemma bind_congr {A B} (m m' : M A) (k : A -> M B) st st' :
  m st = m' st' -> (m ≫= k) st = (m' ≫= k) st'.
Proof. intros H. unfold mbind, eff_bind, bind. now rewrite H. Qed.

(** A loop whose first items went through is at the item after them. *)
Lemma for_each_at {A} (body : A -> M unit) pre x rest st st_p :
  for_each pre body st = (Ok tt, st_p) ->
  for_each (pre ++ x :: rest) body st = (body x ≫= fun _ => for_each rest body) st_p.
Proof.
  intros Hpre. rewrite for_each_app, (bind_Ok _ _ _ _ _ Hpre). apply for_each_cons.
Qed.

(** An entry that was cloned and whose [post_install] command fails. *)
Lemma clone_entry_post_failure W coe sk env dest dorg ed url name target
    ppre pitem prest e st st_l st_c st_q st1 :
  locate_entry W dest dorg (VDict ed) st = (Ok (url, name, target), st_l) ->
  clone_repo_to W url target st_l = (Ok tt, st_c) ->
  or_else (get ed "post_install") empty_list = VList (ppre ++ pitem :: prest) ->
  for_each ppre (post_item W coe sk name target env) st_c = (Ok tt, st_q) ->
  post_command W sk target env pitem st_q = (Raise e, st1) ->
  cls e = CalledProcessError ->
  let st2 := printed st1 ("[ERROR] post_install failed for " ++ str name ++ ": " ++ msg e) in
  clone_entry W coe sk env dest dorg (VDict ed) st
    = if coe then for_each prest (post_item W true sk name target env) st2
      else (Raise e, st2).
Proof.
  intros Hloc Hclone Hpost Hpre Hrun Hcls st2. unfold clone_entry.
  rewrite (bind_Ok _ _ _ _ _ Hloc).
  assert (Ht : try_except (clone_repo_to W url target ≫= fun _ => mret true)
                 (on_process_error (fun e =>
                    print ("[ERROR] git clone failed: " ++ msg e);;
                    if coe then mret false else reraise e)) st_l
               = (Ok true, st_c)).
  { unfold try_except. now rewrite (bind_Ok _ _ _ _ _ Hclone). }
  rewrite (bind_Ok _ _ _ _ _ Ht). cbn [dyn_get].
  rewrite (bind_Ok _ _ _ (get_or ed "post_install" VNone) _ eq_refl).
  change (get_or ed "post_install" VNone) with (get ed "post_install").
  rewrite Hpost. rewrite (bind_Ok _ _ _ (ppre ++ pitem :: prest)%list _ eq_refl).
  rewrite (for_each_at _ _ _ _ _ _ Hpre).
  pose proof (post_item_failure W coe sk name target env pitem e st_q st1 Hrun Hcls) as Hf.
  cbn zeta in Hf. destruct coe.
  - now rewrite (bind_Ok _ _ _ _ _ Hf).
  - now rewrite (bind_Raise _ _ _ _ _ Hf).
Qed.

(** The loop over the steps at a step that gets past its guard: the
    banner, the action of the step, then the steps after it. *)
Lemma run_steps_head W fuel c idx raw more d step_env st :
  Interp.deep_interpolate fuel raw (step_context (ctx c) (merged_env c)) = Some (VDict d) ->
  guard_passes (get d "when") (step_context (ctx c) (merged_env c)) st = (Ok true, st) ->
  merge_envs (merged_env c) [or_else (get_or d "env" empty_dict) empty_dict] st
    = (Ok step_env, st) ->
  run_steps W fuel c idx (raw :: more) st
    = ((match assoc "write_file" d with
        | Some wf => act_write_file W c wf
        | None =>
            match assoc "clone_repos" d with
            | Some cr =>
                act_clone_repos W fuel c (continues d) (step_shell c d) step_env
                  (step_context (ctx c) (merged_env c)) cr
            | None =>
                act_run W c (continues d) (step_shell c d) (step_cwd d) step_env
                  (assoc "run" d)
            end
        end) ≫= fun _ => run_steps W fuel c (S idx) more) (printed st (banner d idx)).
Proof.
  intros Hraw Hg He. unfold run_steps. cbn [for_enumerate].
  apply bind_congr. unfold run_step. rewrite Hraw.
  rewrite (bind_Ok _ _ st (VDict d) st eq_refl).
  now apply exec_step_action.
Qed.


End ErrorFacts.

Module OrderFacts.
Import Py Eff Platform Hooks Runner EffFacts.

Lemma stateless_elim {A} (m : M A) st r st' :
  stateless m -> m st = (r, st') -> st' = st.
Proof. intros Hm E. specialize (Hm st). now rewrite E in Hm. Qed.

Lemma stateless_bind {A B} (m : M A) (f : A -> M B) :
  stateless m -> (forall a, stateless (f a)) -> stateless (m ≫= f).
Proof.
  intros Hm Hf st. unfold mbind, eff_bind, bind. specialize (Hm st).
  destruct (m st) as [[a|e|] st1]; cbn in *; subst; auto. apply Hf.
Qed.

Lemma stateless_ret {A} (a : A) : stateless (mret a).
Proof. now intros st. Qed.

Lemma stateless_raise {A} c text : stateless (@raise A c text).
Proof. now intros st. Qed.

Lemma stateless_of_fuel {A} (o : option A) : stateless (of_fuel o).
Proof. intros st. now destruct o. Qed.

Lemma stateless_get_state : stateless get_state.
Proof. now intros st. Qed.

Create HintDb stateless.
#[export] Hint Resolve stateless_ret stateless_raise stateless_of_fuel stateless_get_state
  : stateless.

Ltac stateless :=
  repeat lazymatch goal with
    | |- stateless (mbind _ _) => apply stateless_bind; [|intros ?]
    | |- stateless (if ?b then _ else _) => destruct b
    | |- stateless (match ?x with _ => _ end) => destruct x
    | |- stateless _ => solve [auto with stateless]
    end.

Lemma stateless_dyn_get v k dflt : stateless (dyn_get v k dflt).
Proof. unfold dyn_get. stateless. Qed.

Lemma stateless_merge_envs first layers : stateless (merge_envs first layers).
Proof.
  revert first. induction layers as [|m l IH]; intros first; cbn [merge_envs]; stateless.
  unfold merge_layer. stateless.
Qed.

Lemma stateless_interpolate_env fuel c m : stateless (interpolate_env fuel c m).
Proof. unfold interpolate_env. stateless. Qed.

Lemma stateless_concat_steps a b : stateless (concat_steps a b).
Proof. unfold concat_steps. stateless. Qed.

Lemma stateless_build_ctx v o : stateless (build_ctx v o).
Proof. unfold build_ctx. stateless. Qed.

#[export] Hint Resolve stateless_dyn_get stateless_merge_envs stateless_interpolate_env
  stateless_concat_steps stateless_build_ctx : stateless.

Lemma dyn_get_dict d k dflt st b st' :
  dyn_get (VDict d) k dflt st = (Ok b, st') -> b = get_or d k dflt /\ st' = st.
Proof. unfold dyn_get. now intros [= <- <-]. Qed.

Ltac inv_bind H :=
  let a := fresh "a" in let s := fresh "s" in let E := fresh "E" in
  apply bind_Ok_inv in H as (a & s & E & H).

(** Peel one stateless statement off a successful run. *)
Ltac inv_pure H :=
  let a := fresh "a" in let s := fresh "s" in let E := fresh "E" in
  apply bind_Ok_inv in H as (a & s & E & H);
  lazymatch type of E with
  | ?m _ = _ =>
      let Hm := fresh "Hm" in
      assert (Hm : stateless m) by stateless;
      apply (stateless_elim m _ _ _ Hm) in E as ?; clear Hm; subst s
  end.

Lemma prepare_steps W fuel sd dry ov st c steps st1 :
  prepare W fuel (VDict sd) dry ov st = (Ok (c, steps), st1) ->
  exists os_entry common_steps os_steps,
    dyn_get (or_else (get_or sd "os" empty_dict) empty_dict) (os_key c) empty_dict st1
      = (Ok os_entry, st1)
    /\ dyn_get (or_else (get_or sd "common" empty_dict) empty_dict) "steps" empty_list st1
         = (Ok common_steps, st1)
    /\ dyn_get (or_else os_entry empty_dict) "steps" empty_list st1 = (Ok os_steps, st1)
    /\ concat_steps (or_else common_steps empty_list) (or_else os_steps empty_list) st1
         = (Ok steps, st1).
Proof.
  unfold prepare. intros H.
  inv_pure H. inv_bind H. inv_pure H. inv_bind H. do 2 inv_pure H.
  destruct a4 as [inputs_d ctx0].
  do 11 inv_pure H.
  injection H as <- <- <-. cbn [os_key].
  apply dyn_get_dict in E7 as [-> _]. apply dyn_get_dict in E12 as [-> _].
  eauto 10.
Qed.

Lemma run_steps_app W fuel c idx l1 l2 st :
  run_steps W fuel c idx (l1 ++ l2) st
    = (run_steps W fuel c idx l1 ≫= fun _ => run_steps W fuel c (idx + length l1) l2) st.
Proof. apply for_enumerate_app. Qed.

(** C9.  The steps [run_spec] executes are those of [common.steps]
    followed by those of [os.<key>.steps] for the active key, in the order
    of the document: the run is the run of the common steps, then the run
    of the OS steps numbered on from there, then the closing line. *)
Theorem steps_run_common_then_os W fuel sd dry ov st c steps st1 cd cs od kd os :
  prepare W fuel (VDict sd) dry ov st = (Ok (c, steps), st1) ->
  assoc "common" sd = Some (VDict cd) ->
  assoc "steps" cd = Some (VList cs) ->
  assoc "os" sd = Some (VDict od) ->
  assoc (os_key c) od = Some (VDict kd) ->
  assoc "steps" kd = Some (VList os) ->
  steps = (cs ++ os)%list
  /\ run_loaded W fuel (VDict sd) dry ov st
       = (run_steps W fuel c 1 cs ≫= fun _ =>
          run_steps W fuel c (1 + length cs) os ≫= fun _ =>
          print (newline ++ "All steps complete.")) st1.
Proof.
  intros Hp Hc Hcs Ho Hk Hos.
  destruct (prepare_steps _ _ _ _ _ _ _ _ _ Hp) as (oe & cv & ov' & E1 & E2 & E3 & E4).
  assert (Hne : forall d k v, assoc k d = Some v -> or_else (VDict d) empty_dict = VDict d).
  { intros d k v. destruct d; [discriminate | reflexivity]. }
  assert (Hl : forall l, or_else (VList l) empty_list = VList l) by (now intros []).
  unfold get_or in E1, E2. rewrite Ho in E1. rewrite Hc in E2. cbn [from_option id] in E1, E2.
  rewrite (Hne _ _ _ Hk) in E1. rewrite (Hne _ _ _ Hcs) in E2.
  apply dyn_get_dict in E1 as [-> _]. apply dyn_get_dict in E2 as [-> _].
  unfold get_or in E3, E4. rewrite Hk in E3. cbn [from_option id] in E3.
  rewrite (Hne _ _ _ Hos) in E3. apply dyn_get_dict in E3 as [-> _].
  unfold get_or in E4. rewrite Hcs, Hos in E4. cbn [from_option id] in E4. rewrite !Hl in E4.
  injection E4 as <-. split; [reflexivity|].
  unfold run_loaded. rewrite (bind_Ok _ _ _ _ _ Hp).
  unfold mbind, eff_bind, bind. rewrite run_steps_app.
  unfold mbind, eff_bind, bind.
  destruct (run_steps W fuel c 1 cs st1) as [[[]|e|] s1]; reflexivity.
Qed.

Lemma steps_run_common_then_os_witness :
  Scenario.spawned_commands
    (trace (snd (run_loaded Posix.W 4 Scenario.spec_order false []
                   (Posix.start [] "ubuntu"))))
  = [["/bin/bash"; "-lc"; "echo common1"]; ["/bin/bash"; "-lc"; "echo common2"];
     ["/bin/bash"; "-lc"; "echo ubuntu1"]; ["/bin/bash"; "-lc"; "echo ubuntu2"]].
Proof.
  unfold Scenario.spec_order.
  edestruct (steps_run_common_then_os Posix.W 4) as [_ ->].
  - vm_compute. reflexivity.
  - reflexivity.
  - reflexivity.
  - reflexivity.
  - reflexivity.
  - reflexivity.
  - vm_compute. reflexivity.
Defined.
End OrderFacts.

Module GuardAbsent.
Import Py Eff Platform Hooks Runner.

(** C1 (the code lacks the guard): the workspace root of the document
    exists, and the run still prints the step banner, spawns the step's
    command and ends with exit status 0. *)
Theorem workspace_root_guard_missing :
  let W := Posix.world_of Scenario.load_workspace in
  let r := run_spec W 4 "/tmp/spec.yaml" false [] Scenario.st_workspace in
  path_exists (fs Scenario.st_workspace)
      (expanduser W (<["HOME" := Posix.home]> ∅) "~/dev/workspace") = true
  /\ fst r = Ok tt
  /\ exit_status (fst r) = Some 0%Z
  /\ Scenario.printed_lines (trace (snd r))
       = [newline ++ "--- [Dummy step] ---"; newline ++ "All steps complete."]
  /\ Scenario.spawned_commands (trace (snd r))
       = [["/bin/bash"; "-lc"; "echo should-not-run"]].
Proof. vm_compute. repeat split; reflexivity. Qed.
End GuardAbsent.

(* ===================================================================== *)
(** ** Further facts about interpolation *)

Module UntouchedFacts.
Import Py Interp StrFacts ReFacts InterpFacts.

#[local] Arguments String.append : simpl nomatch.

Lemma search_none_without_braces pat s :
  takes_brace pat -> braces s = 0 -> Re.search pat s = None.
Proof.
  intros Hpat Hs. destruct (Re.search pat s) as [[[pre caps] rest]|] eqn:E; [|reflexivity].
  apply search_split in E as (tail & -> & Hm).
  apply Hpat in Hm as (mid & -> & Hmid).
  unfold braces in *. rewrite !count_app in Hs. lia.
Qed.

Lemma interpolate_string_untouched fuel s ctx :
  braces s = 0 -> interpolate_string (S fuel) s ctx = Some s.
Proof.
  intros Hs. unfold interpolate_string, VAR_PATTERNS. cbn [subst_all subst_loop].
  rewrite (search_none_without_braces _ _ takes_brace_braces Hs).
  now rewrite (search_none_without_braces _ _ takes_brace_dollar Hs).
Qed.

(** X1.  A value none of whose strings has an opening brace comes back
    from [deep_interpolate] as it went in, whatever the context holds:
    one evaluation of each search is all it takes. *)
Theorem brace_less_unchanged fuel ctx v :
  brace_less v = true -> deep_interpolate (S fuel) v ctx = Some v.
Proof.
  induction v as [| b | z | s | l IH | d IH] using value_nested_ind;
    cbn [deep_interpolate brace_less]; intros Hv; try reflexivity.
  - apply Nat.eqb_eq in Hv. now rewrite (interpolate_string_untouched fuel s ctx Hv).
  - match goal with |- option_map _ (?f l) = _ => set (elems := f) end.
    assert (elems l = Some l) as ->; [|reflexivity].
    induction IH as [|x l Hx _ IHl]; cbn in *; [reflexivity|].
    apply andb_true_iff in Hv as [Hx' Hl]. rewrite (Hx Hx'). fold elems.
    now rewrite (IHl Hl).
  - match goal with |- option_map _ (?f d) = _ => set (items := f) end.
    assert (items d = Some d) as ->; [|reflexivity].
    induction IH as [|[k x] d Hx _ IHd]; cbn in *; [reflexivity|].
    apply andb_true_iff in Hv as [Hx' Hd]. rewrite (Hx Hx'). fold items.
    now rewrite (IHd Hd).
Qed.

Lemma brace_less_unchanged_witness :
  deep_interpolate 1 (VDict [("name", VStr "build"); ("retries", VInt 3);
                             ("run", VList [VStr "make -j4 $TARGET"; VStr "echo }} done"])])
      Scenario.ctx_self
  = Some (VDict [("name", VStr "build"); ("retries", VInt 3);
                 ("run", VList [VStr "make -j4 $TARGET"; VStr "echo }} done"])]).
Proof. apply (brace_less_unchanged 0 Scenario.ctx_self). reflexivity. Defined.

End UntouchedFacts.

(* ===================================================================== *)
(** ** Overrides and environment layers *)

Module EnvFacts.
Import Py Eff Platform Hooks Runner EffFacts.

#[local] Arguments String.append : simpl nomatch.

Lemma split_first_app (k v : string) :
  Str.count (Str.is_char "=") k = 0 ->
  Str.split_first "=" (k ++ String "=" v) = Some (k, v).
Proof.
  induction k as [|c k IH]; intros H.
  - cbn. reflexivity.
  - change (String c k ++ String "=" v) with (String c (k ++ String "=" v)).
    cbn [Str.split_first Str.count] in *. unfold Str.is_char in H at 1.
    rewrite (Ascii.eqb_sym "=" c) in H.
    destruct (Ascii.eqb c "="); [discriminate|]. now rewrite (IH H).
Qed.

Lemma split_first_none (kv : string) :
  Str.contains "=" kv = false -> Str.split_first "=" kv = None.
Proof.
  induction kv as [|c kv IH]; intros H; [reflexivity|].
  cbn [Str.contains Str.split_first] in *.
  apply orb_false_iff in H as [Hc Hkv]. rewrite (IH Hkv).
  destruct (Ascii.eqb_spec c "=") as [->|]; [|reflexivity].
  unfold String.prefix in Hc.
  destruct (ascii_dec "=" "=") as [_|n] in Hc; [destruct kv; discriminate | now destruct n].
Qed.

Lemma parse_overrides_snoc l kv :
  parse_overrides (l ++ [kv])
    = match Str.split_first "=" kv with
      | Some (k, v) =>
          <[Str.strip Str.is_space k := Str.strip Str.is_space v]> (parse_overrides l)
      | None => parse_overrides l
      end.
Proof. unfold parse_overrides. now rewrite fold_left_app. Qed.

(** X2.  [parse_overrides] cuts each item at its first [=], so the value
    may hold further [=] signs; key and value are stripped of white space;
    the last item for a key wins and leaves the other keys alone; an item
    without [=] changes nothing, wherever it stands. *)
Theorem parse_overrides_last_wins (l : list string) (k v : string) :
  Str.count (Str.is_char "=") k = 0 ->
  let out := parse_overrides (l ++ [k ++ String "=" v]) in
  out !! Str.strip Str.is_space k = Some (Str.strip Str.is_space v)
  /\ (forall j, j <> Str.strip Str.is_space k -> out !! j = parse_overrides l !! j)
  /\ (forall l2 junk, Str.contains "=" junk = false ->
        parse_overrides (l ++ junk :: l2) = parse_overrides (l ++ l2)).
Proof.
  intros Hk out. subst out. rewrite parse_overrides_snoc, (split_first_app k v Hk).
  repeat split.
  - apply lookup_insert_eq.
  - intros j Hj. now apply lookup_insert_ne.
  - intros l2 junk Hjunk. unfold parse_overrides.
    rewrite !fold_left_app. cbn [fold_left]. now rewrite (split_first_none junk Hjunk).
Qed.

Lemma parse_overrides_last_wins_witness :
  parse_overrides ["URL=first"; "verbose"; " URL = https://host/?a=b "] !! "URL"
    = Some "https://host/?a=b".
Proof.
  exact (proj1 (parse_overrides_last_wins ["URL=first"; "verbose"] " URL "
                  " https://host/?a=b " eq_refl)).
Defined.

Lemma fold_insert_lookup (d : list (string * value)) : forall (out : gmap string string) k,
  fold_left (fun o kv => <[fst kv := str (snd kv)]> o) d out !! k
    = match assoc_last k d with
      | Some v => Some (str v)
      | None => out !! k
      end.
Proof.
  induction d as [|[k' v] d IH]; intros out k; cbn [fold_left assoc_last fst snd];
    [reflexivity|].
  rewrite IH. destruct (assoc_last k d); [reflexivity|].
  destruct (String.eqb_spec k k') as [->|Hne].
  - apply lookup_insert_eq.
  - now apply lookup_insert_ne.
Qed.

Lemma merge_layer_dict out d st :
  merge_layer out (VDict d) st
    = (Ok (fold_left (fun o kv => <[fst kv := str (snd kv)]> o) d out), st).
Proof. unfold merge_layer. now destruct d. Qed.

(** X3.  [merge_envs] over two mappings never fails and leaves the state
    alone; in its result a name is bound to the printed value of its last
    binding in the last mapping that has it, and to the first map's value
    when neither has it: later layers override earlier ones. *)
Theorem merge_envs_layers (first : gmap string string) (d1 d2 : list (string * value)) st :
  exists out,
    merge_envs first [VDict d1; VDict d2] st = (Ok out, st)
    /\ forall k,
         out !! k = match assoc_last k d2 with
                    | Some v => Some (str v)
                    | None =>
                        match assoc_last k d1 with
                        | Some v => Some (str v)
                        | None => first !! k
                        end
                    end.
Proof.
  eexists. split.
  - cbn [merge_envs]. rewrite (bind_Ok _ _ _ _ _ (merge_layer_dict first d1 st)).
    rewrite (bind_Ok _ _ _ _ _ (merge_layer_dict _ d2 st)). reflexivity.
  - intros k. rewrite fold_insert_lookup. destruct (assoc_last k d2); [reflexivity|].
    apply fold_insert_lookup.
Qed.

Lemma merge_layer_good out v st :
  truthy v = false \/ (exists d, v = VDict d) ->
  exists out', merge_layer out v st = (Ok out', st).
Proof.
  intros [Hf | [d ->]].
  - unfold merge_layer. rewrite Hf. now eexists.
  - eexists. apply merge_layer_dict.
Qed.

(** X4.  A layer that is neither empty nor a mapping (a list or a string
    under [env:], say) makes [merge_envs] raise [AttributeError] once the
    layers before it, empty ones and mappings, are merged; the layers after
    it are not looked at and the state is as before. *)
Theorem merge_envs_bad_layer (good : list value) (m : value) (rest : list value) :
  Forall (fun v => truthy v = false \/ exists d, v = VDict d) good ->
  truthy m = true ->
  (forall d, m <> VDict d) ->
  forall (first : gmap string string) st,
  exists text,
    merge_envs first (good ++ m :: rest)%list st = (Raise (Exn AttributeError text), st).
Proof.
  intros Hgood Ht Hm. induction Hgood as [|v good Hv _ IH]; intros first st.
  - cbn [merge_envs app]. eexists. apply bind_Raise.
    unfold merge_layer. rewrite Ht. cbn [negb].
    destruct m; try reflexivity. now destruct (Hm d).
  - destruct (merge_layer_good first v st Hv) as [out Hout].
    destruct (IH out st) as [text Htext]. exists text.
    change ((v :: good) ++ m :: rest)%list with (v :: (good ++ m :: rest))%list.
    cbn [merge_envs]. now rewrite (bind_Ok _ _ _ _ _ Hout).
Qed.

Lemma merge_envs_bad_layer_witness :
  exists text,
    merge_envs ∅ [VDict [("A", VStr "1")]; VNone; VList [VStr "B=2"]; VDict [("C", VStr "3")]]
        Scenario.st0
      = (Raise (Exn AttributeError text), Scenario.st0).
Proof.
  apply (merge_envs_bad_layer [VDict [("A", VStr "1")]; VNone] (VList [VStr "B=2"])
           [VDict [("C", VStr "3")]]).
  - constructor; [right; now eexists | constructor; [left; reflexivity | constructor]].
  - reflexivity.
  - discriminate.
Defined.

End EnvFacts.

(* ===================================================================== *)
(** ** The guard grammar *)

Module StripFacts.
Import Interp StrFacts TemplateFacts.

#[local] Arguments String.append : simpl nomatch.

Lemma rev_onto_app s acc : Str.rev_onto s acc = Str.rev s ++ acc.
Proof.
  unfold Str.rev. revert acc. induction s as [|c s IH]; intros acc; cbn [Str.rev_onto].
  - reflexivity.
  - rewrite (IH (String c acc)), (IH (String c "")). now rewrite app_assoc.
Qed.

Lemma rev_cons c s : Str.rev (String c s) = Str.rev s ++ String c "".
Proof. unfold Str.rev at 1. cbn [Str.rev_onto]. apply rev_onto_app. Qed.

Lemma rev_app a b : Str.rev (a ++ b) = Str.rev b ++ Str.rev a.
Proof.
  induction a as [|c a IH].
  - cbn. now rewrite app_nil_r.
  - change (String c a ++ b) with (String c (a ++ b)).
    now rewrite !rev_cons, IH, app_assoc.
Qed.

Lemma rev_involutive s : Str.rev (Str.rev s) = s.
Proof.
  induction s as [|c s IH]; [reflexivity|].
  rewrite rev_cons, rev_app, IH. reflexivity.
Qed.

Lemma forallb_rev q s : Str.forallb q (Str.rev s) = Str.forallb q s.
Proof.
  induction s as [|c s IH]; [reflexivity|].
  rewrite rev_cons, forallb_app, IH. cbn. rewrite andb_true_r. apply andb_comm.
Qed.

Lemma lstrip_outside p s : starts_outside p s = true -> Str.lstrip p s = s.
Proof. destruct s as [|c s]; cbn; [reflexivity|]. now intros ->%negb_true_iff. Qed.

Lemma forallb_starts_outside p s :
  Str.forallb (fun c => negb (p c)) s = true -> starts_outside p s = true.
Proof. destruct s as [|c s]; cbn; [reflexivity|]. now intros [-> _]%andb_true_iff. Qed.

Lemma rstrip_none p s :
  Str.forallb (fun c => negb (p c)) s = true -> Str.rstrip p s = s.
Proof.
  intros H. unfold Str.rstrip. rewrite lstrip_outside, rev_involutive; [reflexivity|].
  apply forallb_starts_outside. now rewrite forallb_rev.
Qed.

Lemma rstrip_snoc p s q : p q = true -> Str.rstrip p (s ++ String q "") = Str.rstrip p s.
Proof.
  intros Hq. unfold Str.rstrip. rewrite rev_app. cbn [Str.rev Str.rev_onto String.append].
  cbn [Str.lstrip]. now rewrite Hq.
Qed.

(** Text without characters of the class is its own [strip]. *)
Lemma strip_none p s :
  Str.forallb (fun c => negb (p c)) s = true -> Str.strip p s = s.
Proof.
  intros H. unfold Str.strip.
  rewrite (lstrip_outside p s (forallb_starts_outside p s H)). now apply rstrip_none.
Qed.

(** [strip] takes a pair of quotes off a text that has none inside. *)
Lemma strip_quoted p q s :
  p q = true -> Str.forallb (fun c => negb (p c)) s = true ->
  Str.strip p (String q (s ++ String q "")) = s.
Proof.
  intros Hq Hs. unfold Str.strip. cbn [Str.lstrip]. rewrite Hq.
  destruct s as [|c s].
  - cbn [String.append Str.lstrip]. rewrite Hq. reflexivity.
  - rewrite lstrip_outside.
    + rewrite rstrip_snoc by exact Hq. now apply rstrip_none.
    + cbn in Hs |- *. now apply andb_true_iff in Hs as [-> _].
Qed.

(** [strip] leaves a text alone whose first and last characters are
    outside the class. *)
Lemma strip_ends p q s :
  p q = false -> Str.strip p (String q (s ++ String q "")) = String q (s ++ String q "").
Proof.
  intros Hq. unfold Str.strip. cbn [Str.lstrip]. rewrite Hq.
  unfold Str.rstrip.
  change (String q (s ++ String q "")) with (String q s ++ String q "").
  rewrite rev_app. change (Str.rev (String q "")) with (String q "").
  change (String q "" ++ Str.rev (String q s)) with (String q (Str.rev (String q s))).
  cbn [Str.lstrip]. rewrite Hq. now rewrite rev_cons, rev_involutive.
Qed.

(** [strip] takes off a layer of the class at both ends and goes on. *)
Lemma strip_layer p q s :
  p q = true -> Str.strip p (String q (s ++ String q "")) = Str.strip p s.
Proof.
  intros Hq. unfold Str.strip. cbn [Str.lstrip]. rewrite Hq.
  induction s as [|c s IH].
  - cbn [String.append Str.lstrip]. now rewrite Hq.
  - change (String c s ++ String q "") with (String c (s ++ String q "")).
    cbn [Str.lstrip]. destruct (p c) eqn:Hc; [exact IH|].
    change (String c (s ++ String q "")) with (String c s ++ String q "").
    now apply rstrip_snoc.
Qed.

(** [strip] leaves a text alone that neither starts nor ends in the
    class. *)
Lemma strip_outside_ends p s :
  starts_outside p s = true -> starts_outside p (Str.rev s) = true -> Str.strip p s = s.
Proof.
  intros H1 H2. unfold Str.strip, Str.rstrip.
  now rewrite (lstrip_outside p s H1), (lstrip_outside p _ H2), rev_involutive.
Qed.

End StripFacts.

Module GuardGrammar.
Import Py Interp Runner StrFacts ReFacts TemplateFacts StripFacts.

#[local] Arguments String.append : simpl nomatch.

(** A lazy plus reads a whole run when its continuation refuses every
    text that starts with a character of the run. *)
Lemma plus_lazy_reads {R} p h t rest (k : string -> option R) r :
  t <> "" ->
  Str.forallb (fun c => p c && h c) t = true ->
  (forall c s, h c = true -> k (String c s) = None) ->
  k rest = Some r ->
  Re.plus_lazy p (t ++ rest) k = Some r.
Proof.
  intros Hne Ht Hk Hr. induction t as [|c t IH]; [congruence|].
  cbn [Str.forallb] in Ht. apply andb_true_iff in Ht as [Hc Ht].
  apply andb_true_iff in Hc as [Hp Hh].
  change (String c t ++ rest) with (String c (t ++ rest)). cbn [Re.plus_lazy]. rewrite Hp.
  destruct t as [|d t].
  - cbn [String.append]. now rewrite Hr.
  - change (String d t ++ rest) with (String d (t ++ rest)).
    rewrite Hk.
    + change (String d (t ++ rest)) with (String d t ++ rest). apply IH; [discriminate | exact Ht].
    + cbn [Str.forallb] in Ht. apply andb_true_iff in Ht as [Hd _].
      now apply andb_true_iff in Hd as [_ ->].
Qed.

Lemma solid_not_space c : solid c = true -> Str.is_space c = false.
Proof. unfold solid. intros [H _]%andb_true_iff. now apply negb_true_iff. Qed.

Lemma solid_dot c : solid c = true -> Str.is_dot c = true.
Proof. unfold solid. now intros [_ H]%andb_true_iff. Qed.

Lemma operator_outside negated rest p :
  p "="%char = false -> p "!"%char = false ->
  starts_outside p (operator negated ++ rest) = true.
Proof. intros H1 H2. destruct negated; cbn; now rewrite ?H1, ?H2. Qed.

(** The guard pattern on a comparison: name, operator and value, with
    white space around each. *)
Lemma match_guard ws0 name ws1 negated ws2 t ws3 :
  Str.forallb Str.is_space ws0 = true ->
  is_ident name = true ->
  Str.forallb Str.is_space ws1 = true ->
  Str.forallb Str.is_space ws2 = true ->
  t <> "" -> Str.forallb solid t = true ->
  Str.forallb Str.is_space ws3 = true ->
  Re.match_here pat_when (ws0 ++ name ++ ws1 ++ operator negated ++ ws2 ++ t ++ ws3)
    = Some ([name; operator negated; t], "").
Proof.
  intros H0 Hn H1 H2 Hne Ht H3.
  assert (Hhead : starts_outside Str.is_space (t ++ ws3) = true).
  { destruct t as [|c t]; [congruence|]. cbn in Ht |- *.
    apply andb_true_iff in Ht as [Hc _]. now rewrite (solid_not_space c Hc). }
  unfold Re.match_here, pat_when. cbn [Re.cat Re.run].
  apply star_greedy_all; [exact H0 | |].
  { destruct name as [|c name]; [discriminate|]. cbn in Hn |- *.
    apply andb_true_iff in Hn as [Hc _]. now rewrite (ident_start_not_space c Hc). }
  apply ident_group_reads; [exact Hn | |].
  { apply starts_outside_app; [now apply spaces_start_outside_ident|].
    now apply operator_outside. }
  apply star_greedy_all; [exact H1 | now apply operator_outside |].
  assert (Hval :
    Re.star_greedy Str.is_space (ws2 ++ t ++ ws3)
      (fun s' =>
         Re.plus_lazy Str.is_dot s'
           (fun s'0 =>
              Re.star_greedy Str.is_space s'0
                (fun s'1 =>
                   if Re.at_eol s'1
                   then Some
                          ((([] ++ [name]) ++
                            [Str.take
                               (String.length (operator negated ++ ws2 ++ t ++ ws3)
                                - String.length (ws2 ++ t ++ ws3))
                               (operator negated ++ ws2 ++ t ++ ws3)]) ++
                           [Str.take (String.length s' - String.length s'0) s'], s'1)%list
                   else None)))
    = Some ([name; operator negated; t], "")).
  { apply star_greedy_all; [exact H2 | exact Hhead |].
    apply (plus_lazy_reads Str.is_dot solid); [exact Hne | | |].
    - clear -Ht. induction t as [|c t IH]; [reflexivity|].
      cbn in Ht |- *. apply andb_true_iff in Ht as [Hc Ht].
      now rewrite Hc, (solid_dot c Hc), (IH Ht).
    - intros c s Hc. cbn [Re.star_greedy]. rewrite (solid_not_space c Hc).
      destruct s; cbn [Re.at_eol]; [|reflexivity].
      apply solid_dot in Hc. unfold Str.is_dot in Hc.
      apply negb_true_iff in Hc. now rewrite Hc.
    - rewrite <- (app_nil_r ws3) at 1.
      apply star_greedy_all; [exact H3 | reflexivity |].
      cbn [Re.at_eol]. rewrite !take_app_length. reflexivity. }
  destruct negated; cbn [operator] in *.
  - change ("!=" ++ ws2 ++ t ++ ws3) with (String "!" (String "=" (ws2 ++ t ++ ws3))) at 1 2.
    cbn [Re.skip Ascii.eqb Bool.eqb]. cbn [Re.skip]. exact Hval.
  - change ("==" ++ ws2 ++ t ++ ws3) with (String "=" (String "=" (ws2 ++ t ++ ws3))) at 1.
    cbn [Re.skip Ascii.eqb Bool.eqb]. cbn [Re.skip]. now rewrite Hval.
Qed.

Lemma bare_solid t : Str.forallb bare t = true -> Str.forallb solid t = true.
Proof.
  induction t as [|c t IH]; [reflexivity|]. cbn [Str.forallb].
  intros [Hc Ht]%andb_true_iff. rewrite (IH Ht), andb_true_r.
  unfold bare in Hc. now apply andb_true_iff in Hc as [[-> _]%andb_true_iff _].
Qed.

Lemma bare_outside (p : ascii -> bool) t :
  (forall c, bare c = true -> p c = false) ->
  Str.forallb bare t = true -> Str.forallb (fun c => negb (p c)) t = true.
Proof.
  intros Hp. induction t as [|c t IH]; [reflexivity|]. cbn [Str.forallb].
  intros [Hc Ht]%andb_true_iff. now rewrite (Hp c Hc), (IH Ht).
Qed.

Lemma bare_not_space c : bare c = true -> Str.is_space c = false.
Proof.
  unfold bare. intros [[H _]%andb_true_iff _]%andb_true_iff. now apply solid_not_space.
Qed.

Lemma bare_not_quote c : bare c = true -> Str.is_char "'" c = false.
Proof.
  unfold bare. intros [[_ H]%andb_true_iff _]%andb_true_iff. now apply negb_true_iff.
Qed.

Lemma bare_not_dquote c : bare c = true -> Str.is_char dquote c = false.
Proof. unfold bare. intros [_ H]%andb_true_iff. now apply negb_true_iff. Qed.

Lemma operator_eqb negated : String.eqb (operator negated) "==" = negb negated.
Proof. now destruct negated. Qed.

Lemma compare_cases negated actual val :
  (if negb negated then String.eqb actual val else negb (String.eqb actual val))
    = compare negated actual val.
Proof. now destruct negated. Qed.

Lemma guard_compares_aux name negated t (ctx : gmap string value) :
  is_ident name = true ->
  t <> "" -> Str.forallb bare t = true ->
  cond_ok (name ++ operator negated ++ t) ctx = compare negated (ctx_str ctx name) t.
Proof.
  intros Hn Hne Ht. unfold cond_ok.
  pose proof (match_guard "" name "" negated "" t "" eq_refl Hn eq_refl eq_refl Hne
                (bare_solid t Ht) eq_refl) as Hm.
  cbn [String.append] in Hm. rewrite app_nil_r in Hm. rewrite Hm.
  cbn [nth].
  rewrite (strip_none Str.is_space t (bare_outside _ t bare_not_space Ht)).
  rewrite (strip_none (Str.is_char dquote) t (bare_outside _ t bare_not_dquote Ht)).
  rewrite (strip_none (Str.is_char "'") t (bare_outside _ t bare_not_quote Ht)).
  rewrite operator_eqb. apply compare_cases.
Qed.

(** X5.  A guard that reads name, [==] or [!=], and a value without white
    space, line feeds and quotes, with any white space around the three,
    is true exactly when the printed context value of the name (the empty
    string when the name is not bound) equals the value, respectively
    differs from it. *)
Theorem guard_compares ws0 name ws1 negated ws2 t ws3 (ctx : gmap string value) :
  Str.forallb Str.is_space ws0 = true ->
  is_ident name = true ->
  Str.forallb Str.is_space ws1 = true ->
  Str.forallb Str.is_space ws2 = true ->
  t <> "" -> Str.forallb bare t = true ->
  Str.forallb Str.is_space ws3 = true ->
  cond_ok (ws0 ++ name ++ ws1 ++ operator negated ++ ws2 ++ t ++ ws3) ctx
    = compare negated (ctx_str ctx name) t.
Proof.
  intros H0 Hn H1 H2 Hne Ht H3. unfold cond_ok.
  rewrite (match_guard ws0 name ws1 negated ws2 t ws3 H0 Hn H1 H2 Hne (bare_solid t Ht) H3).
  cbn [nth].
  rewrite (strip_none Str.is_space t (bare_outside _ t bare_not_space Ht)).
  rewrite (strip_none (Str.is_char dquote) t (bare_outside _ t bare_not_dquote Ht)).
  rewrite (strip_none (Str.is_char "'") t (bare_outside _ t bare_not_quote Ht)).
  rewrite operator_eqb. apply compare_cases.
Qed.

Lemma guard_compares_witness :
  cond_ok "  OS  !=  windows  " (ctx Scenario.cfg) = true.
Proof.
  refine (guard_compares "  " "OS" "  " true "  " "windows" "  " (ctx Scenario.cfg)
            eq_refl eq_refl eq_refl eq_refl _ eq_refl eq_refl).
  discriminate.
Defined.

(** A lazy plus reads up to the last character of a text when its
    continuation refuses whatever still has a character outside the class
    [h] in it. *)
Lemma plus_lazy_to_last {R} p h t c rest (k : string -> option R) r :
  Str.forallb p t = true ->
  p c = true ->
  h c = false ->
  (forall s, Str.forallb h s = false -> k s = None) ->
  k rest = Some r ->
  Re.plus_lazy p (t ++ String c rest) k = Some r.
Proof.
  intros Ht Hp Hh Hk Hr. induction t as [|x t IH].
  - cbn [String.append Re.plus_lazy]. now rewrite Hp, Hr.
  - cbn [Str.forallb] in Ht. apply andb_true_iff in Ht as [Hx Ht].
    change (String x t ++ String c rest) with (String x (t ++ String c rest)).
    cbn [Re.plus_lazy]. rewrite Hx, Hk; [now apply IH|].
    rewrite forallb_app. cbn [Str.forallb]. rewrite Hh. apply andb_false_r.
Qed.

(** White space and the end of the text cannot be all that is left while
    a character that is no white space is still to come. *)
Lemma star_eol_refuses {R} (f : string -> R) s :
  Str.forallb Str.is_space s = false ->
  Re.star_greedy Str.is_space s (fun s1 => if Re.at_eol s1 then Some (f s1) else None) = None.
Proof.
  induction s as [|c s IH]; [discriminate|]. cbn [Str.forallb Re.star_greedy].
  destruct (Str.is_space c) eqn:Hc; cbn [andb].
  - intros Hs. rewrite (IH Hs). destruct s as [|d s]; [discriminate | reflexivity].
  - intros _. destruct s as [|d s]; [|reflexivity]. cbn [Re.at_eol].
    destruct (Str.code c =? 10)%N eqn:E; [|reflexivity].
    unfold Str.is_space, Str.in_range in Hc. apply N.eqb_eq in E. rewrite E in Hc.
    discriminate.
Qed.

(** The guard pattern on a comparison whose value may have white space
    inside: it ends with a character that is no white space, and has no
    line feed. *)
Lemma match_guard_value ws0 name ws1 negated ws2 t c ws3 :
  Str.forallb Str.is_space ws0 = true ->
  is_ident name = true ->
  Str.forallb Str.is_space ws1 = true ->
  Str.forallb Str.is_space ws2 = true ->
  Str.forallb Str.is_dot t = true ->
  Str.is_dot c = true ->
  Str.is_space c = false ->
  starts_outside Str.is_space (t ++ String c "") = true ->
  Str.forallb Str.is_space ws3 = true ->
  Re.match_here pat_when
      (ws0 ++ name ++ ws1 ++ operator negated ++ ws2 ++ (t ++ String c "") ++ ws3)
    = Some ([name; operator negated; t ++ String c ""], "").
Proof.
  intros H0 Hn H1 H2 Ht Hcd Hcs Hstart H3.
  set (val := t ++ String c "").
  assert (Hhead : starts_outside Str.is_space (val ++ ws3) = true).
  { subst val. destruct t as [|x t]; cbn in Hstart |- *; exact Hstart. }
  unfold Re.match_here, pat_when. cbn [Re.cat Re.run].
  apply star_greedy_all; [exact H0 | |].
  { destruct name as [|x name]; [discriminate|]. cbn in Hn |- *.
    apply andb_true_iff in Hn as [Hx _]. now rewrite (ident_start_not_space x Hx). }
  apply ident_group_reads; [exact Hn | |].
  { apply starts_outside_app; [now apply spaces_start_outside_ident|].
    now apply operator_outside. }
  apply star_greedy_all; [exact H1 | now apply operator_outside |].
  assert (Hval :
    Re.star_greedy Str.is_space (ws2 ++ val ++ ws3)
      (fun s' =>
         Re.plus_lazy Str.is_dot s'
           (fun s'0 =>
              Re.star_greedy Str.is_space s'0
                (fun s'1 =>
                   if Re.at_eol s'1
                   then Some
                          ((([] ++ [name]) ++
                            [Str.take
                               (String.length (operator negated ++ ws2 ++ val ++ ws3)
                                - String.length (ws2 ++ val ++ ws3))
                               (operator negated ++ ws2 ++ val ++ ws3)]) ++
                           [Str.take (String.length s' - String.length s'0) s'], s'1)%list
                   else None)))
    = Some ([name; operator negated; val], "")).
  { apply star_greedy_all; [exact H2 | exact Hhead |].
    assert (Hsplit : val ++ ws3 = t ++ String c ws3).
    { subst val. now rewrite app_assoc. }
    rewrite Hsplit at 1.
    apply (plus_lazy_to_last Str.is_dot Str.is_space); [exact Ht | exact Hcd | exact Hcs | |].
    - intros s Hs. now apply star_eol_refuses.
    - rewrite <- (app_nil_r ws3) at 1.
      apply star_greedy_all; [exact H3 | reflexivity |].
      cbn [Re.at_eol]. rewrite !take_app_length. reflexivity. }
  destruct negated; cbn [operator] in *.
  - change ("!=" ++ ws2 ++ val ++ ws3) with (String "!" (String "=" (ws2 ++ val ++ ws3)))
      at 1 2.
    cbn [Re.skip Ascii.eqb Bool.eqb]. cbn [Re.skip]. exact Hval.
  - change ("==" ++ ws2 ++ val ++ ws3) with (String "=" (String "=" (ws2 ++ val ++ ws3)))
      at 1.
    cbn [Re.skip Ascii.eqb Bool.eqb]. cbn [Re.skip]. now rewrite Hval.
Qed.



Lemma step_context_str (ctx : gmap string value) (env : gmap string string) name :
  ctx_str (step_context ctx env) name
    = match env !! name with
      | Some a => a
      | None => ctx_str ctx name
      end.
Proof.
  unfold ctx_str, step_context. rewrite lookup_union, lookup_fmap.
  destruct (env !! name) as [a|]; cbn.
  - now destruct (ctx !! name).
  - now destruct (ctx !! name).
Qed.

(** X7.  In the context a step is read in, the merged environment comes
    before the inputs, the overrides and the injected [OS]: when the
    environment has a variable of the guard's name, the guard compares
    with that variable, whatever the context binds the name to. *)
Theorem guard_reads_environment_first name negated t
    (ctx : gmap string value) (env : gmap string string) a :
  is_ident name = true ->
  t <> "" -> Str.forallb bare t = true ->
  env !! name = Some a ->
  cond_ok (name ++ operator negated ++ t) (step_context ctx env) = compare negated a t.
Proof.
  intros Hn Hne Ht Ha.
  pose proof (guard_compares_aux name negated t (step_context ctx env) Hn Hne Ht) as H.
  rewrite H, step_context_str, Ha. reflexivity.
Qed.

Lemma guard_reads_environment_first_witness :
  cond_ok "OS==ubuntu"
    (step_context (ctx Scenario.cfg) (<["OS" := "Windows_NT"]> ∅)) = false.
Proof.
  refine (guard_reads_environment_first "OS" false "ubuntu" (ctx Scenario.cfg)
            (<["OS" := "Windows_NT"]> ∅) "Windows_NT" eq_refl _ eq_refl eq_refl).
  discriminate.
Defined.

End GuardGrammar.

(* ===================================================================== *)
(** ** Dry runs *)

Module DryRunFacts.
Import Py Eff Platform Hooks Runner EffFacts.

Lemma inert_silent {A} (m : M A) : (forall st, snd (m st) = st) -> inert m.
Proof.
  intros H st. exists []. rewrite H, app_nil_r. split; [now destruct st | constructor].
Qed.

Lemma inert_bind {A B} (m : M A) (f : A -> M B) :
  inert m -> (forall a, inert (f a)) -> inert (m ≫= f).
Proof.
  intros Hm Hf st. unfold mbind, eff_bind, bind.
  destruct (Hm st) as (o1 & E1 & F1).
  destruct (m st) as [[a|e|] st1]; cbn in *; try (exists o1; now split).
  destruct (Hf a st1) as (o2 & E2 & F2).
  exists (o1 ++ o2)%list. rewrite E2, E1. cbn. rewrite app_assoc. split; [reflexivity|].
  apply Forall_app; auto.
Qed.

Lemma inert_print text : inert (print text).
Proof. intros st. exists [Print text]. split; [reflexivity | repeat constructor]. Qed.

Lemma inert_ret {A} (a : A) : inert (mret a).
Proof. now apply inert_silent. Qed.

Lemma inert_raise {A} c text : inert (@raise A c text).
Proof. now apply inert_silent. Qed.

Lemma inert_of_fuel {A} (o : option A) : inert (of_fuel o).
Proof. apply inert_silent. intros st. now destruct o. Qed.

Lemma inert_get_state : inert get_state.
Proof. now apply inert_silent. Qed.

Lemma inert_for_each {A} (l : list A) (body : A -> M unit) :
  (forall x, inert (body x)) -> inert (for_each l body).
Proof.
  intros Hb. induction l as [|x l IH]; cbn [for_each]; [apply inert_ret|].
  apply (inert_bind (body x) (fun _ => for_each l body)); auto.
Qed.

Lemma inert_for_enumerate {A} (l : list A) (body : nat -> A -> M unit) :
  (forall i x, inert (body i x)) -> forall idx, inert (for_enumerate idx l body).
Proof.
  intros Hb. induction l as [|x l IH]; intros idx; cbn [for_enumerate]; [apply inert_ret|].
  apply (inert_bind (body idx x) (fun _ => for_enumerate (S idx) l body)); auto.
Qed.

Create HintDb inert.
#[export] Hint Resolve inert_print inert_ret inert_raise inert_of_fuel inert_get_state
  : inert.

Ltac inert :=
  repeat lazymatch goal with
    | |- inert (mbind _ _) => apply inert_bind; [|intros ?]
    | |- inert (for_each _ _) => apply inert_for_each; intros ?
    | |- inert (if ?b then _ else _) => destruct b
    | |- inert (match ?x with _ => _ end) => destruct x
    | |- inert _ => solve [auto with inert]
    end.

Lemma inert_merge_envs first layers : inert (merge_envs first layers).
Proof.
  revert first. induction layers as [|m l IH]; intros first; cbn [merge_envs]; inert.
  unfold merge_layer. inert.
Qed.

Lemma inert_guard when sc : inert (guard_passes when sc).
Proof. unfold guard_passes. inert. Qed.

Lemma inert_dyn_get v k dflt : inert (dyn_get v k dflt).
Proof. unfold dyn_get. inert. Qed.

#[export] Hint Resolve inert_merge_envs inert_guard inert_dyn_get : inert.

Lemma inert_exec_step W fuel dry key inp cx env idx sc step :
  dry = true -> inert (exec_step W fuel (Config dry key inp cx env) idx sc step).
Proof.
  intros ->. unfold exec_step, act_write_file, act_clone_repos, act_run, subscript, len.
  cbn [dry_run]. inert.
Qed.

Lemma run_steps_inert W fuel c :
  dry_run c = true -> forall idx steps, inert (run_steps W fuel c idx steps).
Proof.
  intros Hdry idx steps. unfold run_steps. apply inert_for_enumerate.
  intros i raw. unfold run_step. apply inert_bind; [apply inert_of_fuel|].
  intros step. destruct c as [dry key inp cx env]. now apply inert_exec_step.
Qed.

(** X8.  In dry-run mode the loop over the steps only prints: whatever
    the steps are, it spawns no process and leaves files, directories,
    modes and the process environment as they were. *)
Theorem dry_run_is_inert W fuel c :
  dry_run c = true -> forall idx steps, inert (run_steps W fuel c idx steps).
Proof.
  intros Hdry idx steps. unfold run_steps. apply inert_for_enumerate.
  intros i raw. unfold run_step. apply inert_bind; [apply inert_of_fuel|].
  intros step. destruct c as [dry key inp cx env]. now apply inert_exec_step.
Qed.

Lemma dry_run_is_inert_witness :
  inert (run_steps Posix.W 4 Scenario.cfg_dry 1 Scenario.mixed_steps).
Proof. exact (dry_run_is_inert Posix.W 4 Scenario.cfg_dry eq_refl 1 Scenario.mixed_steps). Defined.

End DryRunFacts.

(* ===================================================================== *)
(** ** What [run_spec] sets up before its loop *)

Module PrepareFacts.
Import Py Eff Platform Hooks Runner EffFacts HookFacts OrderFacts.

Lemma of_items_lookup {A} (d : list (string * A)) : forall (out : gmap string A) k,
  fold_left (fun m kv => <[fst kv := snd kv]> m) d out !! k
    = match fold_right (fun kv found =>
                          match found with
                          | Some x => Some x
                          | None => if String.eqb k (fst kv) then Some (snd kv) else None
                          end) None d with
      | Some v => Some v
      | None => out !! k
      end.
Proof.
  induction d as [|[k' v] d IH]; intros out k; cbn [fold_left fold_right fst snd];
    [reflexivity|].
  rewrite IH. destruct (fold_right _ None d); [reflexivity|].
  destruct (String.eqb_spec k k') as [->|Hne].
  - apply lookup_insert_eq.
  - now apply lookup_insert_ne.
Qed.

Lemma assoc_last_fold k (d : list (string * value)) :
  fold_right (fun kv found =>
                match found with
                | Some x => Some x
                | None => if String.eqb k (fst kv) then Some (snd kv) else None
                end) None d
    = assoc_last k d.
Proof. induction d as [|[k' v] d IH]; cbn; [reflexivity | now rewrite IH]. Qed.

Lemma of_items_assoc_last (d : list (string * value)) k :
  of_items d !! k = assoc_last k d.
Proof.
  unfold of_items. rewrite of_items_lookup, assoc_last_fold.
  now destruct (assoc_last k d).
Qed.

Lemma bind_snd {A B} (m : M A) (f : A -> M B) st :
  (forall a s, snd (f a s) = s) -> snd ((m ≫= f) st) = snd (m st).
Proof.
  intros Hf. unfold mbind, eff_bind, bind.
  destruct (m st) as [[a|e|] s1]; cbn [snd]; auto.
Qed.

Lemma import_module_result W st :
  import_module W st
    = (match import_distro W (fs st) with None => Ok tt | Some e => Raise e end, st).
Proof.
  unfold import_module. rewrite bind_get_state. now destruct (import_distro W (fs st)).
Qed.

(** Where [detect_os] leaves the state: where it found it, or, on Linux
    with [distro] missing, after the installation of [distro]. *)
Lemma detect_os_state W st :
  snd (detect_os W st) = st
  \/ (Str.lower (system W) = "linux"
      /\ is_Some (import_distro W (fs st))
      /\ snd (detect_os W st) = snd (spawned W (pip_install_distro W) None None st)).
Proof.
  unfold detect_os. destruct (String.eqb (Str.lower (system W)) "windows"); [now left|].
  destruct (String.eqb_spec (Str.lower (system W)) "linux") as [Hl|_]; [|now left].
  rewrite bind_snd.
  2:{ intros _ s. rewrite bind_get_state.
      repeat match goal with |- context [if ?b then _ else _] => destruct b end;
        reflexivity. }
  unfold try_except. rewrite import_module_result.
  destruct (import_distro W (fs st)) as [e|] eqn:Hi; [|now left].
  destruct (is_Exception e); [|now left].
  right. split; [exact Hl|]. split; [eauto|].
  rewrite bind_snd by (intros _ s; now rewrite import_module_result).
  now rewrite (subprocess_run_strs W _ _ None None st (strs_map_VStr _)).
Qed.

(** What a successful [prepare] tells about its result. *)
Lemma prepare_inv W fuel spec dry ov st c steps st1 :
  prepare W fuel spec dry ov st = (Ok (c, steps), st1) ->
  let o := default "" (environ st !! "FORGE_OS") in
  let st_h := St (fs st) (home_applied (environ st)) (trace st) in
  (if negb (String.eqb o "") then os_key c = o /\ st1 = st_h
   else detect_os W st_h = (Ok (os_key c), st1))
  /\ dry_run c = dry
  /\ (exists sd, spec = VDict sd
                 /\ or_else (get_or sd "inputs" empty_dict) empty_dict = VDict (inputs c))
  /\ ctx c = <["OS" := VStr (os_key c)]> ((VStr <$> parse_overrides ov) ∪ of_items (inputs c)).
Proof.
  intros H o st_h. unfold prepare in H.
  inv_pure H. inv_bind H.
  assert (Hs : s = st_h).
  { injection E as <-. subst st_h. unfold home_applied.
    destruct (negb (String.eqb (default "" (environ st !! "FORGE_HOME")) "")).
    - now injection E0 as _ <-.
    - injection E0 as _ <-. now destruct st. }
  assert (Ho : default "" (environ s !! "FORGE_OS") = o).
  { subst s st_h o. cbn [environ]. unfold home_applied.
    destruct (negb (String.eqb (default "" (environ st !! "FORGE_HOME")) ""));
      [|reflexivity].
    now rewrite !lookup_insert_ne by discriminate. }
  inv_pure H. inv_bind H. do 2 inv_pure H. destruct a4 as [inputs_d ctx0].
  do 11 inv_pure H.
  injection H as <- <- <-. cbn [dry_run os_key inputs ctx].
  injection E1 as <-. rewrite Ho in E2.
  split.
  { destruct (negb (String.eqb o "")).
    - injection E2 as <- <-. now split.
    - rewrite <- Hs. exact E2. }
  split; [reflexivity|].
  assert (Hspec : exists sd, spec = VDict sd).
  { unfold dyn_get in E3. destruct spec; try discriminate. eauto. }
  destruct Hspec as [sd ->]. apply dyn_get_dict in E3 as [-> _].
  unfold build_ctx in E4.
  destruct (or_else (get_or sd "inputs" empty_dict) empty_dict) eqn:Ei; try discriminate.
  injection E4 as <- <-. split; [eauto|]. reflexivity.
Qed.

(** X9.  In the context [run_spec] builds, [OS] is the active OS key and
    nothing else: neither an input nor a [--set] override named [OS] gets
    through.  The key is [FORGE_OS] when that variable is set and not
    empty, and what [detect_os] answers otherwise.  Every other name is
    bound to its override when there is one, and to the document's input
    when there is none. *)
Theorem context_layers W fuel spec dry ov st c steps st1 :
  prepare W fuel spec dry ov st = (Ok (c, steps), st1) ->
  ctx c !! "OS" = Some (VStr (os_key c))
  /\ (forall o, environ st !! "FORGE_OS" = Some o -> o <> "" -> os_key c = o)
  /\ (default "" (environ st !! "FORGE_OS") = "" ->
        fst (detect_os W (St (fs st) (home_applied (environ st)) (trace st)))
          = Ok (os_key c))
  /\ (forall k, k <> "OS" ->
        ctx c !! k = match parse_overrides ov !! k with
                     | Some v => Some (VStr v)
                     | None => assoc_last k (inputs c)
                     end).
Proof.
  intros H. apply prepare_inv in H as (Hos & _ & _ & Hctx). rewrite Hctx.
  split; [apply lookup_insert_eq|]. split; [|split].
  - intros o Ho Hne. rewrite Ho in Hos. cbn in Hos.
    destruct (String.eqb_spec o ""); [contradiction | apply Hos].
  - intros Ho. rewrite Ho in Hos. cbn in Hos. now rewrite Hos.
  - intros k Hk. rewrite lookup_insert_ne by congruence.
    rewrite lookup_union, lookup_fmap, of_items_assoc_last.
    destruct (parse_overrides ov !! k); cbn; [now destruct (assoc_last k (inputs c))|].
    now destruct (assoc_last k (inputs c)).
Qed.

Lemma context_layers_witness :
  exists c steps st1,
    prepare Posix.W 4 Scenario.spec_env false ["FOO=from-override"; "OS=plan9"]
        (Posix.start [] "ubuntu") = (Ok (c, steps), st1)
    /\ ctx c !! "OS" = Some (VStr "ubuntu")
    /\ ctx c !! "FOO" = Some (VStr "from-override")
    /\ ctx c !! "BAR" = Some (VStr "bar").
Proof.
  destruct (prepare Posix.W 4 Scenario.spec_env false ["FOO=from-override"; "OS=plan9"]
              (Posix.start [] "ubuntu")) as [[[c steps]| |] st1] eqn:E;
    try (vm_compute in E; discriminate).
  pose proof (context_layers _ _ _ _ _ _ _ _ _ E) as (Hos & Hkey & _ & Hk).
  exists c, steps, st1. split; [reflexivity|].
  assert (Hc : c = fst (match fst (prepare Posix.W 4 Scenario.spec_env false
                                     ["FOO=from-override"; "OS=plan9"]
                                     (Posix.start [] "ubuntu")) with
                        | Ok x => x
                        | _ => (c, steps)
                        end)) by (now rewrite E).
  rewrite (Hkey "ubuntu" eq_refl) in Hos by discriminate.
  split; [exact Hos|]. rewrite !Hk by discriminate.
  rewrite Hc. vm_compute. split; reflexivity.
Defined.



End PrepareFacts.

(* ===================================================================== *)
(** ** A dry run of [run_spec] *)

Module DryRunSpec.
Import Py Eff Platform Hooks Runner EffFacts HookFacts OrderFacts DryRunFacts PrepareFacts.

(** Where [prepare] leaves the state, however it ends. *)
Lemma prepare_state W fuel spec dry ov st :
  let st_h := St (fs st) (home_applied (environ st)) (trace st) in
  snd (prepare W fuel spec dry ov st) = st_h
  \/ (default "" (environ st !! "FORGE_OS") = ""
      /\ Str.lower (system W) = "linux"
      /\ is_Some (import_distro W (fs st))
      /\ snd (prepare W fuel spec dry ov st)
         = snd (spawned W (pip_install_distro W) None None st_h)).
Proof.
  intros st_h. unfold prepare. rewrite bind_get_state.
  assert (Hh : (let home_override := default "" (environ st !! "FORGE_HOME") in
                if negb (String.eqb home_override "")
                then set_environ "HOME" home_override;;
                     set_environ "USERPROFILE" home_override
                else mret tt) st = (Ok tt, st_h)).
  { subst st_h. unfold home_applied. cbn zeta.
    destruct (negb (String.eqb (default "" (environ st !! "FORGE_HOME")) ""));
      [reflexivity | now destruct st]. }
  rewrite (bind_Ok _ _ _ _ _ Hh), bind_get_state.
  rewrite bind_snd.
  2:{ intros key s.
      match goal with
      | |- snd (?m s) = s => assert (Hm : stateless m) by stateless; apply Hm
      end. }
  assert (Ho : default "" (environ st_h !! "FORGE_OS") = default "" (environ st !! "FORGE_OS")).
  { subst st_h. cbn [environ]. unfold home_applied.
    destruct (negb (String.eqb (default "" (environ st !! "FORGE_HOME")) ""));
      [|reflexivity].
    now rewrite !lookup_insert_ne by discriminate. }
  rewrite Ho.
  destruct (String.eqb_spec (default "" (environ st !! "FORGE_OS")) "") as [Hs|Hs];
    cbn [negb]; [|now left].
  destruct (detect_os_state W st_h) as [E | (Hl & Hi & E)]; [now left|].
  right. repeat split; assumption.
Qed.

(** After [prepare], a dry run only prints. *)
Lemma dry_run_tail W fuel spec ov st :
  exists out,
    snd (run_loaded W fuel spec true ov st)
      = St (fs (snd (prepare W fuel spec true ov st)))
           (environ (snd (prepare W fuel spec true ov st)))
           (trace (snd (prepare W fuel spec true ov st)) ++ out)%list
    /\ Forall (fun e => is_print e = true) out.
Proof.
  unfold run_loaded.
  destruct (prepare W fuel spec true ov st) as [[[c steps]| |] st1] eqn:Hp.
  - rewrite (bind_Ok _ _ _ _ _ Hp). cbn [snd].
    apply prepare_inv in Hp as (_ & Hdry & _).
    assert (Hi : inert (run_steps W fuel c 1 steps ≫= fun _ =>
                        print (newline ++ "All steps complete."))).
    { apply inert_bind; [now apply run_steps_inert | intros _; apply inert_print]. }
    apply Hi.
  - rewrite (bind_Raise _ _ _ _ _ Hp). exists []. cbn [snd].
    rewrite app_nil_r. split; [now destruct st1 as [[] ? ?] | constructor].
  - rewrite (bind_Diverge _ _ _ _ Hp). exists []. cbn [snd].
    rewrite app_nil_r. split; [now destruct st1 as [[] ? ?] | constructor].
Qed.

Lemma dry_run_loaded W fuel spec ov st :
  (exists out,
     fs (snd (run_loaded W fuel spec true ov st)) = fs st
     /\ trace (snd (run_loaded W fuel spec true ov st)) = (trace st ++ out)%list
     /\ Forall (fun e => is_print e = true) out)
  \/ (default "" (environ st !! "FORGE_OS") = ""
      /\ Str.lower (system W) = "linux"
      /\ is_Some (import_distro W (fs st))
      /\ exists out,
           trace (snd (run_loaded W fuel spec true ov st))
             = (trace st ++ Spawn (pip_install_distro W) None None :: out)%list
           /\ Forall (fun e => is_print e = true) out).
Proof.
  destruct (dry_run_tail W fuel spec ov st) as (out & E & F). rewrite E. cbn [fs trace].
  destruct (prepare_state W fuel spec true ov st) as [-> | (Ho & Hl & Hi & ->)].
  - left. exists out. cbn. auto.
  - right. repeat split; try assumption. exists out. cbn [snd spawned trace].
    rewrite <- app_assoc. auto.
Qed.



End DryRunSpec.
(* ===================================================================== *)
(** ** More on [write_file] *)

Module WriteMore.
Import Py Eff Platform Hooks EffFacts WriteFacts.

#[local] Arguments String.append : simpl nomatch.

Lemma mode_set_other W p mode m q : q <> p -> mode_set W p mode m !! q = m !! q.
Proof.
  intros Hq. unfold mode_set. destruct (truthy mode); [|reflexivity].
  destruct (parse_octal (str mode)) as [n|]; [|reflexivity].
  destruct (chmod_fails W p n); [reflexivity|]. now apply lookup_insert_ne.
Qed.



(** *** The mode *)

Lemma octal_not_space c : Str.in_range 48 55 c = true -> Str.is_int_space c = false.
Proof. destruct c as [[] [] [] [] [] [] [] []]; vm_compute; congruence. Qed.

Lemma octal_forallb_outside s :
  Str.forallb (Str.in_range 48 55) s = true ->
  Str.forallb (fun c => negb (Str.is_int_space c)) s = true.
Proof.
  induction s as [|c s IH]; [reflexivity|]. cbn [Str.forallb].
  intros [Hc Hs]%andb_true_iff. now rewrite (octal_not_space c Hc), (IH Hs).
Qed.

(** On a text of octal digits [int(s, 8)] is the digit loop. *)
Lemma parse_octal_digits s :
  Str.forallb (Str.in_range 48 55) s = true ->
  parse_octal s = octal_digits s false 0.
Proof.
  intros Hs. unfold parse_octal.
  rewrite (StripFacts.strip_none _ s (octal_forallb_outside s Hs)).
  destruct s as [|c s]; [reflexivity|].
  cbn [Str.forallb] in Hs. apply andb_true_iff in Hs as [Hc Hs].
  assert (Hd : c = "0"%char \/ (c <> "0"%char /\ Str.in_range 48 55 c = true)).
  { destruct (Ascii.eqb_spec c "0"); [now left | right; now split]. }
  destruct Hd as [-> | [Hnz Hc']].
  - destruct s as [|c2 s].
    + reflexivity.
    + cbn [Str.forallb] in Hs. apply andb_true_iff in Hs as [Hc2 _].
      destruct c2 as [[] [] [] [] [] [] [] []]; try discriminate Hc2;
        cbn; now destruct (octal_digits s true _).
  - destruct c as [[] [] [] [] [] [] [] []]; try discriminate Hc'; try congruence;
      cbn; now destruct (octal_digits s true _).
Qed.

(** The digit loop over the octal digits of a positive number. *)
Lemma octal_digits_of_pos : forall (n : positive) rest b (base : N),
  octal_digits (OctalString.Raw.of_pos n rest) b (Z.of_N base)
    = octal_digits rest true
        (Z.of_N match base with
                | N0 => Npos n
                | Npos v => Npos (OctalString.pos_oct_app v n)
                end).
Proof.
  fix IH 1. intros n rest b base.
  do 3 try destruct n as [n|n|]; destruct base; try reflexivity;
    cbn [OctalString.Raw.of_pos]; rewrite (IH n); reflexivity.
Qed.

Lemma of_pos_octal : forall (n : positive) rest,
  Str.forallb (Str.in_range 48 55) rest = true ->
  Str.forallb (Str.in_range 48 55) (OctalString.Raw.of_pos n rest) = true.
Proof.
  fix IH 1. intros n rest Hr.
  do 3 try destruct n as [n|n|]; cbn [OctalString.Raw.of_pos];
    try (apply IH); cbn [Str.forallb]; now rewrite Hr.
Qed.

(** [int(s, 8)] reads back a positive number from its octal digits,
    bare, after a zero, and after the prefix [0o]. *)
Lemma parse_octal_of_pos (n : positive) :
  parse_octal (OctalString.Raw.of_pos n "") = Some (Zpos n)
  /\ parse_octal (String "0" (OctalString.Raw.of_pos n "")) = Some (Zpos n)
  /\ parse_octal (OctalString.of_pos n) = Some (Zpos n).
Proof.
  pose proof (of_pos_octal n "" eq_refl) as Hd.
  pose proof (octal_digits_of_pos n "" false 0%N) as H0.
  pose proof (octal_digits_of_pos n "" true 0%N) as H1.
  cbn in H0, H1. split; [|split].
  - now rewrite (parse_octal_digits _ Hd).
  - rewrite parse_octal_digits by (cbn [Str.forallb]; now rewrite Hd).
    cbn [octal_digits]. exact H1.
  - unfold OctalString.of_pos, parse_octal.
    rewrite (StripFacts.strip_none _ (String "0" (String "o" _)))
      by (cbn [Str.forallb]; now rewrite (octal_forallb_outside _ Hd)).
    cbn -[octal_digits OctalString.Raw.of_pos].
    destruct (OctalString.Raw.of_pos n "") as [|c s] eqn:E; [discriminate H0|].
    cbn [Str.forallb] in Hd. apply andb_true_iff in Hd as [Hc _].
    destruct c as [[] [] [] [] [] [] [] []]; try discriminate Hc;
      rewrite H0; reflexivity.
Qed.



Lemma mkdir_chain_ends W chain : forall st, fst (mkdir_chain W chain st) <> Diverge.
Proof.
  induction chain as [|q up IH]; intros st; [discriminate|].
  cbn [mkdir_chain]. rewrite bind_get_state.
  destruct (bool_decide _); [discriminate|].
  destruct (bool_decide _); [discriminate|].
  destruct up as [|q' up']; [discriminate|].
  specialize (IH st).
  destruct (mkdir_chain W (q' :: up') st) as [[[]|e|] s1] eqn:E.
  - rewrite (bind_Ok _ _ _ _ _ E), bind_get_state.
    now destruct (permits W (fs s1) MakeDir q).
  - now rewrite (bind_Raise _ _ _ _ _ E).
  - now destruct IH.
Qed.

(** X14.  Given a content that is not a string (a YAML number, say),
    [write_file] raises and no file is written or changed, whatever the
    file system, the mode and the append flag are; directories made on the
    way stay. *)
Theorem write_file_rejects_non_string W (path : string) (content mode : value)
    (append : bool) (st : state) :
  (forall text, content <> VStr text) ->
  let r := write_file W (VStr path) content mode append st in
  (exists e, fst r = Raise e)
  /\ files (fs (snd r)) = files (fs st)
  /\ modes (fs (snd r)) = modes (fs st)
  /\ trace (snd r) = trace st.
Proof.
  intros Hc r. subst r. unfold write_file. rewrite bind_get_state.
  set (p := expanduser W (environ st) path).
  destruct (mkdir_chain_frame W (parent_chain W p) st) as (d & Hfr & _).
  pose proof (mkdir_chain_ends W (parent_chain W p) st) as Hend.
  change (mkdir_chain W (parent_chain W p)) with (ensure_parent W p) in Hfr, Hend.
  destruct (ensure_parent W p st) as [[[]|e|] s1] eqn:Hmk; cbn [fst snd] in Hfr, Hend.
  - rewrite (bind_Ok _ _ _ _ _ Hmk), bind_get_state. subst s1.
    set (st1 := St _ _ _).
    assert (Hbody : exists e,
      (if append && path_exists (fs st1) p
       then old ← read_text W p;
            match content with
            | VStr text => write_text W p (VStr (old ++ text))
            | _ => raise TypeError "can only concatenate str to str"
            end
       else write_text W p content) st1 = (Raise e, st1)).
    { destruct (append && path_exists (fs st1) p).
      - destruct (read_text W p st1) as [[old|e|] s2] eqn:Hr.
        + assert (s2 = st1) as ->.
          { unfold read_text in Hr. rewrite bind_get_state in Hr.
            destruct (files (fs st1) !! p); [|discriminate].
            destruct (permits W (fs st1) ReadFile p); [|discriminate].
            now injection Hr. }
          rewrite (bind_Ok _ _ _ _ _ Hr).
          destruct content; try (exfalso; eapply Hc; reflexivity); eexists; reflexivity.
        + assert (s2 = st1) as ->.
          { unfold read_text in Hr. rewrite bind_get_state in Hr.
            destruct (files (fs st1) !! p);
              [destruct (permits W (fs st1) ReadFile p)|]; now injection Hr. }
          eexists. exact (bind_Raise _ _ _ _ _ Hr).
        + exfalso. unfold read_text in Hr. rewrite bind_get_state in Hr.
          destruct (files (fs st1) !! p);
            [destruct (permits W (fs st1) ReadFile p)|]; discriminate.
      - unfold write_text.
        destruct content; try (exfalso; eapply Hc; reflexivity); eexists; reflexivity. }
    destruct Hbody as [e He]. rewrite (bind_Raise _ _ _ _ _ He). cbn. eauto.
  - rewrite (bind_Raise _ _ _ _ _ Hmk). subst s1. cbn. eauto.
  - now destruct Hend.
Qed.

Lemma write_file_rejects_non_string_witness :
  exists e,
    fst (write_file Posix.W (VStr "/srv/count") (VInt 5) VNone false Scenario.st0) = Raise e.
Proof.
  refine (proj1 (write_file_rejects_non_string Posix.W "/srv/count" (VInt 5) VNone false
                   Scenario.st0 _)).
  discriminate.
Defined.

End WriteMore.

(* ===================================================================== *)
(** ** Repository entries and run-items *)

Module EntryFacts.
Import Py Eff Platform Hooks Runner EffFacts HookFacts ErrorFacts StrFacts StripFacts.
Import Interp.

#[local] Arguments String.append : simpl nomatch.

(** X15.  When the clone target of an entry exists already, no [git] is
    spawned for it: the skip is printed and the loop goes straight on to
    the entry's [post_install] commands, which run again in the existing
    directory. *)
Theorem existing_target_skips_clone W coe sk env dest dorg ed url name target post st :
  locate_entry W dest dorg (VDict ed) st = (Ok (url, name, target), st) ->
  path_exists (fs st) target = true ->
  or_else (get ed "post_install") empty_list = VList post ->
  clone_entry W coe sk env dest dorg (VDict ed) st
    = for_each post (post_item W coe sk name target env)
        (printed st ("skip clone: " ++ target ++ " exists")).
Proof.
  intros Hloc Hex Hpost. unfold clone_entry. rewrite (bind_Ok _ _ _ _ _ Hloc).
  assert (Hclone : clone_repo_to W url target st
                   = (Ok tt, printed st ("skip clone: " ++ target ++ " exists"))).
  { unfold clone_repo_to. rewrite bind_get_state, Hex. reflexivity. }
  assert (Htry : try_except (clone_repo_to W url target ≫= fun _ => mret true)
                   (on_process_error (fun e =>
                      print ("[ERROR] git clone failed: " ++ msg e);;
                      if coe then mret false else reraise e)) st
                 = (Ok true, printed st ("skip clone: " ++ target ++ " exists"))).
  { unfold try_except. now rewrite (bind_Ok _ _ _ _ _ Hclone). }
  rewrite (bind_Ok _ _ _ _ _ Htry). cbn [dyn_get].
  rewrite (bind_Ok _ _ _ (get_or ed "post_install" VNone) _ eq_refl).
  change (get_or ed "post_install" VNone) with (get ed "post_install").
  rewrite Hpost. now rewrite (bind_Ok _ _ _ post _ eq_refl).
Qed.

Lemma existing_target_skips_clone_witness :
  Scenario.spawned_commands
    (trace (snd (clone_entry Posix.W false (VStr "bash") ∅ "/srv/ws" VNone
                   (VDict [("name", VStr "acme/svc"); ("post_install", VList [VStr "make"])])
                   (St (Fs ∅ {["/srv/ws/acme/svc"]} ∅) ∅ []))))
  = [["/bin/bash"; "-lc"; "make"]].
Proof.
  rewrite (existing_target_skips_clone Posix.W false (VStr "bash") ∅ "/srv/ws" VNone
             [("name", VStr "acme/svc"); ("post_install", VList [VStr "make"])]
             (VStr "https://github.com/acme/svc.git") (VStr "acme/svc")
             "/srv/ws/acme/svc" [VStr "make"]
             (St (Fs ∅ {["/srv/ws/acme/svc"]} ∅) ∅ [])).
  - reflexivity.
  - reflexivity.
  - vm_compute. reflexivity.
  - reflexivity.
Defined.

Lemma resolve_raises_exception entry dorg e :
  resolve_repo_url entry dorg = Raise e -> is_Exception e = true.
Proof.
  unfold resolve_repo_url.
  destruct entry as [| b | z | s | l | d]; cbn [contains];
    try (intros [= <-]; reflexivity).
  - destruct (Str.contains "url" s); intros [= <-]; reflexivity.
  - destruct (existsb (is_str "url") l); intros [= <-]; reflexivity.
  - destruct (truthy (default VNone (assoc "url" d))); [discriminate|].
    destruct (negb (truthy (default VNone (assoc "name" d)))); [intros [= <-]; reflexivity|].
    destruct (negb (truthy (or_else (default VNone (assoc "org" d)) dorg))); [|discriminate].
    destruct (default VNone (assoc "name" d)) as [| b | z | s | l | d']; cbn [contains];
      try (intros [= <-]; reflexivity).
    + destruct (Str.contains "/" s); [discriminate | intros [= <-]; reflexivity].
    + destruct (existsb (is_str "/") l); [discriminate | intros [= <-]; reflexivity].
    + destruct (bool_decide _); [discriminate | intros [= <-]; reflexivity].
Qed.

Lemma locate_entry_unresolved W dest dorg entry e st :
  resolve_repo_url entry dorg = Raise e ->
  locate_entry W dest dorg entry st
    = (Raise (Exn SystemExit ("repo resolution error: " ++ msg e)), st).
Proof.
  intros H. unfold locate_entry. rewrite H, (resolve_raises_exception _ _ _ H).
  reflexivity.
Qed.

(** X16.  An entry whose URL cannot be resolved ends the run with
    [SystemExit] and the resolution message, with or without
    [continue_on_error]: nothing is printed or cloned for it, and the
    entries after it are not reached.  Every entry that is not a mapping
    (a bare [org/name] string, say) is such an entry. *)
Theorem unresolved_entry_is_fatal W coe sk env dest dorg entry rest st :
  (forall e, resolve_repo_url entry dorg = Raise e ->
     for_each (entry :: rest) (clone_entry W coe sk env dest dorg) st
       = (Raise (Exn SystemExit ("repo resolution error: " ++ msg e)), st))
  /\ ((forall d, entry <> VDict d) -> exists e, resolve_repo_url entry dorg = Raise e).
Proof.
  split.
  - intros e He. rewrite for_each_cons. apply bind_Raise. unfold clone_entry.
    apply bind_Raise. now apply locate_entry_unresolved.
  - intros Hd. unfold resolve_repo_url, contains.
    destruct entry; try (exfalso; eapply Hd; reflexivity); eauto.
    + destruct (Str.contains "url" s); eauto.
    + destruct (existsb (is_str "url") l); eauto.
Qed.

Lemma unresolved_entry_is_fatal_witness :
  exists e,
    for_each [VStr "acme/svc"; VDict [("name", VStr "acme/other")]]
        (clone_entry Posix.W true (VStr "bash") ∅ "/srv/ws" VNone) Scenario.st0
      = (Raise (Exn SystemExit ("repo resolution error: " ++ msg e)), Scenario.st0).
Proof.
  destruct (proj2 (unresolved_entry_is_fatal Posix.W true (VStr "bash") ∅ "/srv/ws" VNone
                     (VStr "acme/svc") [VDict [("name", VStr "acme/other")]] Scenario.st0))
    as [e He]; [discriminate|].
  exists e.
  exact (proj1 (unresolved_entry_is_fatal Posix.W true (VStr "bash") ∅ "/srv/ws" VNone
                  (VStr "acme/svc") [VDict [("name", VStr "acme/other")]] Scenario.st0)
           e He).
Defined.

Lemma lstrip_app_all p a b :
  Str.forallb p a = true -> Str.lstrip p (a ++ b) = Str.lstrip p b.
Proof.
  induction a as [|c a IH]; [reflexivity|]. cbn [Str.forallb].
  intros [Hc Ha]%andb_true_iff.
  change (String c a ++ b) with (String c (a ++ b)). cbn [Str.lstrip]. rewrite Hc. auto.
Qed.

Lemma starts_outside_nonempty p a b :
  a <> "" -> Str.forallb (fun c => negb (p c)) a = true -> starts_outside p (a ++ b) = true.
Proof.
  destruct a as [|c a]; [congruence|]. cbn. now intros _ [-> _]%andb_true_iff.
Qed.

Lemma rev_nonempty s : s <> "" -> Str.rev s <> "".
Proof.
  destruct s as [|c s]; [congruence|]. intros _. rewrite rev_cons.
  destruct (Str.rev s); discriminate.
Qed.

Lemma until_app sep a b :
  Str.forallb (fun c => negb (Str.is_char sep c)) a = true ->
  Str.until sep (a ++ String sep b) = a.
Proof.
  induction a as [|c a IH].
  - intros _. cbn. now rewrite Ascii.eqb_refl.
  - cbn [Str.forallb]. intros [Hc Ha]%andb_true_iff.
    change (String c a ++ String sep b) with (String c (a ++ String sep b)).
    cbn [Str.until]. unfold Str.is_char in Hc. rewrite Ascii.eqb_sym.
    apply negb_true_iff in Hc. now rewrite Hc, (IH Ha).
Qed.

(** The last path segment of a URL with trailing slashes. *)
Lemma url_last_segment base seg slashes :
  seg <> "" ->
  Str.forallb (fun c => negb (Str.is_char "/" c)) seg = true ->
  Str.forallb (Str.is_char "/") slashes = true ->
  Str.last_segment "/" (Str.rstrip (Str.is_char "/") (base ++ String "/" seg ++ slashes))
    = seg.
Proof.
  intros Hne Hseg Hsl.
  assert (Hr : Str.rstrip (Str.is_char "/") (base ++ String "/" seg ++ slashes)
               = base ++ String "/" seg).
  { unfold Str.rstrip.
    replace (base ++ String "/" seg ++ slashes) with ((base ++ String "/" seg) ++ slashes)
      by (rewrite app_assoc; reflexivity).
    rewrite rev_app, lstrip_app_all by (now rewrite forallb_rev).
    change (String "/" seg) with (String "/" "" ++ seg).
    rewrite <- app_assoc, rev_app, lstrip_outside, <- rev_app, rev_involutive; [reflexivity|].
    apply starts_outside_nonempty; [now apply rev_nonempty | now rewrite forallb_rev]. }
  rewrite Hr. unfold Str.last_segment.
  rewrite rev_app, rev_cons, app_assoc.
  change (String "/" "" ++ Str.rev base) with (String "/" (Str.rev base)).
  rewrite until_app by (now rewrite forallb_rev). apply rev_involutive.
Qed.

(** X17.  The directory of a clone: an entry with a name is cloned into
    the directory of that name under the destination, whatever its URL; an
    entry without a name, under the stem of the last segment of its URL,
    trailing slashes aside. *)
Theorem clone_directory W dest dorg ed st :
  (forall url n, resolve_repo_url (VDict ed) dorg = Ok url ->
     get ed "name" = VStr n -> n <> "" ->
     locate_entry W dest dorg (VDict ed) st = (Ok (url, VStr n, joinpath W dest n), st))
  /\ (forall base seg slashes,
     resolve_repo_url (VDict ed) dorg = Ok (VStr (base ++ String "/" seg ++ slashes)) ->
     truthy (get ed "name") = false ->
     seg <> "" ->
     Str.forallb (fun c => negb (Str.is_char "/" c)) seg = true ->
     Str.forallb (Str.is_char "/") slashes = true ->
     locate_entry W dest dorg (VDict ed) st
       = (Ok (VStr (base ++ String "/" seg ++ slashes), VStr (stem W seg),
              joinpath W dest (stem W seg)), st)).
Proof.
  split.
  - intros url n Hres Hn Hne. unfold locate_entry. rewrite Hres.
    rewrite (bind_Ok _ _ _ url _ eq_refl). cbn [dyn_get].
    rewrite (bind_Ok _ _ _ (get_or ed "name" VNone) _ eq_refl).
    change (get_or ed "name" VNone) with (get ed "name"). rewrite Hn, (truthy_str n Hne).
    now rewrite (bind_Ok _ _ _ (VStr n) _ eq_refl).
  - intros base seg slashes Hres Hn Hne Hseg Hsl. unfold locate_entry. rewrite Hres.
    rewrite (bind_Ok _ _ _ (VStr (base ++ String "/" seg ++ slashes)) _ eq_refl).
    cbn [dyn_get]. rewrite (bind_Ok _ _ _ (get_or ed "name" VNone) _ eq_refl).
    change (get_or ed "name" VNone) with (get ed "name"). rewrite Hn.
    rewrite (url_last_segment base seg slashes Hne Hseg Hsl).
    now rewrite (bind_Ok _ _ _ (VStr (stem W seg)) _ eq_refl).
Qed.

Lemma clone_directory_witness :
  locate_entry Posix.W "/srv/ws" VNone
      (VDict [("url", VStr "https://github.com/someone/explicit.git//")]) Scenario.st0
    = (Ok (VStr "https://github.com/someone/explicit.git//", VStr "explicit",
           "/srv/ws/explicit"), Scenario.st0).
Proof.
  refine (proj2 (clone_directory Posix.W "/srv/ws" VNone
                   [("url", VStr "https://github.com/someone/explicit.git//")] Scenario.st0)
            "https://github.com/someone" "explicit.git" "//"
            eq_refl eq_refl _ eq_refl eq_refl).
  discriminate.
Defined.

Lemma spawned_commands_app a b :
  Scenario.spawned_commands (a ++ b)
    = (Scenario.spawned_commands a ++ Scenario.spawned_commands b)%list.
Proof.
  induction a as [|[text | argv cwd env] a IH]; cbn; [reflexivity | exact IH |].
  now rewrite IH.
Qed.

(** X18.  With [continue_on_error] a list of shell run-items is gone
    through to its end, in order, and the step returns normally, as long
    as the only way a command fails is a nonzero exit status: every item is
    spawned once, under the shell of the step, failed or not. *)
Theorem continue_on_error_runs_all W sk cwd env (cmds : list string) :
  (forall cmd st e, In cmd cmds ->
     fst (spawn W (shell_vector sk cmd) cwd (Some env) st) = Some e ->
     cls e = CalledProcessError) ->
  forall st,
    let r := for_each (map VStr cmds) (run_item W true sk cwd env) st in
    fst r = Ok tt
    /\ Scenario.spawned_commands (trace (snd r))
       = (Scenario.spawned_commands (trace st) ++ map (shell_vector sk) cmds)%list.
Proof.
  induction cmds as [|cmd cmds IH]; intros Hfail st.
  - cbn. now rewrite List.app_nil_r.
  - cbn [map]. rewrite for_each_cons.
    assert (Hrun : safe_run_command W (VStr cmd) sk cwd (Some env) st
                   = spawned W (shell_vector sk cmd) cwd (Some env) st).
    { cbn [safe_run_command]. unfold run_process_shell. apply subprocess_run_strs.
      unfold shell_vector. destruct (is_str "powershell" sk); apply strs_map_VStr. }
    assert (Hitem : exists st1,
              run_item W true sk cwd env (VStr cmd) st = (Ok tt, st1)
              /\ Scenario.spawned_commands (trace st1)
                 = (Scenario.spawned_commands (trace st) ++ [shell_vector sk cmd])%list).
    { unfold spawned in Hrun.
      destruct (fst (spawn W (shell_vector sk cmd) cwd (Some env) _)) as [e|] eqn:Hsp.
      - pose proof (Hfail cmd _ e (or_introl eq_refl) Hsp) as Hcls.
        eexists. split.
        + exact (run_item_failure W true sk cwd env (VStr cmd) e st _ Hrun Hcls).
        + cbn [printed trace]. rewrite !spawned_commands_app. cbn. now rewrite !List.app_nil_r.
      - eexists. split.
        + unfold run_item, try_except. now rewrite Hrun.
        + cbn [trace]. rewrite spawned_commands_app. reflexivity. }
    destruct Hitem as (st1 & Hst1 & Htr). rewrite (bind_Ok _ _ _ _ _ Hst1).
    destruct (IH (fun c s e Hin => Hfail c s e (or_intror Hin)) st1) as [Hok Hcmds].
    split; [exact Hok|]. rewrite Hcmds, Htr, <- List.app_assoc. reflexivity.
Qed.

Lemma continue_on_error_runs_all_witness :
  Scenario.spawned_commands
    (trace (snd (for_each (map VStr ["false"; "echo x"; "false"])
                   (run_item Posix.W true (VStr "bash") None ∅) Scenario.st0)))
  = [["/bin/bash"; "-lc"; "false"]; ["/bin/bash"; "-lc"; "echo x"];
     ["/bin/bash"; "-lc"; "false"]].
Proof.
  refine (proj2 (continue_on_error_runs_all Posix.W (VStr "bash") None ∅
                   ["false"; "echo x"; "false"] _ Scenario.st0)).
  intros cmd st e [<- | [<- | [<- | []]]]; cbn; intros [= <-]; reflexivity.
Defined.

End EntryFacts.

(* ===================================================================== *)
(** ** The repository's tests, replayed on the model *)

Module Replay.
Import Py Eff Platform Hooks Runner.

(** [test_inputs_and_env_interpolation_with_overrides] *)
Example env_sees_override :
  let r := run_loaded Posix.W 40 Scenario.spec_env false ["FOO=from-override"]
             (Posix.start [] "ubuntu") in
  fst r = Ok tt
  /\ (Scenario.first_env (trace (snd r)) ≫= fun env => env !! "COMBINED")
     = Some "from-override-bar".
Proof. vm_compute. split; reflexivity. Qed.

(** [test_when_condition_os_not_windows] *)
Example guard_on_ubuntu :
  Scenario.spawned_commands
    (trace (snd (run_loaded Posix.W 40 Scenario.spec_when false []
                   (Posix.start [] "ubuntu"))))
  = [["/bin/bash"; "-lc"; "echo linux"]].
Proof. vm_compute. reflexivity. Qed.

(** [test_when_condition_os_equals_windows] *)
Example guard_on_windows :
  let t := trace (snd (run_loaded Posix.W 40 Scenario.spec_when false []
                         (Posix.start [] "windows"))) in
  Scenario.spawned_commands t
    = [["powershell"; "-NoProfile"; "-ExecutionPolicy"; "Bypass"; "-Command";
        "echo windows"]]
  /\ Scenario.printed_lines t
     = [newline ++ "--- [Windows only] ---"; newline ++ "All steps complete."].
Proof. vm_compute. split; reflexivity. Qed.

(** [test_write_file_full_behavior] *)
Example write_then_append :
  let r := run_loaded Posix.W 40 Scenario.spec_write false [] (Posix.start [] "ubuntu") in
  fst r = Ok tt
  /\ files (fs (snd r)) !! "/home/dev/.config/test_file.txt"
     = Some ("line1" ++ newline ++ "line2")
  /\ modes (fs (snd r)) !! "/home/dev/.config/test_file.txt" = Some 384%Z.
Proof. vm_compute. repeat split; reflexivity. Qed.

(** [test_clone_repos_resolution_and_post_install] *)
Example clone_and_post_install :
  Scenario.spawned_commands
    (trace (snd (run_loaded Posix.W 40 Scenario.spec_clone false []
                   (Posix.start [] "ubuntu"))))
  = [["git"; "clone"; "https://github.com/my-org/service-a.git";
      "/home/dev/workspace/service-a"];
     ["git"; "clone"; "https://github.com/custom-org/custom-org-repo.git";
      "/home/dev/workspace/custom-org-repo"];
     ["git"; "clone"; "https://github.com/someone/explicit.git";
      "/home/dev/workspace/explicit"];
     ["echo"; "post-argv"];
     ["/bin/bash"; "-lc"; "echo post-shell"]].
Proof. vm_compute. reflexivity. Qed.

(** [re.match] on some guards. *)
Example guard_grammar :
  Re.match_here pat_when "  OS == 'ubuntu' " = Some (["OS"; "=="; "'ubuntu'"], "")
  /\ Re.match_here pat_when "OS!=windows" = Some (["OS"; "!="; "windows"], "")
  /\ Re.match_here pat_when "OS=windows" = None
  /\ Re.match_here pat_when "OS == a && X == b" = Some (["OS"; "=="; "a && X == b"], "")
  /\ cond_ok "  OS == 'ubuntu' " (ctx Scenario.cfg) = true.
Proof. vm_compute. repeat split; reflexivity. Qed.

(** [repr] and [str] of some values. *)
Example printing :
  str (VList [VStr "a'b"; VInt (-3); VNone; VBool true]) = "[" ++ String dquote "a'b" ++
    String dquote ", -3, None, True]"
  /\ str (VDict [("k", VStr "v")]) = "{'k': 'v'}"
  /\ str (VStr "plain") = "plain".
Proof. vm_compute. repeat split; reflexivity. Qed.

End Replay.
